(** * librsvg: the cairo drawing context, layer compositing and pixel conversions

    A shallow embedding of the C code of [rsvg-cairo-draw.c] (the drawing
    context: node acquisition, the render stack of discrete layers, clip-path
    and mask evaluation, and the pixbuf/cairo pixel conversions) and of
    [rsvg-paint-server.c] (paint servers and gradients), followed by the
    properties the design document states about it and by further
    properties read off the code.

    Conventions.
    - [guint32] and [guint] values are [Z] in [0, 2^32); every arithmetic
      operation of the C code is followed by its wrap-around ([wrap32]).
      [guchar]/[guint8] values are [Z] in [0, 256); a store into a [guchar]
      keeps the low eight bits ([to_guchar]).
    - Pointers are handles: a node is a [positive], a cairo context or a
      surface is a record carrying its handle, [NULL] is [None].
    - Functions that can hit [g_assert] return an [outcome]. *)

From Stdlib Require Import ZArith List Lia Bool String.
From stdpp Require Import base option list strings.

Local Open Scope Z_scope.

(** ** Machine integers *)

Definition wrap32 (z : Z) : Z := z mod 2 ^ 32.
Definition to_guchar (z : Z) : Z := z mod 256.

Definition add32 (a b : Z) : Z := wrap32 (a + b).
Definition mul32 (a b : Z) : Z := wrap32 (a * b).

(** Unsigned division of C: undefined when the divisor is zero. *)
Definition udiv (a b : Z) : option Z :=
  if b =? 0 then None else Some (a / b).

Definition is_guchar (z : Z) : Prop := 0 <= z < 256.
Definition is_guint32 (z : Z) : Prop := 0 <= z < 2 ^ 32.

(** ** Pixels *)

(** A pixel of a [GdkPixbuf] with an alpha channel: four bytes in memory
    order, [p[0]] red, [p[1]] green, [p[2]] blue, [p[3]] alpha (not
    premultiplied). *)
Record pixbuf_pixel : Type := PixbufPixel {
  px_r : Z;
  px_g : Z;
  px_b : Z;
  px_a : Z
}.

(** Four bytes [q[0]..q[3]] of a cairo image surface, in memory order. *)
Record cairo_bytes : Type := CairoBytes {
  q0 : Z;
  q1 : Z;
  q2 : Z;
  q3 : Z
}.

Inductive byte_order : Type := G_LITTLE_ENDIAN | G_BIG_ENDIAN.

(** Reading the four bytes of a cairo pixel through a [guint32 *]. *)
Definition load_guint32 (bo : byte_order) (q : cairo_bytes) : Z :=
  match bo with
  | G_LITTLE_ENDIAN =>
      q0 q + Z.shiftl (q1 q) 8 + Z.shiftl (q2 q) 16 + Z.shiftl (q3 q) 24
  | G_BIG_ENDIAN =>
      Z.shiftl (q0 q) 24 + Z.shiftl (q1 q) 16 + Z.shiftl (q2 q) 8 + q3 q
  end.

(** *** [rsvg_cairo_generate_mask]: the luminance loop body

    The word at [pixel] is replaced by
    [(((w & 0x00ff0000) >> 16) * 14042 + ((w & 0x0000ff00) >> 8) * 47240 +
      (w & 0x000000ff) * 4769) * opacity], [w] being the word read there. *)
Definition luminance_pixel (pixel opacity : Z) : Z :=
  mul32
    (add32
       (add32 (mul32 (Z.shiftr (Z.land pixel 0x00ff0000) 16) 14042)
              (mul32 (Z.shiftr (Z.land pixel 0x0000ff00) 8) 47240))
       (mul32 (Z.land pixel 0x000000ff) 4769))
    opacity.

(** The most significant byte of an ARGB32 word: its alpha channel. *)
Definition alpha_of (pixel : Z) : Z := Z.shiftr pixel 24.

(** *** [rsvg_cairo_surface_from_pixbuf]: the [MULT] macro

    [t = c * a + 0x7f; d = ((t >> 8) + t) >> 8;] with [t] a [guint] and [d]
    a [guchar]. *)
Definition MULT (c a : Z) : Z :=
  let t := wrap32 (c * a + 0x7f) in
  to_guchar (Z.shiftr (add32 (Z.shiftr t 8) t) 8).

(** One step of the [while (p < end)] loop of the four-channel branch. *)
Definition premultiply_pixel (bo : byte_order) (p : pixbuf_pixel) : cairo_bytes :=
  match bo with
  | G_LITTLE_ENDIAN =>
      {| q0 := MULT (px_b p) (px_a p);
         q1 := MULT (px_g p) (px_a p);
         q2 := MULT (px_r p) (px_a p);
         q3 := px_a p |}
  | G_BIG_ENDIAN =>
      {| q0 := px_a p;
         q1 := MULT (px_r p) (px_a p);
         q2 := MULT (px_g p) (px_a p);
         q3 := MULT (px_b p) (px_a p) |}
  end.

(** The row loop walks [p] and [q] in step, four bytes at a time. *)
Definition premultiply_row (bo : byte_order) (row : list pixbuf_pixel) : list cairo_bytes :=
  premultiply_pixel bo <$> row.

(** *** [convert_alpha]: the loop body for [src[x]]

    The three colour bytes are written by the branch on [alpha]; the alpha
    byte is written after it. [None] stands for a division by zero. *)
Definition convert_alpha_pixel (src : Z) : option pixbuf_pixel :=
  let alpha := Z.shiftr src 24 in
  if alpha =? 0 then
    Some {| px_r := 0; px_g := 0; px_b := 0; px_a := to_guchar alpha |}
  else
    half ← udiv alpha 2;
    r ← udiv (add32 (mul32 (Z.shiftr (Z.land src 0xff0000) 16) 255) half) alpha;
    g ← udiv (add32 (mul32 (Z.shiftr (Z.land src 0x00ff00) 8) 255) half) alpha;
    b ← udiv (add32 (mul32 (Z.shiftr (Z.land src 0x0000ff) 0) 255) half) alpha;
    Some {| px_r := to_guchar r; px_g := to_guchar g; px_b := to_guchar b;
            px_a := to_guchar alpha |}.

(** The inner loop [for (x = 0; x < width; x++)]: reads [src[x]], writes the
    four bytes of destination pixel [x].  Reading or writing past the end of
    a row is [None]. *)
Definition convert_alpha_row (width : nat) (src : list Z) (dest : list pixbuf_pixel)
  : option (list pixbuf_pixel) :=
  foldl (fun acc x =>
           d ← acc;
           w ← src !! x;
           px ← convert_alpha_pixel w;
           if decide (x < length d)%nat then Some (<[x := px]> d) else None)
        (Some dest) (seq 0 width).

(** [l[i]] for an [int] index [i]: nothing of [l] lies before its first
    element. *)
Definition lookup_int {A : Type} (l : list A) (i : Z) : option A :=
  if decide (0 <= i) then l !! Z.to_nat i else None.

(** The outer loop [for (y = 0; y < height; y++)] with the four [int]
    parameters as they are passed.  Rows stand for the strides: the source
    pointer starts at row [src_y], word [src_x] of that row, and both
    pointers move on by one row at the end of each turn.  The row pointers
    are dereferenced by the turns of the inner loop only, so with
    [width <= 0] a turn of the outer loop touches no memory, and with
    [height <= 0] there is no turn at all.  [None] is an access that
    leaves its row: a word read before the first or after the last word
    of a source row, or in a row the source does not have, and likewise
    for the bytes written. *)
Definition convert_alpha (dest : list (list pixbuf_pixel)) (src : list (list Z))
    (src_x src_y width height : Z) : option (list (list pixbuf_pixel)) :=
  foldl (fun acc y =>
           d ← acc;
           if decide (width <= 0) then Some d
           else
             src_row ← lookup_int src (src_y + Z.of_nat y);
             dest_row ← d !! y;
             row ← (if decide (0 <= src_x)
                    then convert_alpha_row (Z.to_nat width)
                           (drop (Z.to_nat src_x) src_row) dest_row
                    else None);
             Some (<[y := row]> d))
        (Some dest) (seq 0 (Z.to_nat height)).

(** Straight alpha to premultiplied and back, for one pixel. *)
Definition round_trip (bo : byte_order) (p : pixbuf_pixel) : option pixbuf_pixel :=
  convert_alpha_pixel (load_guint32 bo (premultiply_pixel bo p)).

(** ** Geometry

    The C code computes with [double]; nothing modelled here depends on how
    floating point behaves, so the type and the few operations the code
    applies are an interface. *)

Class DoubleOps : Type := {
  double : Type;
  d_zero : double;
  d_one : double;
  d_add : double -> double -> double;
  d_mul : double -> double -> double;
  (** conversion of a [double] to [guint32] or [int] *)
  d_to_int : double -> Z
}.

Section Types.
Context {D : DoubleOps}.

Record cairo_rectangle_t : Type := {
  rect_x : double;
  rect_y : double;
  rect_width : double;
  rect_height : double
}.

Record cairo_matrix_t : Type := {
  xx : double; yx : double;
  xy : double; yy : double;
  x0 : double; y0 : double
}.

(** [cairo_matrix_init (&m, xx, yx, xy, yy, x0, y0)] *)
Definition cairo_matrix_init (axx ayx axy ayy ax0 ay0 : double) : cairo_matrix_t :=
  {| xx := axx; yx := ayx; xy := axy; yy := ayy; x0 := ax0; y0 := ay0 |}.

(** Modelled from the spec: [RsvgBbox] is declared in a header that is not
    part of the sources; a rectangle (meaningless while the box is still
    empty), and the affine transform that was active when the box was
    opened. *)
Record RsvgBbox : Type := {
  rect : cairo_rectangle_t;
  affine : cairo_matrix_t;
  virgin : bool
}.

(** Modelled from the spec: [RsvgViewBox], the viewport against which
    percentage lengths are resolved. *)
Record RsvgViewBox : Type := {
  vb_rect : cairo_rectangle_t;
  vb_active : bool
}.

(** ** Handles *)

Definition RsvgNode : Type := positive.
Definition RsvgDefs : Type := positive.
Definition StatePtr : Type := positive.
Definition cairo_surface_t : Type := nat.

(** A cairo context knows the surface it draws to ([cairo_get_target]). *)
Record cairo_t : Type := {
  cr_handle : nat;
  cr_target : cairo_surface_t
}.

Definition cairo_get_target (c : cairo_t) : cairo_surface_t := cr_target c.

(** Pointer comparison of two cairo contexts. *)
Definition cr_eqb (a b : cairo_t) : bool := Nat.eqb (cr_handle a) (cr_handle b).

(** Modelled from the spec: the kinds of element the code asks for by name;
    every other member of the enumeration [RsvgNodeType] is
    [RSVG_NODE_TYPE_OTHER]. *)
Inductive RsvgNodeType : Type :=
| RSVG_NODE_TYPE_CLIP_PATH
| RSVG_NODE_TYPE_FILTER
| RSVG_NODE_TYPE_MASK
| RSVG_NODE_TYPE_OTHER (tag : nat).

Definition node_type_eqb (a b : RsvgNodeType) : bool :=
  match a, b with
  | RSVG_NODE_TYPE_CLIP_PATH, RSVG_NODE_TYPE_CLIP_PATH => true
  | RSVG_NODE_TYPE_FILTER, RSVG_NODE_TYPE_FILTER => true
  | RSVG_NODE_TYPE_MASK, RSVG_NODE_TYPE_MASK => true
  | RSVG_NODE_TYPE_OTHER m, RSVG_NODE_TYPE_OTHER n => Nat.eqb m n
  | _, _ => false
  end.

Inductive RsvgCoordUnits : Type := userSpaceOnUse | objectBoundingBox.

Inductive RsvgEnableBackgroundType : Type :=
| RSVG_ENABLE_BACKGROUND_ACCUMULATE
| RSVG_ENABLE_BACKGROUND_NEW.

(** [cairo_operator_t] is an enumeration of the cairo library. *)
Definition cairo_operator_t : Type := Z.
Definition CAIRO_OPERATOR_OVER : cairo_operator_t := 2.

Inductive cairo_status_t : Type :=
| CAIRO_STATUS_SUCCESS
| CAIRO_STATUS_NO_MEMORY
| CAIRO_STATUS_INVALID_SIZE.

Inductive cairo_format_t : Type := CAIRO_FORMAT_ARGB32 | CAIRO_FORMAT_RGB24.

(** Modelled from the spec: the part of an element's computed style state
    that the layer engine reads (the [rsvg_state_get_*] accessors). *)
Record RsvgState : Type := {
  st_affine : cairo_matrix_t;
  st_clip_path : option string;
  st_filter : option string;
  st_mask : option string;
  st_opacity : Z;
  st_comp_op : cairo_operator_t;
  st_enable_background : RsvgEnableBackgroundType
}.

(** ** The drawing context

    The fields of [RsvgDrawingCtx] that the modelled functions use. *)
Record RsvgDrawingCtx : Type := {
  cr : cairo_t;
  initial_cr : cairo_t;
  cr_stack : list cairo_t;
  surfaces_stack : list cairo_surface_t;
  state : StatePtr;
  defs : RsvgDefs;
  offset_x : double;
  offset_y : double;
  width : double;
  height : double;
  vb : RsvgViewBox;
  vb_stack : list RsvgViewBox;
  bbox : RsvgBbox;
  ink_bbox : RsvgBbox;
  bb_stack : list RsvgBbox;
  ink_bb_stack : list RsvgBbox;
  acquired_nodes : list RsvgNode
}.

(** What the functions of this file and the code they call share: the
    context, the style states reached through pointers (the current state
    and each node's own), and the pixels of the image surfaces. *)
Record Store : Type := {
  ctx : RsvgDrawingCtx;
  states : StatePtr -> RsvgState;
  pixels : cairo_surface_t -> list (list Z)
}.

(** The calls this file makes, most recent first. *)
Inductive event : Type :=
| Ev_cairo_image_surface_create (f : cairo_format_t) (w h : Z) (s : cairo_surface_t)
| Ev_cairo_surface_create_similar (other : cairo_surface_t) (w h : Z) (s : cairo_surface_t)
| Ev_cairo_surface_destroy (s : cairo_surface_t)
| Ev_cairo_create (s : cairo_surface_t) (c : cairo_t)
| Ev_cairo_destroy (c : cairo_t)
| Ev_cairo_save (c : cairo_t)
| Ev_cairo_restore (c : cairo_t)
| Ev_cairo_identity_matrix (c : cairo_t)
| Ev_cairo_set_source_surface (c : cairo_t) (s : cairo_surface_t) (x y : double)
| Ev_cairo_set_operator (c : cairo_t) (op : cairo_operator_t)
| Ev_cairo_paint (c : cairo_t)
(** the alpha passed is [opacity / 255.0] *)
| Ev_cairo_paint_with_alpha (c : cairo_t) (opacity : Z)
| Ev_cairo_mask_surface (c : cairo_t) (s : cairo_surface_t) (x y : double)
| Ev_cairo_clip (c : cairo_t)
| Ev_state_push
| Ev_state_pop
| Ev_draw_children (node : RsvgNode) (dominate : Z) (clipping : bool)
| Ev_add_clipping_rect
| Ev_filter_render (node : RsvgNode) (output : cairo_surface_t)
(** a critical warning of GLib, from [g_return_if_fail] *)
| Ev_g_critical (check : string).

Record World : Type := {
  store : Store;
  log : list event;
  (** the next unused handle for a surface or a cairo context *)
  next_handle : nat
}.

(** How a call ends: it returns, or [g_assert] aborts the process, or a
    null pointer is dereferenced. *)
Inductive outcome (A : Type) : Type :=
| Returned (a : A)
| Aborted
| Undefined.

End Types.

Arguments Returned {A} a.
Arguments Aborted {A}.
Arguments Undefined {A}.

(** ** The code this file calls

    Functions of librsvg and cairo that the modelled code calls and whose
    bodies are elsewhere (the Rust internals, the node and state modules,
    the filter engine, cairo itself).  Those that draw or touch the style
    state get the whole [Store] and may end in any [outcome]. *)
Class Externals {D : DoubleOps} : Type := {
  rsvg_defs_lookup : RsvgDefs -> string -> option RsvgNode;
  rsvg_node_get_type : RsvgNode -> RsvgNodeType;
  rsvg_node_get_state : RsvgNode -> StatePtr;
  rsvg_node_clip_path_get_units : RsvgNode -> RsvgCoordUnits;
  rsvg_node_mask_get_units : RsvgNode -> RsvgCoordUnits;
  rsvg_node_mask_get_content_units : RsvgNode -> RsvgCoordUnits;
  RsvgLength : Type;
  rsvg_node_mask_get_x : RsvgNode -> RsvgLength;
  rsvg_node_mask_get_y : RsvgNode -> RsvgLength;
  rsvg_node_mask_get_width : RsvgNode -> RsvgLength;
  rsvg_node_mask_get_height : RsvgNode -> RsvgLength;
  rsvg_length_normalize : RsvgLength -> Store -> double;
  (** [cairo_matrix_multiply (&result, a, b)] *)
  cairo_matrix_multiply : cairo_matrix_t -> cairo_matrix_t -> cairo_matrix_t;
  (** [rsvg_bbox_init (bbox, affine)], the box after the call *)
  rsvg_bbox_init : RsvgBbox -> cairo_matrix_t -> RsvgBbox;
  (** [rsvg_bbox_insert (dst, src)], [dst] after the call *)
  rsvg_bbox_insert : RsvgBbox -> RsvgBbox -> RsvgBbox;
  cairo_surface_status : cairo_surface_t -> cairo_status_t;
  rsvg_drawing_ctx_state_push : Store -> outcome Store;
  rsvg_drawing_ctx_state_pop : Store -> outcome Store;
  rsvg_node_draw_children : RsvgNode -> Z -> bool -> Store -> outcome Store;
  rsvg_cairo_add_clipping_rect :
    cairo_matrix_t -> double -> double -> double -> double -> Store -> outcome Store;
  rsvg_filter_render :
    RsvgNode -> cairo_surface_t -> Store -> outcome (cairo_surface_t * Store)
}.

(** ** Record updates *)

Section Updates.
Context {D : DoubleOps}.

Definition set_cr (v : cairo_t) (c : RsvgDrawingCtx) : RsvgDrawingCtx :=
  {| cr := v; initial_cr := initial_cr c; cr_stack := cr_stack c;
     surfaces_stack := surfaces_stack c; state := state c; defs := defs c;
     offset_x := offset_x c; offset_y := offset_y c; width := width c;
     height := height c; vb := vb c; vb_stack := vb_stack c; bbox := bbox c;
     ink_bbox := ink_bbox c; bb_stack := bb_stack c;
     ink_bb_stack := ink_bb_stack c; acquired_nodes := acquired_nodes c |}.

Definition set_cr_stack (v : list cairo_t) (c : RsvgDrawingCtx) : RsvgDrawingCtx :=
  {| cr := cr c; initial_cr := initial_cr c; cr_stack := v;
     surfaces_stack := surfaces_stack c; state := state c; defs := defs c;
     offset_x := offset_x c; offset_y := offset_y c; width := width c;
     height := height c; vb := vb c; vb_stack := vb_stack c; bbox := bbox c;
     ink_bbox := ink_bbox c; bb_stack := bb_stack c;
     ink_bb_stack := ink_bb_stack c; acquired_nodes := acquired_nodes c |}.

Definition set_surfaces_stack (v : list cairo_surface_t) (c : RsvgDrawingCtx)
  : RsvgDrawingCtx :=
  {| cr := cr c; initial_cr := initial_cr c; cr_stack := cr_stack c;
     surfaces_stack := v; state := state c; defs := defs c;
     offset_x := offset_x c; offset_y := offset_y c; width := width c;
     height := height c; vb := vb c; vb_stack := vb_stack c; bbox := bbox c;
     ink_bbox := ink_bbox c; bb_stack := bb_stack c;
     ink_bb_stack := ink_bb_stack c; acquired_nodes := acquired_nodes c |}.

Definition set_vb (v : RsvgViewBox) (vs : list RsvgViewBox) (c : RsvgDrawingCtx)
  : RsvgDrawingCtx :=
  {| cr := cr c; initial_cr := initial_cr c; cr_stack := cr_stack c;
     surfaces_stack := surfaces_stack c; state := state c; defs := defs c;
     offset_x := offset_x c; offset_y := offset_y c; width := width c;
     height := height c; vb := v; vb_stack := vs; bbox := bbox c;
     ink_bbox := ink_bbox c; bb_stack := bb_stack c;
     ink_bb_stack := ink_bb_stack c; acquired_nodes := acquired_nodes c |}.

Definition set_bboxes (b ib : RsvgBbox) (c : RsvgDrawingCtx) : RsvgDrawingCtx :=
  {| cr := cr c; initial_cr := initial_cr c; cr_stack := cr_stack c;
     surfaces_stack := surfaces_stack c; state := state c; defs := defs c;
     offset_x := offset_x c; offset_y := offset_y c; width := width c;
     height := height c; vb := vb c; vb_stack := vb_stack c; bbox := b;
     ink_bbox := ib; bb_stack := bb_stack c;
     ink_bb_stack := ink_bb_stack c; acquired_nodes := acquired_nodes c |}.

Definition set_bb_stacks (bs ibs : list RsvgBbox) (c : RsvgDrawingCtx)
  : RsvgDrawingCtx :=
  {| cr := cr c; initial_cr := initial_cr c; cr_stack := cr_stack c;
     surfaces_stack := surfaces_stack c; state := state c; defs := defs c;
     offset_x := offset_x c; offset_y := offset_y c; width := width c;
     height := height c; vb := vb c; vb_stack := vb_stack c; bbox := bbox c;
     ink_bbox := ink_bbox c; bb_stack := bs;
     ink_bb_stack := ibs; acquired_nodes := acquired_nodes c |}.

Definition set_acquired_nodes (v : list RsvgNode) (c : RsvgDrawingCtx)
  : RsvgDrawingCtx :=
  {| cr := cr c; initial_cr := initial_cr c; cr_stack := cr_stack c;
     surfaces_stack := surfaces_stack c; state := state c; defs := defs c;
     offset_x := offset_x c; offset_y := offset_y c; width := width c;
     height := height c; vb := vb c; vb_stack := vb_stack c; bbox := bbox c;
     ink_bbox := ink_bbox c; bb_stack := bb_stack c;
     ink_bb_stack := ink_bb_stack c; acquired_nodes := v |}.

Definition set_ctx (c : RsvgDrawingCtx) (s : Store) : Store :=
  {| ctx := c; states := states s; pixels := pixels s |}.

Definition set_state_affine (m : cairo_matrix_t) (st : RsvgState) : RsvgState :=
  {| st_affine := m; st_clip_path := st_clip_path st; st_filter := st_filter st;
     st_mask := st_mask st; st_opacity := st_opacity st;
     st_comp_op := st_comp_op st;
     st_enable_background := st_enable_background st |}.

(** [rsvg_state_set_affine (state, m)] writes through the pointer. *)
Definition rsvg_state_set_affine (p : StatePtr) (m : cairo_matrix_t) (s : Store) : Store :=
  {| ctx := ctx s;
     states := fun q => if Pos.eqb q p then set_state_affine m (states s p) else states s q;
     pixels := pixels s |}.

Definition set_pixels (surface : cairo_surface_t) (data : list (list Z)) (s : Store)
  : Store :=
  {| ctx := ctx s; states := states s;
     pixels := fun q => if Nat.eqb q surface then data else pixels s q |}.

Definition set_store (s : Store) (w : World) : World :=
  {| store := s; log := log w; next_handle := next_handle w |}.

End Updates.

(** ** GLib lists *)

Fixpoint g_slist_find (l : list positive) (data : positive) : bool :=
  match l with
  | [] => false
  | x :: l' => if Pos.eqb x data then true else g_slist_find l' data
  end.

Definition g_slist_prepend {A : Type} (l : list A) (data : A) : list A := data :: l.

(** Removes the first element holding [data], if there is one. *)
Fixpoint g_slist_remove (l : list positive) (data : positive) : list positive :=
  match l with
  | [] => []
  | x :: l' => if Pos.eqb x data then l' else x :: g_slist_remove l' data
  end.

(** ** Sequencing

    A C function of this file is a function from the [World] before the
    call to its result and the [World] after it, or to the way it failed. *)

Section Monad.
Context {D : DoubleOps}.

Definition M (A : Type) : Type := World -> outcome (A * World).

Definition ret {A : Type} (a : A) : M A := fun w => Returned (a, w).

Definition bind {A B : Type} (m : M A) (k : A -> M B) : M B :=
  fun w =>
    match m w with
    | Returned (a, w') => k a w'
    | Aborted => Aborted
    | Undefined => Undefined
    end.

Definition abort {A : Type} : M A := fun _ => Aborted.
Definition undefined {A : Type} : M A := fun _ => Undefined.

Definition get_store : M Store := fun w => Returned (store w, w).
Definition get_ctx : M RsvgDrawingCtx := fun w => Returned (ctx (store w), w).

Definition modify_store (f : Store -> Store) : M unit :=
  fun w => Returned (tt, set_store (f (store w)) w).

Definition modify_ctx (f : RsvgDrawingCtx -> RsvgDrawingCtx) : M unit :=
  modify_store (fun s => set_ctx (f (ctx s)) s).

Definition emit (e : event) : M unit :=
  fun w => Returned (tt, {| store := store w; log := e :: log w;
                            next_handle := next_handle w |}).

Definition fresh_handle : M nat :=
  fun w => Returned (next_handle w,
                     {| store := store w; log := log w;
                        next_handle := S (next_handle w) |}).

(** A call into code outside this file, recorded as [e]. *)
Definition call_out (e : event) (f : Store -> outcome Store) : M unit :=
  fun w =>
    match f (store w) with
    | Returned s => Returned (tt, {| store := s; log := e :: log w;
                                     next_handle := next_handle w |})
    | Aborted => Aborted
    | Undefined => Undefined
    end.

(** The same for a call that gives a value. *)
Definition call_out_with {A : Type} (e : event) (f : Store -> outcome (A * Store)) : M A :=
  fun w =>
    match f (store w) with
    | Returned (a, s) => Returned (a, {| store := s; log := e :: log w;
                                         next_handle := next_handle w |})
    | Aborted => Aborted
    | Undefined => Undefined
    end.

Definition g_assert (b : bool) : M unit := if b then ret tt else abort.

Definition when (b : bool) (m : M unit) : M unit := if b then m else ret tt.

End Monad.

Declare Scope code_scope.
Delimit Scope code_scope with code.
Notation "x <- m ;; k" := (bind m (fun x => k))
  (at level 100, m at next level, right associativity) : code_scope.
Notation "m ;;; k" := (bind m (fun _ => k))
  (at level 100, right associativity) : code_scope.
Local Open Scope code_scope.

(** ** The functions of [rsvg-cairo-draw.c] *)

Section Code.
Context {D : DoubleOps} {E : Externals}.

Definition units_is_obb (u : RsvgCoordUnits) : bool :=
  match u with objectBoundingBox => true | userSpaceOnUse => false end.

Definition status_is_success (s : cairo_status_t) : bool :=
  match s with CAIRO_STATUS_SUCCESS => true | _ => false end.

Definition eb_is_accumulate (e : RsvgEnableBackgroundType) : bool :=
  match e with RSVG_ENABLE_BACKGROUND_ACCUMULATE => true | _ => false end.

Definition is_set {A : Type} (p : option A) : bool :=
  match p with Some _ => true | None => false end.

(** *** Cairo calls *)

(** A fresh image surface; cairo clears the pixels of one it could
    allocate. *)
Definition cairo_image_surface_create (f : cairo_format_t) (w h : Z)
  : M cairo_surface_t :=
  s <- fresh_handle ;;
  emit (Ev_cairo_image_surface_create f w h s) ;;;
  when (status_is_success (cairo_surface_status s))
       (modify_store (set_pixels s (replicate (Z.to_nat h) (replicate (Z.to_nat w) 0)))) ;;;
  ret s.

Definition cairo_surface_create_similar (other : cairo_surface_t) (w h : Z)
  : M cairo_surface_t :=
  s <- fresh_handle ;;
  emit (Ev_cairo_surface_create_similar other w h s) ;;;
  ret s.

Definition cairo_create (s : cairo_surface_t) : M cairo_t :=
  h <- fresh_handle ;;
  let c := {| cr_handle := h; cr_target := s |} in
  emit (Ev_cairo_create s c) ;;;
  ret c.

(** *** Accessors of the context *)

Definition rsvg_drawing_ctx_get_current_state : M StatePtr :=
  c <- get_ctx ;; ret (state c).

Definition read_state (p : StatePtr) : M RsvgState :=
  s <- get_store ;; ret (states s p).

(** With both pointers given: the pair [( *x, *y )] after the call. *)
Definition rsvg_drawing_ctx_get_offset : M (double * double) :=
  c <- get_ctx ;; ret (offset_x c, offset_y c).

Definition rsvg_drawing_ctx_push_view_box (w h : double) : M unit :=
  modify_ctx (fun c =>
    set_vb {| vb_rect := {| rect_x := rect_x (vb_rect (vb c));
                            rect_y := rect_y (vb_rect (vb c));
                            rect_width := w; rect_height := h |};
              vb_active := vb_active (vb c) |}
           (g_slist_prepend (vb_stack c) (vb c)) c).

Definition rsvg_drawing_ctx_pop_view_box : M unit :=
  c <- get_ctx ;;
  match vb_stack c with
  | [] => undefined
  | v :: rest => modify_ctx (set_vb v rest)
  end.

(** *** Acquiring and releasing nodes *)

Definition rsvg_drawing_ctx_acquire_node (url : option string) : M (option RsvgNode) :=
  match url with
  | None => ret None
  | Some u =>
      c <- get_ctx ;;
      match rsvg_defs_lookup (defs c) u with
      | None => ret None
      | Some node =>
          if g_slist_find (acquired_nodes c) node then ret None
          else
            modify_ctx (set_acquired_nodes (g_slist_prepend (acquired_nodes c) node)) ;;;
            ret (Some node)
      end
  end.

(** [g_return_if_fail] logs a critical warning and returns. *)
Definition rsvg_drawing_ctx_release_node (node : option RsvgNode) : M unit :=
  match node with
  | None => ret tt
  | Some n =>
      c <- get_ctx ;;
      match acquired_nodes c with
      | [] => emit (Ev_g_critical "ctx->acquired_nodes != NULL")
      | data :: _ =>
          if Pos.eqb data n then
            modify_ctx (set_acquired_nodes (g_slist_remove (acquired_nodes c) n))
          else emit (Ev_g_critical "ctx->acquired_nodes->data == node")
      end
  end.

Definition rsvg_drawing_ctx_acquire_node_of_type (url : option string)
    (type : RsvgNodeType) : M (option RsvgNode) :=
  node <- rsvg_drawing_ctx_acquire_node url ;;
  match node with
  | None => rsvg_drawing_ctx_release_node node ;;; ret None
  | Some n =>
      if negb (node_type_eqb (rsvg_node_get_type n) type) then
        rsvg_drawing_ctx_release_node node ;;; ret None
      else ret (Some n)
  end.

(** *** [rsvg_cairo_generate_mask] *)

(** [for (i = 0; i < width; i++)] over one row of the mask surface. *)
Definition luminance_row (width : nat) (opacity : Z) (row_data : list Z) : list Z :=
  foldl (fun data i => alter (fun pixel => luminance_pixel pixel opacity) i data)
        row_data (seq 0 width).

(** [for (row = 0; row < height; row++)] *)
Definition luminance_rows (height width : nat) (opacity : Z) (data : list (list Z))
  : list (list Z) :=
  foldl (fun d row => alter (luminance_row width opacity) row d) data (seq 0 height).

(** The bounding box as a transform, multiplied into the affine of the
    state at [p]; returns the affine that was there. *)
Definition premultiply_bbox (b : RsvgBbox) (p : StatePtr) : M cairo_matrix_t :=
  let bbtransform :=
    cairo_matrix_init (rect_width (rect b)) d_zero d_zero (rect_height (rect b))
                      (rect_x (rect b)) (rect_y (rect b)) in
  st <- read_state p ;;
  let affinesave := st_affine st in
  modify_store (rsvg_state_set_affine p (cairo_matrix_multiply bbtransform affinesave)) ;;;
  ret affinesave.

Definition rsvg_cairo_generate_mask (cr_arg : cairo_t) (mask : RsvgNode) : M unit :=
  c0 <- get_ctx ;;
  let width32 := wrap32 (d_to_int (width c0)) in
  let height32 := wrap32 (d_to_int (height c0)) in
  g_assert (node_type_eqb (rsvg_node_get_type mask) RSVG_NODE_TYPE_MASK) ;;;
  surface <- cairo_image_surface_create CAIRO_FORMAT_ARGB32 width32 height32 ;;
  if negb (status_is_success (cairo_surface_status surface)) then
    emit (Ev_cairo_surface_destroy surface)
  else
    let mask_units := rsvg_node_mask_get_units mask in
    let content_units := rsvg_node_mask_get_content_units mask in
    when (units_is_obb mask_units) (rsvg_drawing_ctx_push_view_box d_one d_one) ;;;
    s1 <- get_store ;;
    let sx := rsvg_length_normalize (rsvg_node_mask_get_x mask) s1 in
    let sy := rsvg_length_normalize (rsvg_node_mask_get_y mask) s1 in
    let sw := rsvg_length_normalize (rsvg_node_mask_get_width mask) s1 in
    let sh := rsvg_length_normalize (rsvg_node_mask_get_height mask) s1 in
    when (units_is_obb mask_units) rsvg_drawing_ctx_pop_view_box ;;;
    mask_cr <- cairo_create surface ;;
    c1 <- get_ctx ;;
    let save_cr := cr c1 in
    modify_ctx (set_cr mask_cr) ;;;
    state_ptr <- rsvg_drawing_ctx_get_current_state ;;
    st <- read_state state_ptr ;;
    let aff := st_affine st in
    (if units_is_obb mask_units then
       call_out Ev_add_clipping_rect
         (rsvg_cairo_add_clipping_rect aff
            (d_add (d_mul sx (rect_width (rect (bbox c1)))) (rect_x (rect (bbox c1))))
            (d_add (d_mul sy (rect_height (rect (bbox c1)))) (rect_y (rect (bbox c1))))
            (d_mul sw (rect_width (rect (bbox c1))))
            (d_mul sh (rect_height (rect (bbox c1)))))
     else
       call_out Ev_add_clipping_rect (rsvg_cairo_add_clipping_rect aff sx sy sw sh)) ;;;
    affinesave <-
      (if units_is_obb content_units then
         c <- get_ctx ;;
         saved <- premultiply_bbox (bbox c) (rsvg_node_get_state mask) ;;
         rsvg_drawing_ctx_push_view_box d_one d_one ;;;
         ret (Some saved)
       else ret None) ;;
    call_out Ev_state_push rsvg_drawing_ctx_state_push ;;;
    call_out (Ev_draw_children mask 0 false) (rsvg_node_draw_children mask 0 false) ;;;
    call_out Ev_state_pop rsvg_drawing_ctx_state_pop ;;;
    match affinesave with
    | Some saved =>
        rsvg_drawing_ctx_pop_view_box ;;;
        modify_store (rsvg_state_set_affine (rsvg_node_get_state mask) saved)
    | None => ret tt
    end ;;;
    modify_ctx (set_cr save_cr) ;;;
    st' <- read_state state_ptr ;;
    let opacity := st_opacity st' in
    modify_store (fun s =>
      set_pixels surface
        (luminance_rows (Z.to_nat height32) (Z.to_nat width32) opacity (pixels s surface))
        s) ;;;
    emit (Ev_cairo_destroy mask_cr) ;;;
    c2 <- get_ctx ;;
    offset <-
      (if cr_eqb cr_arg (initial_cr c2) then rsvg_drawing_ctx_get_offset
       else ret (d_zero, d_zero)) ;;
    emit (Ev_cairo_identity_matrix cr_arg) ;;;
    emit (Ev_cairo_mask_surface cr_arg surface (fst offset) (snd offset)) ;;;
    emit (Ev_cairo_surface_destroy surface).

(** *** [rsvg_cairo_clip] *)

Fixpoint cr_list_eqb (a b : list cairo_t) : bool :=
  match a, b with
  | [], [] => true
  | x :: a', y :: b' => cr_eqb x y && cr_list_eqb a' b'
  | _, _ => false
  end.

Fixpoint surface_list_eqb (a b : list cairo_surface_t) : bool :=
  match a, b with
  | [] , [] => true
  | x :: a', y :: b' => Nat.eqb x y && surface_list_eqb a' b'
  | _, _ => false
  end.

(** [bbox_arg] is the [RsvgBbox *] argument, [None] for [NULL].  The two
    assertions compare list heads; here the stacks are compared. *)
Definition rsvg_cairo_clip (node_clip_path : RsvgNode) (bbox_arg : option RsvgBbox)
  : M unit :=
  g_assert (node_type_eqb (rsvg_node_get_type node_clip_path) RSVG_NODE_TYPE_CLIP_PATH) ;;;
  let clip_units := rsvg_node_clip_path_get_units node_clip_path in
  let clip_path_state := rsvg_node_get_state node_clip_path in
  affinesave <-
    (if units_is_obb clip_units then
       match bbox_arg with
       | None => undefined
       | Some b => saved <- premultiply_bbox b clip_path_state ;; ret (Some saved)
       end
     else ret None) ;;
  c <- get_ctx ;;
  let orig_cr_stack := cr_stack c in
  let orig_surfaces_stack := surfaces_stack c in
  let orig_bbox := bbox c in
  let orig_ink_bbox := ink_bbox c in
  call_out Ev_state_push rsvg_drawing_ctx_state_push ;;;
  call_out (Ev_draw_children node_clip_path 0 true)
           (rsvg_node_draw_children node_clip_path 0 true) ;;;
  call_out Ev_state_pop rsvg_drawing_ctx_state_pop ;;;
  match affinesave with
  | Some saved => modify_store (rsvg_state_set_affine clip_path_state saved)
  | None => ret tt
  end ;;;
  c' <- get_ctx ;;
  g_assert (cr_list_eqb (cr_stack c') orig_cr_stack) ;;;
  g_assert (surface_list_eqb (surfaces_stack c') orig_surfaces_stack) ;;;
  modify_ctx (set_bboxes orig_bbox orig_ink_bbox) ;;;
  c'' <- get_ctx ;;
  emit (Ev_cairo_clip (cr c'')).

(** *** The bounding-box stack *)

Definition push_bounding_box : M unit :=
  state_ptr <- rsvg_drawing_ctx_get_current_state ;;
  modify_ctx (fun c =>
    set_bb_stacks (g_slist_prepend (bb_stack c) (bbox c))
                  (g_slist_prepend (ink_bb_stack c) (ink_bbox c)) c) ;;;
  st <- read_state state_ptr ;;
  let aff := st_affine st in
  modify_ctx (fun c =>
    set_bboxes (rsvg_bbox_init (bbox c) aff) (rsvg_bbox_init (ink_bbox c) aff) c).

Definition pop_bounding_box : M unit :=
  c <- get_ctx ;;
  match bb_stack c, ink_bb_stack c with
  | b :: bs, ib :: ibs =>
      modify_ctx (fun c =>
        set_bb_stacks bs ibs
          (set_bboxes (rsvg_bbox_insert b (bbox c)) (rsvg_bbox_insert ib (ink_bbox c)) c))
  | _, _ => undefined
  end.

(** *** Entering and leaving a discrete layer *)

(** The block [if (clip_path) { ... }] of [rsvg_cairo_push_render_stack]:
    a clip path in user space is applied at once, one in
    [objectBoundingBox] units is left for the exit; the value is
    [lateclip]. *)
Definition push_render_stack_clip_path (clip_path : option string) : M bool :=
  if is_set clip_path then
    node <- rsvg_drawing_ctx_acquire_node_of_type clip_path RSVG_NODE_TYPE_CLIP_PATH ;;
    match node with
    | Some n =>
        late <-
          match rsvg_node_clip_path_get_units n with
          | userSpaceOnUse => rsvg_cairo_clip n None ;;; ret false
          | objectBoundingBox => ret true
          end ;;
        rsvg_drawing_ctx_release_node node ;;;
        ret late
    | None => ret false
    end
  else ret false.

Definition rsvg_cairo_push_render_stack : M unit :=
  state_ptr <- rsvg_drawing_ctx_get_current_state ;;
  st <- read_state state_ptr ;;
  let clip_path := st_clip_path st in
  let filter := st_filter st in
  let mask := st_mask st in
  let opacity := st_opacity st in
  let comp_op := st_comp_op st in
  let enable_background := st_enable_background st in
  lateclip <- push_render_stack_clip_path clip_path ;;
  if (opacity =? 0xFF) && negb (is_set filter) && negb (is_set mask) && negb lateclip
     && (comp_op =? CAIRO_OPERATOR_OVER) && eb_is_accumulate enable_background
  then ret tt
  else
    c <- get_ctx ;;
    surface <-
      (if negb (is_set filter) then
         cairo_surface_create_similar (cairo_get_target (cr c))
                                      (d_to_int (width c)) (d_to_int (height c))
       else
         s <- cairo_image_surface_create CAIRO_FORMAT_ARGB32
                                         (d_to_int (width c)) (d_to_int (height c)) ;;
         modify_ctx (fun c => set_surfaces_stack (g_slist_prepend (surfaces_stack c) s) c) ;;;
         ret s) ;;
    (* the check of cairo_surface_status is compiled out here *)
    child_cr <- cairo_create surface ;;
    emit (Ev_cairo_surface_destroy surface) ;;;
    modify_ctx (fun c => set_cr child_cr (set_cr_stack (g_slist_prepend (cr_stack c) (cr c)) c)) ;;;
    push_bounding_box.

Definition rsvg_cairo_push_discrete_layer (clipping : bool) : M unit :=
  if negb clipping then
    c <- get_ctx ;;
    emit (Ev_cairo_save (cr c)) ;;;
    rsvg_cairo_push_render_stack
  else ret tt.

(** The block [if (clip_path) { ... }] of [rsvg_cairo_pop_render_stack]:
    the value is [lateclip], the clip-path node still acquired when its
    units are [objectBoundingBox]. *)
Definition pop_render_stack_clip_path (clip_path : option string)
  : M (option RsvgNode) :=
  if is_set clip_path then
    node <- rsvg_drawing_ctx_acquire_node_of_type clip_path RSVG_NODE_TYPE_CLIP_PATH ;;
    match node with
    | Some n =>
        if units_is_obb (rsvg_node_clip_path_get_units n) then ret (Some n)
        else rsvg_drawing_ctx_release_node node ;;; ret None
    | None => ret None
    end
  else ret None.

(** The block [if (filter) { ... }]: the values are [surface] and
    [needs_destroy]. *)
Definition pop_render_stack_filter (filter : option string) (surface0 : cairo_surface_t)
  : M (cairo_surface_t * bool) :=
  if is_set filter then
    c <- get_ctx ;;
    match surfaces_stack c with
    | [] => undefined
    | output :: rest =>
        modify_ctx (set_surfaces_stack rest) ;;;
        node <- rsvg_drawing_ctx_acquire_node_of_type filter RSVG_NODE_TYPE_FILTER ;;
        match node with
        | Some n =>
            rendered <- call_out_with (Ev_filter_render n output)
                                      (rsvg_filter_render n output) ;;
            rsvg_drawing_ctx_release_node node ;;;
            ret (rendered, true)
        | None => ret (surface0, false)
        end
    end
  else ret (surface0, false).

(** The block [if (mask) { ... } else if (opacity != 0xFF) ... else ...]
    that puts the layer onto the restored target. *)
Definition pop_render_stack_composite (mask : option string) (opacity : Z) : M unit :=
  if is_set mask then
    node <- rsvg_drawing_ctx_acquire_node_of_type mask RSVG_NODE_TYPE_MASK ;;
    match node with
    | Some n =>
        c <- get_ctx ;;
        rsvg_cairo_generate_mask (cr c) n ;;;
        rsvg_drawing_ctx_release_node node
    | None => ret tt
    end
  else if negb (opacity =? 0xFF) then
    c <- get_ctx ;; emit (Ev_cairo_paint_with_alpha (cr c) opacity)
  else
    c <- get_ctx ;; emit (Ev_cairo_paint (cr c)).

Definition rsvg_cairo_pop_render_stack : M unit :=
  c0 <- get_ctx ;;
  let child_cr := cr c0 in
  state_ptr <- rsvg_drawing_ctx_get_current_state ;;
  st <- read_state state_ptr ;;
  let clip_path := st_clip_path st in
  let filter := st_filter st in
  let mask := st_mask st in
  let opacity := st_opacity st in
  let comp_op := st_comp_op st in
  let enable_background := st_enable_background st in
  lateclip <- pop_render_stack_clip_path clip_path ;;
  if (opacity =? 0xFF) && negb (is_set filter) && negb (is_set mask)
     && negb (is_set lateclip)
     && (comp_op =? CAIRO_OPERATOR_OVER) && eb_is_accumulate enable_background
  then ret tt
  else
    let surface0 := cairo_get_target child_cr in
    filtered <- pop_render_stack_filter filter surface0 ;;
    let surface := fst filtered in
    let needs_destroy := snd filtered in
    c1 <- get_ctx ;;
    match cr_stack c1 with
    | [] => undefined
    | top :: rest => modify_ctx (fun c => set_cr_stack rest (set_cr top c))
    end ;;;
    c2 <- get_ctx ;;
    offset <-
      (if cr_eqb (cr c2) (initial_cr c2) then rsvg_drawing_ctx_get_offset
       else ret (d_zero, d_zero)) ;;
    emit (Ev_cairo_identity_matrix (cr c2)) ;;;
    emit (Ev_cairo_set_source_surface (cr c2) surface (fst offset) (snd offset)) ;;;
    match lateclip with
    | Some n =>
        c <- get_ctx ;;
        rsvg_cairo_clip n (Some (bbox c)) ;;;
        rsvg_drawing_ctx_release_node lateclip
    | None => ret tt
    end ;;;
    c3 <- get_ctx ;;
    emit (Ev_cairo_set_operator (cr c3) comp_op) ;;;
    pop_render_stack_composite mask opacity ;;;
    emit (Ev_cairo_destroy child_cr) ;;;
    pop_bounding_box ;;;
    when needs_destroy (emit (Ev_cairo_surface_destroy surface)).

Definition rsvg_cairo_pop_discrete_layer (clipping : bool) : M unit :=
  if negb clipping then
    rsvg_cairo_pop_render_stack ;;;
    c <- get_ctx ;;
    emit (Ev_cairo_restore (cr c))
  else ret tt.

End Code.

(** * Vocabulary of the properties *)

(** ** Pixels *)

(** What [convert_alpha] stores for a colour byte [c] under [alpha]. *)
Definition unpremultiply (c alpha : Z) : Z := to_guchar ((c * 255 + alpha / 2) / alpha).

(** One colour byte through [MULT] and back through [convert_alpha]. *)
Definition channel_round_trip (c a : Z) : Z :=
  if a =? 0 then 0 else unpremultiply (MULT c a) a.

Definition bytes : list Z := Z.of_nat <$> seq 0 256.

(** What one colour byte keeps of its value, decided for a pair of bytes. *)
Definition channel_check (c a : Z) : bool :=
  let c' := channel_round_trip c a in
  (if a =? 255 then c' =? c else true)
  && (if a =? 0 then c' =? 0 else 2 * a * Z.abs (c' - c) <=? 255 + a)
  && (if 85 <=? a then Z.abs (c' - c) <=? 1 else true).

(** ** The drawing context *)

Section Vocabulary.
Context {D : DoubleOps} {E : Externals}.

(** The style state the context points to. *)
Definition current_state (w : World) : RsvgState :=
  states (store w) (state (ctx (store w))).

(** The world in which the context holds [a] as its acquired nodes. *)
Definition with_acquired (a : list RsvgNode) (w : World) : World :=
  set_store (set_ctx (set_acquired_nodes a (ctx (store w))) (store w)) w.

(** The node that acquiring [url] as a [type] gives in context [c]: none
    for no identifier, an unknown one, a node that is acquired already, or
    a node of another kind. *)
Definition acquirable (c : RsvgDrawingCtx) (url : option string) (type : RsvgNodeType)
  : option RsvgNode :=
  match url with
  | None => None
  | Some u =>
      match rsvg_defs_lookup (defs c) u with
      | None => None
      | Some n =>
          if g_slist_find (acquired_nodes c) n then None
          else if node_type_eqb (rsvg_node_get_type n) type then Some n
          else None
      end
  end.

(** A deferred clip: the clip-path reference of the current state resolves
    to a clip-path element in [objectBoundingBox] units. *)
Definition late_clip (w : World) : bool :=
  match acquirable (ctx (store w)) (st_clip_path (current_state w))
                   RSVG_NODE_TYPE_CLIP_PATH with
  | Some n => units_is_obb (rsvg_node_clip_path_get_units n)
  | None => false
  end.

(** Opacity 0xFF, no filter, no mask, no deferred clip, operator OVER and
    the accumulate mode of enable-background. *)
Definition fast_path_condition (w : World) : bool :=
  let st := current_state w in
  (st_opacity st =? 0xFF)
  && negb (is_set (st_filter st))
  && negb (is_set (st_mask st))
  && negb (late_clip w)
  && (st_comp_op st =? CAIRO_OPERATOR_OVER)
  && eb_is_accumulate (st_enable_background st).

Definition is_allocation (e : event) : bool :=
  match e with
  | Ev_cairo_image_surface_create _ _ _ _ => true
  | Ev_cairo_surface_create_similar _ _ _ _ => true
  | _ => false
  end.

Definition is_paint (e : event) : bool :=
  match e with
  | Ev_cairo_paint _ => true
  | Ev_cairo_paint_with_alpha _ _ => true
  | _ => false
  end.

(** The calls that put the source surface onto the target. *)
Definition is_composite (e : event) : bool :=
  match e with
  | Ev_cairo_paint _ => true
  | Ev_cairo_paint_with_alpha _ _ => true
  | Ev_cairo_mask_surface _ _ _ _ => true
  | _ => false
  end.

Fixpoint count (p : event -> bool) (l : list event) : nat :=
  match l with
  | [] => O
  | e :: l' => if p e then S (count p l') else count p l'
  end.

(** What a balanced drawing of other nodes leaves as it found it. *)
Record Frame : Type := {
  f_defs : RsvgDefs;
  f_acquired_nodes : list RsvgNode;
  f_cr_stack : list cairo_t;
  f_surfaces_stack : list cairo_surface_t;
  f_bb_stack : list RsvgBbox;
  f_ink_bb_stack : list RsvgBbox
}.

Definition frame (c : RsvgDrawingCtx) : Frame :=
  {| f_defs := defs c; f_acquired_nodes := acquired_nodes c;
     f_cr_stack := cr_stack c; f_surfaces_stack := surfaces_stack c;
     f_bb_stack := bb_stack c; f_ink_bb_stack := ink_bb_stack c |}.

Definition balanced (f : Store -> outcome Store) : Prop :=
  forall s s', f s = Returned s' -> frame (ctx s') = frame (ctx s).

(** The code called from here pushes and pops in pairs, and acquires and
    releases in pairs. *)
Definition externals_balanced : Prop :=
  balanced rsvg_drawing_ctx_state_push
  /\ balanced rsvg_drawing_ctx_state_pop
  /\ (forall n d c, balanced (rsvg_node_draw_children n d c))
  /\ (forall m x y w h, balanced (rsvg_cairo_add_clipping_rect m x y w h))
  /\ (forall n o s r s', rsvg_filter_render n o s = Returned (r, s') ->
                         frame (ctx s') = frame (ctx s)).

(** The three calls that draw the children of a node in a state of their
    own. *)
Definition draws_children (n : RsvgNode) (clipping : bool) (s s' : Store) : Prop :=
  exists s1 s2,
    rsvg_drawing_ctx_state_push s = Returned s1
    /\ rsvg_node_draw_children n 0 clipping s1 = Returned s2
    /\ rsvg_drawing_ctx_state_pop s2 = Returned s'.

(** [p] counts nothing but allocations and composites. *)
Definition counts_drawing (p : event -> bool) : Prop :=
  forall e, is_allocation e = false -> is_composite e = false -> p e = false.

(** Every returning run of [m] relates the world before to the world
    after by [R]. *)
Definition keeps (R : World -> World -> Prop) {A : Type} (m : M A) : Prop :=
  forall w a w', m w = Returned (a, w') -> R w w'.

(** As many calls counted by [p] after as before. *)
Definition same_count (p : event -> bool) (w w' : World) : Prop :=
  count p (log w') = count p (log w).

(** The same definitions and the same nodes under resolution. *)
Definition same_resolution (w w' : World) : Prop :=
  defs (ctx (store w')) = defs (ctx (store w))
  /\ acquired_nodes (ctx (store w')) = acquired_nodes (ctx (store w)).

(** What the exit of a layer keeps up to the point where it composites:
    the counts of allocations and composites, and, when the code called
    from here is balanced, the definitions and the nodes under
    resolution. *)
Definition steady (w w' : World) : Prop :=
  (forall p, counts_drawing p -> same_count p w w')
  /\ (externals_balanced -> same_resolution w w').

End Vocabulary.

(** ** A sample document

    Integers stand for [double]; five elements; drawing the children of a
    node inserts a box into both bounding boxes of the context. *)

Module Sample.

#[local] Instance doubles : DoubleOps :=
  {| double := Z; d_zero := 0; d_one := 1; d_add := Z.add; d_mul := Z.mul;
     d_to_int := fun z => z |}.

Definition identity_matrix : @cairo_matrix_t doubles :=
  {| xx := 1; yx := 0; xy := 0; yy := 1; x0 := 0; y0 := 0 |}.

Definition empty_box : @RsvgBbox doubles :=
  {| rect := {| rect_x := 0; rect_y := 0; rect_width := 0; rect_height := 0 |};
     affine := identity_matrix; virgin := true |}.

Definition drawn_box : @RsvgBbox doubles :=
  {| rect := {| rect_x := 1; rect_y := 2; rect_width := 3; rect_height := 4 |};
     affine := identity_matrix; virgin := false |}.

Definition lookup (d : RsvgDefs) (url : string) : option RsvgNode :=
  if String.eqb url "#clip" then Some 1%positive
  else if String.eqb url "#mask" then Some 2%positive
  else if String.eqb url "#bbclip" then Some 3%positive
  else if String.eqb url "#blur" then Some 4%positive
  else if String.eqb url "#rect" then Some 5%positive
  else None.

Definition type_of (n : RsvgNode) : RsvgNodeType :=
  match n with
  | 1%positive => RSVG_NODE_TYPE_CLIP_PATH
  | 2%positive => RSVG_NODE_TYPE_MASK
  | 3%positive => RSVG_NODE_TYPE_CLIP_PATH
  | 4%positive => RSVG_NODE_TYPE_FILTER
  | _ => RSVG_NODE_TYPE_OTHER 0
  end.

Definition clip_units (n : RsvgNode) : RsvgCoordUnits :=
  match n with
  | 3%positive => objectBoundingBox
  | _ => userSpaceOnUse
  end.

Definition draw_children (n : RsvgNode) (dominate : Z) (clipping : bool)
    (s : @Store doubles) : outcome (@Store doubles) :=
  Returned (set_ctx (set_bboxes drawn_box drawn_box (ctx s)) s).

(** The sample code around the drawing context; [status] tells which
    surfaces cairo could allocate. *)
Definition externals_with (status : cairo_surface_t -> cairo_status_t)
  : @Externals doubles :=
  {| rsvg_defs_lookup := lookup;
     rsvg_node_get_type := type_of;
     rsvg_node_get_state := fun n => Pos.add n 10;
     rsvg_node_clip_path_get_units := clip_units;
     rsvg_node_mask_get_units := fun _ => userSpaceOnUse;
     rsvg_node_mask_get_content_units := fun _ => userSpaceOnUse;
     RsvgLength := Z;
     rsvg_node_mask_get_x := fun _ => 0;
     rsvg_node_mask_get_y := fun _ => 0;
     rsvg_node_mask_get_width := fun _ => 1;
     rsvg_node_mask_get_height := fun _ => 1;
     rsvg_length_normalize := fun l _ => l;
     cairo_matrix_multiply := fun a _ => a;
     rsvg_bbox_init := fun b m => {| rect := rect b; affine := m; virgin := true |};
     rsvg_bbox_insert := fun dst src => if virgin src then dst else src;
     cairo_surface_status := status;
     rsvg_drawing_ctx_state_push := fun s => Returned s;
     rsvg_drawing_ctx_state_pop := fun s => Returned s;
     rsvg_node_draw_children := draw_children;
     rsvg_cairo_add_clipping_rect := fun _ _ _ _ _ s => Returned s;
     rsvg_filter_render := fun _ output s => Returned (output, s) |}.

Definition externals : @Externals doubles :=
  externals_with (fun _ => CAIRO_STATUS_SUCCESS).

Definition externals_no_memory : @Externals doubles :=
  externals_with (fun _ => CAIRO_STATUS_NO_MEMORY).

Definition style (clip filter mask : option string) (opacity : Z)
  : @RsvgState doubles :=
  {| st_affine := identity_matrix; st_clip_path := clip; st_filter := filter;
     st_mask := mask; st_opacity := opacity; st_comp_op := CAIRO_OPERATOR_OVER;
     st_enable_background := RSVG_ENABLE_BACKGROUND_ACCUMULATE |}.

Definition root_cr : cairo_t := {| cr_handle := 0%nat; cr_target := 0%nat |}.

(** A context at the root of a walk, with [acquired] under resolution and
    every state pointer leading to [st]. *)
Definition world (st : @RsvgState doubles) (acquired : list RsvgNode)
  : @World doubles :=
  {| store :=
       {| ctx :=
            {| cr := root_cr; initial_cr := root_cr; cr_stack := [];
               surfaces_stack := []; state := 1%positive; defs := 1%positive;
               offset_x := 0; offset_y := 0; width := 4; height := 3;
               vb := {| vb_rect := {| rect_x := 0; rect_y := 0;
                                      rect_width := 4; rect_height := 3 |};
                        vb_active := true |};
               vb_stack := []; bbox := empty_box; ink_bbox := empty_box;
               bb_stack := []; ink_bb_stack := []; acquired_nodes := acquired |};
          states := fun _ => st;
          pixels := fun _ => [] |};
     log := [];
     next_handle := 1%nat |}.

Definition plain : @RsvgState doubles := style None None None 255.

(** Half opaque, and nothing else. *)
Definition translucent : @RsvgState doubles := style None None None 128.

(** A mask reference that names an element that is no mask. *)
Definition masked : @RsvgState doubles := style None None (Some "#rect"%string) 255.

Definition world_after (r : outcome (unit * @World doubles)) (w0 : @World doubles)
  : @World doubles :=
  match r with
  | Returned (_, w) => w
  | _ => w0
  end.

(** The world after the entry of a layer in state [translucent]. *)
Definition translucent_entered : @World doubles :=
  Eval vm_compute in
    world_after (rsvg_cairo_push_render_stack (E := externals) (world translucent []))
                (world translucent []).

(** The same when cairo cannot allocate. *)
Definition translucent_entered_no_memory : @World doubles :=
  Eval vm_compute in
    world_after (rsvg_cairo_push_render_stack (E := externals_no_memory)
                   (world translucent []))
                (world translucent []).

(** The world after the entry of a layer in state [masked], and after its
    exit. *)
Definition masked_entered : @World doubles :=
  Eval vm_compute in
    world_after (rsvg_cairo_push_render_stack (E := externals) (world masked []))
                (world masked []).

Definition masked_left : @World doubles :=
  Eval vm_compute in
    world_after (rsvg_cairo_pop_render_stack (E := externals) masked_entered)
                masked_entered.

End Sample.

(** * More of the code

    The conversions of pixbufs without alpha, the drawing of a node from
    the stack of a subtree, and the paint servers and gradients of
    [rsvg-paint-server.c]. *)

(** ** The three-channel conversions *)

(** A pixel of a [GdkPixbuf] without alpha: [p[0]] red, [p[1]] green,
    [p[2]] blue. *)
Record pixbuf_rgb : Type := PixbufRgb {
  rgb_r : Z;
  rgb_g : Z;
  rgb_b : Z
}.

(** One step of the [while (p < end)] loop of the three-channel branch of
    [rsvg_cairo_surface_from_pixbuf]: three of the four bytes at [q] are
    written, the fourth keeps what it held. *)
Definition copy_rgb_pixel (bo : byte_order) (p : pixbuf_rgb) (q : cairo_bytes)
  : cairo_bytes :=
  match bo with
  | G_LITTLE_ENDIAN =>
      {| q0 := rgb_b p; q1 := rgb_g p; q2 := rgb_r p; q3 := q3 q |}
  | G_BIG_ENDIAN =>
      {| q0 := q0 q; q1 := rgb_r p; q2 := rgb_g p; q3 := rgb_b p |}
  end.

(** The row loop: [p] runs over the pixels of the pixbuf row, [q] over the
    surface row in step; a surface row that ends first is written past its
    end ([None]). *)
Fixpoint copy_rgb_row (bo : byte_order) (p : list pixbuf_rgb) (q : list cairo_bytes)
  : option (list cairo_bytes) :=
  match p, q with
  | [], _ => Some q
  | x :: p', y :: q' => cons (copy_rgb_pixel bo x y) <$> copy_rgb_row bo p' q'
  | _ :: _, [] => None
  end.

(** The loop body of [convert_no_alpha] for [src[x]]: three stores into
    [guchar]. *)
Definition convert_no_alpha_pixel (src : Z) : pixbuf_rgb :=
  {| rgb_r := to_guchar (Z.shiftr src 16);
     rgb_g := to_guchar (Z.shiftr src 8);
     rgb_b := to_guchar src |}.

(** The inner loop of [convert_no_alpha]. *)
Definition convert_no_alpha_row (width : nat) (src : list Z) (dest : list pixbuf_rgb)
  : option (list pixbuf_rgb) :=
  foldl (fun acc x =>
           d ← acc;
           w ← src !! x;
           if decide (x < length d)%nat
           then Some (<[x := convert_no_alpha_pixel w]> d) else None)
        (Some dest) (seq 0 width).

(** The outer loop of [convert_no_alpha], with the same parameters and the
    same two loops as [convert_alpha]: no turn of the inner loop, no memory
    touched. *)
Definition convert_no_alpha (dest : list (list pixbuf_rgb)) (src : list (list Z))
    (src_x src_y width height : Z) : option (list (list pixbuf_rgb)) :=
  foldl (fun acc y =>
           d ← acc;
           if decide (width <= 0) then Some d
           else
             src_row ← lookup_int src (src_y + Z.of_nat y);
             dest_row ← d !! y;
             row ← (if decide (0 <= src_x)
                    then convert_no_alpha_row (Z.to_nat width)
                           (drop (Z.to_nat src_x) src_row) dest_row
                    else None);
             Some (<[y := row]> d))
        (Some dest) (seq 0 (Z.to_nat height)).

(** *** Pixels: vocabulary *)

(** What [MULT] keeps of the product of two bytes, decided for a pair of
    bytes. *)
Definition mult_check (c a : Z) : bool :=
  let m := MULT c a in
  (Z.abs (255 * m - c * a) <=? 128)
  && (m <=? a) && (m <=? c) && (m =? MULT a c)
  && (if a =? 255 then m =? c else true)
  && (if a =? 0 then m =? 0 else true).

(** A pixel without alpha whose three components are bytes. *)
Definition is_rgb (p : pixbuf_rgb) : Prop :=
  is_guchar (rgb_r p) /\ is_guchar (rgb_g p) /\ is_guchar (rgb_b p).

(** The pixel in row [y], column [x] of an image held as rows. *)
Definition pixel_at {A : Type} (image : list (list A)) (y x : nat) : option A :=
  match image !! y with
  | Some row => row !! x
  | None => None
  end.

(** A pixel with alpha whose four components are bytes. *)
Definition is_rgba (p : pixbuf_pixel) : Prop :=
  is_guchar (px_r p) /\ is_guchar (px_g p) /\ is_guchar (px_b p) /\ is_guchar (px_a p).

(** ** Drawing a node: the rest of [rsvg-cairo-draw.c] *)

(** The code of the node module that the functions below call.  The field
    [drawsub_stack] of the drawing context is passed to them and taken back
    from them: [rsvg_node_draw] is given the stack and the store, and leaves
    both.  The reference counts of nodes are not part of the model. *)
Class TreeExternals {D : DoubleOps} {E : Externals} : Type := {
  rsvg_node_is_same : RsvgNode -> RsvgNode -> bool;
  rsvg_node_get_parent : RsvgNode -> option RsvgNode;
  rsvg_state_is_visible : StatePtr -> Store -> bool;
  rsvg_node_draw :
    RsvgNode -> Z -> bool -> list RsvgNode -> Store -> outcome (list RsvgNode * Store)
}.

Section MoreUpdates.
Context {D : DoubleOps}.

Definition set_initial_cr (v : cairo_t) (c : RsvgDrawingCtx) : RsvgDrawingCtx :=
  {| cr := cr c; initial_cr := v; cr_stack := cr_stack c;
     surfaces_stack := surfaces_stack c; state := state c; defs := defs c;
     offset_x := offset_x c; offset_y := offset_y c; width := width c;
     height := height c; vb := vb c; vb_stack := vb_stack c; bbox := bbox c;
     ink_bbox := ink_bbox c; bb_stack := bb_stack c;
     ink_bb_stack := ink_bb_stack c; acquired_nodes := acquired_nodes c |}.

Definition set_offset (x y : double) (c : RsvgDrawingCtx) : RsvgDrawingCtx :=
  {| cr := cr c; initial_cr := initial_cr c; cr_stack := cr_stack c;
     surfaces_stack := surfaces_stack c; state := state c; defs := defs c;
     offset_x := x; offset_y := y; width := width c;
     height := height c; vb := vb c; vb_stack := vb_stack c; bbox := bbox c;
     ink_bbox := ink_bbox c; bb_stack := bb_stack c;
     ink_bb_stack := ink_bb_stack c; acquired_nodes := acquired_nodes c |}.

Definition set_size (w h : double) (c : RsvgDrawingCtx) : RsvgDrawingCtx :=
  {| cr := cr c; initial_cr := initial_cr c; cr_stack := cr_stack c;
     surfaces_stack := surfaces_stack c; state := state c; defs := defs c;
     offset_x := offset_x c; offset_y := offset_y c; width := w;
     height := h; vb := vb c; vb_stack := vb_stack c; bbox := bbox c;
     ink_bbox := ink_bbox c; bb_stack := bb_stack c;
     ink_bb_stack := ink_bb_stack c; acquired_nodes := acquired_nodes c |}.

(** A call into code outside this file that the log does not record. *)
Definition call_unlogged {A : Type} (f : Store -> outcome (A * Store)) : M A :=
  fun w =>
    match f (store w) with
    | Returned (a, s) => Returned (a, set_store s w)
    | Aborted => Aborted
    | Undefined => Undefined
    end.

End MoreUpdates.

Section Tree.
Context {D : DoubleOps} {E : Externals} {T : TreeExternals}.

Definition rsvg_cairo_get_cairo_context : M cairo_t :=
  c <- get_ctx ;; ret (cr c).

Definition rsvg_cairo_set_cairo_context (v : cairo_t) : M unit :=
  modify_ctx (set_cr v).

Definition rsvg_cairo_is_cairo_context_nested (v : cairo_t) : M bool :=
  c <- get_ctx ;; ret (negb (cr_eqb v (initial_cr c))).

(** [while (node != NULL)]: each turn of the loop uses one unit of [fuel];
    [None] when the loop has not ended within it. *)
Fixpoint push_ancestors (fuel : nat) (node : option RsvgNode) (stack : list RsvgNode)
  : option (list RsvgNode) :=
  match node with
  | None => Some stack
  | Some n =>
      match fuel with
      | O => None
      | S fuel' =>
          push_ancestors fuel' (rsvg_node_get_parent n) (g_slist_prepend stack n)
      end
  end.

(** The field [drawsub_stack] before the call is [drawsub_stack], the
    result is the field after it. *)
Definition rsvg_drawing_ctx_add_node_and_ancestors_to_stack (fuel : nat)
    (drawsub_stack : list RsvgNode) (node : option RsvgNode)
  : option (list RsvgNode) :=
  match node with
  | Some n => push_ancestors fuel (Some n) drawsub_stack
  | None => Some drawsub_stack
  end.

(** The part of [rsvg_drawing_ctx_draw_node_from_stack] after the look at
    the stack, with the field [drawsub_stack] holding [stack]; the value is
    the field as [rsvg_node_draw] leaves it. *)
Definition draw_node_if_visible (stack : list RsvgNode) (node : RsvgNode)
    (dominate : Z) (clipping : bool) : M (list RsvgNode) :=
  let state := rsvg_node_get_state node in
  s <- get_store ;;
  if rsvg_state_is_visible state s then
    call_out Ev_state_push rsvg_drawing_ctx_state_push ;;;
    left <- call_unlogged (rsvg_node_draw node dominate clipping stack) ;;
    call_out Ev_state_pop rsvg_drawing_ctx_state_pop ;;;
    ret left
  else ret stack.

(** The field [drawsub_stack] before the call is [drawsub_stack], the
    result is the field after it. *)
Definition rsvg_drawing_ctx_draw_node_from_stack (drawsub_stack : list RsvgNode)
    (node : RsvgNode) (dominate : Z) (clipping : bool) : M (list RsvgNode) :=
  let stacksave := drawsub_stack in
  match stacksave with
  | stack_node :: next =>
      if negb (rsvg_node_is_same stack_node node) then ret drawsub_stack
      else
        draw_node_if_visible next node dominate clipping ;;;
        ret stacksave
  | [] =>
      draw_node_if_visible drawsub_stack node dominate clipping ;;;
      ret stacksave
  end.

(** The surface returned, [None] for [NULL], and the field
    [drawsub_stack] after the call. *)
Definition rsvg_cairo_get_surface_of_node (drawsub_stack : list RsvgNode)
    (drawable : RsvgNode) (w h : double)
  : M (option cairo_surface_t * list RsvgNode) :=
  c <- get_ctx ;;
  let save_cr := cr c in
  let save_initial_cr := initial_cr c in
  let save_x := offset_x c in
  let save_y := offset_y c in
  let save_w := width c in
  let save_h := height c in
  surface <- cairo_image_surface_create CAIRO_FORMAT_ARGB32 (d_to_int w) (d_to_int h) ;;
  if negb (status_is_success (cairo_surface_status surface)) then
    emit (Ev_cairo_surface_destroy surface) ;;;
    ret (None, drawsub_stack)
  else
    new_cr <- cairo_create surface ;;
    modify_ctx (set_cr new_cr) ;;;
    modify_ctx (fun c => set_initial_cr (cr c) c) ;;;
    modify_ctx (set_offset d_zero d_zero) ;;;
    modify_ctx (set_size w h) ;;;
    stack <- rsvg_drawing_ctx_draw_node_from_stack drawsub_stack drawable 0 false ;;
    c' <- get_ctx ;;
    emit (Ev_cairo_destroy (cr c')) ;;;
    modify_ctx (set_cr save_cr) ;;;
    modify_ctx (set_initial_cr save_initial_cr) ;;;
    modify_ctx (set_offset save_x save_y) ;;;
    modify_ctx (set_size save_w save_h) ;;;
    ret (Some surface, stack).

End Tree.

(** *** Drawing a node: vocabulary *)

Section TreeVocabulary.
Context {D : DoubleOps} {E : Externals} {T : TreeExternals}.

(** [path] lists [node] and its ancestors, the node first and the root
    last. *)
Fixpoint is_ancestry (path : list RsvgNode) (node : option RsvgNode) : Prop :=
  match path with
  | [] => node = None
  | n :: path' => node = Some n /\ is_ancestry path' (rsvg_node_get_parent n)
  end.

(** The six fields that [rsvg_cairo_get_surface_of_node] saves. *)
Definition saved_fields (c : RsvgDrawingCtx)
  : cairo_t * cairo_t * double * double * double * double :=
  (cr c, initial_cr c, offset_x c, offset_y c, width c, height c).

End TreeVocabulary.

(** *** A sample tree

    Node 5 is a child of node 6, which is a child of node 7, the root;
    node 8 is not displayed. *)
Module TreeSample.

#[local] Existing Instance Sample.doubles.
#[local] Existing Instance Sample.externals.

Definition parent (n : RsvgNode) : option RsvgNode :=
  match n with
  | 5%positive => Some 6%positive
  | 6%positive => Some 7%positive
  | _ => None
  end.

Definition tree : @TreeExternals Sample.doubles Sample.externals :=
  {| rsvg_node_is_same := Pos.eqb;
     rsvg_node_get_parent := parent;
     rsvg_state_is_visible := fun p _ => negb (Pos.eqb p 18);
     rsvg_node_draw := fun n _ _ stack s =>
       Returned (tl stack, set_ctx (set_bboxes Sample.drawn_box Sample.drawn_box (ctx s)) s) |}.

End TreeSample.

(** *** Layers: vocabulary *)

Section LayerVocabulary.
Context {D : DoubleOps} {E : Externals}.

(** The same definitions, nodes under resolution and stacks after as
    before. *)
Definition same_frame (w w' : World) : Prop :=
  frame (ctx (store w')) = frame (ctx (store w)).

End LayerVocabulary.

(** *** A sample layer

    A state with a filter, and the world after the entry of a layer in that
    state. *)
Module LayerSample.

Definition filtered : @RsvgState Sample.doubles :=
  Sample.style None (Some "#blur"%string) None 255.

Definition filtered_entered : @World Sample.doubles :=
  Eval vm_compute in
    Sample.world_after
      (rsvg_cairo_push_render_stack (E := Sample.externals) (Sample.world filtered []))
      (Sample.world filtered []).

Definition filtered_left : @World Sample.doubles :=
  Eval vm_compute in
    Sample.world_after
      (rsvg_cairo_pop_render_stack (E := Sample.externals) filtered_entered)
      filtered_entered.

End LayerSample.

(** *** The canvas of a mask *)

Section MaskVocabulary.
Context {D : DoubleOps} {E : Externals}.

(** The store after [rsvg_drawing_ctx_push_view_box (ctx, w, h)]. *)
Definition view_box_pushed (w h : double) (s : Store) : Store :=
  let c := ctx s in
  set_ctx
    (set_vb {| vb_rect := {| rect_x := rect_x (vb_rect (vb c));
                             rect_y := rect_y (vb_rect (vb c));
                             rect_width := w; rect_height := h |};
               vb_active := vb_active (vb c) |}
            (g_slist_prepend (vb_stack c) (vb c)) c)
    s.

(** The store in which [rsvg_cairo_generate_mask], called in [w] with a
    surface that cairo could allocate, has the children of [mask] drawn:
    the new surface cleared, the context on it current, the clipping
    rectangle of the mask added and, with content units objectBoundingBox,
    the bounding box multiplied into the affine of the state of the mask
    and a view box of one unit pushed. *)
Definition mask_canvas (mask : RsvgNode) (w : World) : outcome Store :=
  let c := ctx (store w) in
  let s := next_handle w in
  let width32 := wrap32 (d_to_int (width c)) in
  let height32 := wrap32 (d_to_int (height c)) in
  let mask_units := rsvg_node_mask_get_units mask in
  let created :=
    set_pixels s (replicate (Z.to_nat height32) (replicate (Z.to_nat width32) 0))
      (store w) in
  let s1 := if units_is_obb mask_units then view_box_pushed d_one d_one created
            else created in
  let sx := rsvg_length_normalize (rsvg_node_mask_get_x mask) s1 in
  let sy := rsvg_length_normalize (rsvg_node_mask_get_y mask) s1 in
  let sw := rsvg_length_normalize (rsvg_node_mask_get_width mask) s1 in
  let sh := rsvg_length_normalize (rsvg_node_mask_get_height mask) s1 in
  let aff := st_affine (states (store w) (state c)) in
  let on_mask := set_ctx (set_cr {| cr_handle := S s; cr_target := s |} c) created in
  match
    (if units_is_obb mask_units then
       rsvg_cairo_add_clipping_rect aff
         (d_add (d_mul sx (rect_width (rect (bbox c)))) (rect_x (rect (bbox c))))
         (d_add (d_mul sy (rect_height (rect (bbox c)))) (rect_y (rect (bbox c))))
         (d_mul sw (rect_width (rect (bbox c))))
         (d_mul sh (rect_height (rect (bbox c)))) on_mask
     else rsvg_cairo_add_clipping_rect aff sx sy sw sh on_mask)
  with
  | Returned clipped =>
      Returned
        (if units_is_obb (rsvg_node_mask_get_content_units mask) then
           let b := bbox (ctx clipped) in
           let p := rsvg_node_get_state mask in
           view_box_pushed d_one d_one
             (rsvg_state_set_affine p
                (cairo_matrix_multiply
                   (cairo_matrix_init (rect_width (rect b)) d_zero d_zero
                      (rect_height (rect b)) (rect_x (rect b)) (rect_y (rect b)))
                   (st_affine (states clipped p)))
                clipped)
         else clipped)
  | Aborted => Aborted
  | Undefined => Undefined
  end.

End MaskVocabulary.

Module MaskSample.

#[local] Existing Instance Sample.doubles.

(** What the children of the sample mask paint into the first row of the
    surface they are drawn on: white, a dark grey, black and red. *)
Definition painted_row : list Z := [0x00FFFFFF; 0x00020202; 0x00000000; 0x00FF0000].

Definition draw_children (n : RsvgNode) (dominate : Z) (clipping : bool)
    (s : @Store Sample.doubles) : outcome (@Store Sample.doubles) :=
  let target := cr_target (cr (ctx s)) in
  Returned (set_pixels target (<[0%nat := painted_row]> (pixels s target)) s).

(** The sample code around the drawing context, with children that paint
    and masks whose content is in units of the bounding box. *)
Definition externals : @Externals Sample.doubles :=
  {| rsvg_defs_lookup := Sample.lookup;
     rsvg_node_get_type := Sample.type_of;
     rsvg_node_get_state := fun n => Pos.add n 10;
     rsvg_node_clip_path_get_units := Sample.clip_units;
     rsvg_node_mask_get_units := fun _ => userSpaceOnUse;
     rsvg_node_mask_get_content_units := fun _ => objectBoundingBox;
     RsvgLength := Z;
     rsvg_node_mask_get_x := fun _ => 0;
     rsvg_node_mask_get_y := fun _ => 0;
     rsvg_node_mask_get_width := fun _ => 1;
     rsvg_node_mask_get_height := fun _ => 1;
     rsvg_length_normalize := fun l _ => l;
     cairo_matrix_multiply := fun a _ => a;
     rsvg_bbox_init := fun b m => {| rect := rect b; affine := m; virgin := true |};
     rsvg_bbox_insert := fun dst src => if virgin src then dst else src;
     cairo_surface_status := fun _ => CAIRO_STATUS_SUCCESS;
     rsvg_drawing_ctx_state_push := fun s => Returned s;
     rsvg_drawing_ctx_state_pop := fun s => Returned s;
     rsvg_node_draw_children := draw_children;
     rsvg_cairo_add_clipping_rect := fun _ _ _ _ _ s => Returned s;
     rsvg_filter_render := fun _ output s => Returned (output, s) |}.

End MaskSample.

(** ** [rsvg-paint-server.c] *)

(** *** Paint servers *)

(** The kinds of colour specification that the code names;
    [RSVG_CSS_COLOR_SPEC_other] stands for any other value of the field,
    which the [default] branches catch. *)
Inductive RsvgCssColorKind : Type :=
| RSVG_CSS_COLOR_SPEC_INHERIT
| RSVG_CSS_COLOR_SPEC_CURRENT_COLOR
| RSVG_CSS_COLOR_SPEC_ARGB
| RSVG_CSS_COLOR_PARSE_ERROR
| RSVG_CSS_COLOR_SPEC_other (value : Z).

Record RsvgCssColorSpec : Type := {
  spec_kind : RsvgCssColorKind;
  spec_argb : Z
}.

Inductive AllowInherit : Type := ALLOW_INHERIT_NO | ALLOW_INHERIT_YES.
Inductive AllowCurrentColor : Type := ALLOW_CURRENT_COLOR_NO | ALLOW_CURRENT_COLOR_YES.

Record RsvgSolidColor : Type := {
  currentcolor : bool;
  argb : Z
}.

Record RsvgPaintServerIri : Type := {
  iri_str : string;
  has_alternate : bool;
  alternate : RsvgSolidColor
}.

(** The field [type] and the union [core] of a paint server, as one tagged
    value. *)
Inductive RsvgPaintServerCore : Type :=
| RSVG_PAINT_SERVER_SOLID (color : RsvgSolidColor)
| RSVG_PAINT_SERVER_IRI (iri : RsvgPaintServerIri).

Record RsvgPaintServer : Type := {
  refcnt : Z;
  core : RsvgPaintServerCore
}.

(** The parsers this file calls: the colour parser of the CSS module,
    [rsvg_get_url_string], which gives the name inside [url(...)] and what
    follows it, and GLib's [g_ascii_isspace]. *)
Class PaintExternals : Type := {
  rsvg_css_parse_color : string -> AllowInherit -> AllowCurrentColor -> RsvgCssColorSpec;
  rsvg_get_url_string : string -> option (string * string);
  g_ascii_isspace : Ascii.ascii -> bool
}.

Section PaintServer.
Context {P : PaintExternals}.

(** [g_new0] clears what is not assigned. *)
Definition rsvg_paint_server_solid (color_argb : Z) : RsvgPaintServer :=
  {| refcnt := 1;
     core := RSVG_PAINT_SERVER_SOLID {| currentcolor := false; argb := color_argb |} |}.

Definition rsvg_paint_server_solid_current_color : RsvgPaintServer :=
  {| refcnt := 1;
     core := RSVG_PAINT_SERVER_SOLID {| currentcolor := true; argb := 0 |} |}.

Definition rsvg_paint_server_iri (iri : string) (alt_given : bool) (alt : RsvgSolidColor)
  : RsvgPaintServer :=
  {| refcnt := 1;
     core := RSVG_PAINT_SERVER_IRI
               {| iri_str := iri; has_alternate := alt_given; alternate := alt |} |}.

(** The value returned and the colour left at [dest]. *)
Definition parse_current_color_or_argb (str : string)
  : outcome (bool * RsvgSolidColor) :=
  if String.eqb str "none" then
    Returned (false, {| currentcolor := false; argb := 0 |})
  else
    let spec := rsvg_css_parse_color str ALLOW_INHERIT_NO ALLOW_CURRENT_COLOR_YES in
    match spec_kind spec with
    | RSVG_CSS_COLOR_SPEC_CURRENT_COLOR =>
        Returned (true, {| currentcolor := true; argb := 0 |})
    | RSVG_CSS_COLOR_SPEC_ARGB =>
        Returned (true, {| currentcolor := false; argb := spec_argb spec |})
    | RSVG_CSS_COLOR_PARSE_ERROR =>
        Returned (false, {| currentcolor := false; argb := 0 |})
    | _ => Aborted
    end.

(** [while ( *rest && g_ascii_isspace ( *rest )) rest++] *)
Fixpoint skip_spaces (rest : string) : string :=
  match rest with
  | String c rest' => if g_ascii_isspace c then skip_spaces rest' else rest
  | EmptyString => rest
  end.

(** [inherit_given] tells whether [inherit] points somewhere; the first
    component of the result is what is stored there, the second the
    pointer returned. *)
Definition rsvg_paint_server_parse (inherit_given : bool) (str : option string)
  : outcome (option bool * option RsvgPaintServer) :=
  let stored (b : bool) := if inherit_given then Some b else None in
  match str with
  | None => Returned (stored true, None)
  | Some s =>
      if String.eqb s "none" then Returned (stored true, None)
      else
        match rsvg_get_url_string s with
        | Some (name, rest) =>
            match parse_current_color_or_argb (skip_spaces rest) with
            | Returned (alt_given, alt) =>
                Returned (stored true, Some (rsvg_paint_server_iri name alt_given alt))
            | Aborted => Aborted
            | Undefined => Undefined
            end
        | None =>
            let spec := rsvg_css_parse_color s ALLOW_INHERIT_YES ALLOW_CURRENT_COLOR_YES in
            match spec_kind spec with
            | RSVG_CSS_COLOR_SPEC_INHERIT =>
                Returned (stored false, Some (rsvg_paint_server_solid 0))
            | RSVG_CSS_COLOR_SPEC_CURRENT_COLOR =>
                Returned (stored true, Some rsvg_paint_server_solid_current_color)
            | RSVG_CSS_COLOR_SPEC_ARGB =>
                Returned (stored true, Some (rsvg_paint_server_solid (spec_argb spec)))
            | RSVG_CSS_COLOR_PARSE_ERROR => Returned (stored true, None)
            | RSVG_CSS_COLOR_SPEC_other _ => Aborted
            end
        end
  end.

End PaintServer.

(** *** Reference counts

    Paint servers live in memory under their addresses; an address that
    holds none has been freed.  The counter is a field of a structure
    declared in a header that is not part of the sources: [refcnt_min] and
    [refcnt_max] are the least and the largest value it holds, and a step
    beyond them is [Undefined]. *)
Section PaintServerHeap.
Variable refcnt_min refcnt_max : Z.

Definition PaintServerHeap : Type := positive -> option RsvgPaintServer.

Definition set_refcnt (n : Z) (ps : RsvgPaintServer) : RsvgPaintServer :=
  {| refcnt := n; core := core ps |}.

Definition heap_store (p : positive) (v : option RsvgPaintServer) (h : PaintServerHeap)
  : PaintServerHeap :=
  fun q => if Pos.eqb q p then v else h q.

Definition rsvg_paint_server_ref (ps : option positive) (h : PaintServerHeap)
  : outcome PaintServerHeap :=
  match ps with
  | None => Returned h
  | Some p =>
      match h p with
      | None => Undefined
      | Some server =>
          if refcnt server <? refcnt_max
          then Returned (heap_store p (Some (set_refcnt (refcnt server + 1) server)) h)
          else Undefined
      end
  end.

(** The strings and the union member go with the server when it is
    freed. *)
Definition rsvg_paint_server_unref (ps : option positive) (h : PaintServerHeap)
  : outcome PaintServerHeap :=
  match ps with
  | None => Returned h
  | Some p =>
      match h p with
      | None => Undefined
      | Some server =>
          if refcnt server <=? refcnt_min then Undefined
          else if refcnt server - 1 =? 0
          then Returned (heap_store p None h)
          else Returned (heap_store p (Some (set_refcnt (refcnt server - 1) server)) h)
      end
  end.

End PaintServerHeap.

(** *** Sample parsers

    Three colour words, the [url(...)] form up to the closing parenthesis
    (character 41), and the white space of ASCII. *)
Module PaintSample.

Definition parse_color (str : string) (inherit : AllowInherit)
    (current : AllowCurrentColor) : RsvgCssColorSpec :=
  if String.eqb str "red" then
    {| spec_kind := RSVG_CSS_COLOR_SPEC_ARGB; spec_argb := 0xFFFF0000 |}
  else if String.eqb str "currentColor" then
    {| spec_kind := RSVG_CSS_COLOR_SPEC_CURRENT_COLOR; spec_argb := 0 |}
  else if String.eqb str "inherit" then
    {| spec_kind := RSVG_CSS_COLOR_SPEC_INHERIT; spec_argb := 0 |}
  else {| spec_kind := RSVG_CSS_COLOR_PARSE_ERROR; spec_argb := 0 |}.

Fixpoint until_paren (s : string) : option (string * string) :=
  match s with
  | EmptyString => None
  | String c rest =>
      if Ascii.eqb c (Ascii.ascii_of_nat 41) then Some (EmptyString, rest)
      else match until_paren rest with
           | Some (name, rest') => Some (String c name, rest')
           | None => None
           end
  end.

Definition get_url_string (s : string) : option (string * string) :=
  if String.prefix "url(" s
  then until_paren (String.substring 4 (String.length s - 4) s)
  else None.

Definition isspace (c : Ascii.ascii) : bool :=
  match Ascii.nat_of_ascii c with
  | 9%nat | 10%nat | 12%nat | 13%nat | 32%nat => true
  | _ => false
  end.

Definition parsers : PaintExternals :=
  {| rsvg_css_parse_color := parse_color;
     rsvg_get_url_string := get_url_string;
     g_ascii_isspace := isspace |}.

(** One paint server at address 1. *)
Definition heap (server : RsvgPaintServer) : PaintServerHeap :=
  fun p => if Pos.eqb p 1 then Some server else None.

End PaintSample.

(** *** Gradients *)

Inductive cairo_extend_t : Type :=
| CAIRO_EXTEND_NONE
| CAIRO_EXTEND_REPEAT
| CAIRO_EXTEND_REFLECT
| CAIRO_EXTEND_PAD.

Inductive LengthDir : Type :=
| LENGTH_DIR_HORIZONTAL
| LENGTH_DIR_VERTICAL
| LENGTH_DIR_BOTH.

(** What the attribute parsers give: the property bag and its lookup, the
    length parser, and [rsvg_parse_transform], which tells whether it could
    parse and leaves a matrix where its first argument points. *)
Class GradientExternals {D : DoubleOps} {E : Externals} : Type := {
  RsvgPropertyBag : Type;
  rsvg_property_bag_lookup : RsvgPropertyBag -> string -> option string;
  rsvg_length_parse : string -> LengthDir -> RsvgLength;
  rsvg_parse_transform : cairo_matrix_t -> string -> bool * cairo_matrix_t
}.

Section Gradients.
Context {D : DoubleOps} {E : Externals} {G : GradientExternals}.

(** The fields of [RsvgLinearGradient], under the names the code uses with
    [lg_] before them. *)
Record RsvgLinearGradient : Type := {
  lg_obj_bbox : bool;
  lg_affine : cairo_matrix_t;
  lg_spread : cairo_extend_t;
  lg_x1 : RsvgLength;
  lg_y1 : RsvgLength;
  lg_x2 : RsvgLength;
  lg_y2 : RsvgLength;
  lg_hasx1 : bool;
  lg_hasy1 : bool;
  lg_hasx2 : bool;
  lg_hasy2 : bool;
  lg_hasbbox : bool;
  lg_hasspread : bool;
  lg_hastransform : bool;
  lg_fallback : option string
}.

(** The fields of [RsvgRadialGradient], with [rg_] before the names. *)
Record RsvgRadialGradient : Type := {
  rg_obj_bbox : bool;
  rg_affine : cairo_matrix_t;
  rg_spread : cairo_extend_t;
  rg_cx : RsvgLength;
  rg_cy : RsvgLength;
  rg_r : RsvgLength;
  rg_fx : RsvgLength;
  rg_fy : RsvgLength;
  rg_hascx : bool;
  rg_hascy : bool;
  rg_hasr : bool;
  rg_hasfx : bool;
  rg_hasfy : bool;
  rg_hasbbox : bool;
  rg_hasspread : bool;
  rg_hastransform : bool;
  rg_fallback : option string
}.

(** A call of [rsvg_node_set_attribute_parse_error]: the attribute and the
    message. *)
Definition AttributeError : Type := (string * string)%type.

(** [if ((value = rsvg_property_bag_lookup (atts, key))) { field = parse;
    hasfield = TRUE; }]: the field and its flag after the block. *)
Definition set_length (atts : RsvgPropertyBag) (key : string) (dir : LengthDir)
    (old : RsvgLength) (has : bool) : RsvgLength * bool :=
  match rsvg_property_bag_lookup atts key with
  | Some value => (rsvg_length_parse value dir, true)
  | None => (old, has)
  end.

(** The block for [spreadMethod]. *)
Definition set_spread (atts : RsvgPropertyBag) (old : cairo_extend_t) (has : bool)
  : cairo_extend_t * bool :=
  match rsvg_property_bag_lookup atts "spreadMethod" with
  | Some value =>
      ((if String.eqb value "pad" then CAIRO_EXTEND_PAD
        else if String.eqb value "reflect" then CAIRO_EXTEND_REFLECT
        else if String.eqb value "repeat" then CAIRO_EXTEND_REPEAT
        else old), true)
  | None => (old, has)
  end.

(** The block for [gradientTransform]: the matrix, the flag and the errors
    reported. *)
Definition set_transform (atts : RsvgPropertyBag) (old : cairo_matrix_t) (has : bool)
  : cairo_matrix_t * bool * list AttributeError :=
  match rsvg_property_bag_lookup atts "gradientTransform" with
  | Some value =>
      let parsed := rsvg_parse_transform old value in
      if fst parsed then (snd parsed, true, [])
      else (snd parsed, has, [("gradientTransform", "Invalid transformation")%string])
  | None => (old, has, [])
  end.

(** The block for [gradientUnits]. *)
Definition set_units (atts : RsvgPropertyBag) (old : bool) (has : bool) : bool * bool :=
  match rsvg_property_bag_lookup atts "gradientUnits" with
  | Some value =>
      ((if String.eqb value "userSpaceOnUse" then false
        else if String.eqb value "objectBoundingBox" then true
        else old), true)
  | None => (old, has)
  end.

(** The gradient after the call and the errors it reported on the node. *)
Definition rsvg_linear_gradient_set_atts (grad : RsvgLinearGradient)
    (atts : RsvgPropertyBag) : RsvgLinearGradient * list AttributeError :=
  let x1 := set_length atts "x1" LENGTH_DIR_HORIZONTAL (lg_x1 grad) (lg_hasx1 grad) in
  let y1 := set_length atts "y1" LENGTH_DIR_VERTICAL (lg_y1 grad) (lg_hasy1 grad) in
  let x2 := set_length atts "x2" LENGTH_DIR_HORIZONTAL (lg_x2 grad) (lg_hasx2 grad) in
  let y2 := set_length atts "y2" LENGTH_DIR_VERTICAL (lg_y2 grad) (lg_hasy2 grad) in
  let spread := set_spread atts (lg_spread grad) (lg_hasspread grad) in
  let fallback := rsvg_property_bag_lookup atts "xlink:href" in
  let transform := set_transform atts (lg_affine grad) (lg_hastransform grad) in
  let units := set_units atts (lg_obj_bbox grad) (lg_hasbbox grad) in
  ({| lg_obj_bbox := fst units;
      lg_affine := fst (fst transform);
      lg_spread := fst spread;
      lg_x1 := fst x1; lg_y1 := fst y1; lg_x2 := fst x2; lg_y2 := fst y2;
      lg_hasx1 := snd x1; lg_hasy1 := snd y1; lg_hasx2 := snd x2; lg_hasy2 := snd y2;
      lg_hasbbox := snd units;
      lg_hasspread := snd spread;
      lg_hastransform := snd (fst transform);
      lg_fallback := fallback |},
   snd transform).

(** The structure that [rsvg_new_linear_gradient] hands to the node it
    creates. *)
Definition rsvg_new_linear_gradient : RsvgLinearGradient :=
  {| lg_obj_bbox := true;
     lg_affine := cairo_matrix_init d_one d_zero d_zero d_one d_zero d_zero;
     lg_spread := CAIRO_EXTEND_PAD;
     lg_x1 := rsvg_length_parse "0" LENGTH_DIR_HORIZONTAL;
     lg_y1 := rsvg_length_parse "0" LENGTH_DIR_VERTICAL;
     lg_x2 := rsvg_length_parse "1" LENGTH_DIR_HORIZONTAL;
     lg_y2 := rsvg_length_parse "0" LENGTH_DIR_VERTICAL;
     lg_hasx1 := false; lg_hasy1 := false; lg_hasx2 := false; lg_hasy2 := false;
     lg_hasbbox := false; lg_hasspread := false; lg_hastransform := false;
     lg_fallback := None |}.

(** The blocks for [cx] and [cy] also move the focus while no focus has
    been given: the centre, its flag and the focus after the block. *)
Definition set_centre (atts : RsvgPropertyBag) (key : string) (dir : LengthDir)
    (old : RsvgLength) (has : bool) (focus : RsvgLength) (hasfocus : bool)
  : RsvgLength * bool * RsvgLength :=
  match rsvg_property_bag_lookup atts key with
  | Some value =>
      let centre := rsvg_length_parse value dir in
      (centre, true, if negb hasfocus then centre else focus)
  | None => (old, has, focus)
  end.

Definition rsvg_radial_gradient_set_atts (grad : RsvgRadialGradient)
    (atts : RsvgPropertyBag) : RsvgRadialGradient * list AttributeError :=
  let cx := set_centre atts "cx" LENGTH_DIR_HORIZONTAL (rg_cx grad) (rg_hascx grad)
                       (rg_fx grad) (rg_hasfx grad) in
  let cy := set_centre atts "cy" LENGTH_DIR_VERTICAL (rg_cy grad) (rg_hascy grad)
                       (rg_fy grad) (rg_hasfy grad) in
  let r := set_length atts "r" LENGTH_DIR_BOTH (rg_r grad) (rg_hasr grad) in
  let fx := set_length atts "fx" LENGTH_DIR_HORIZONTAL (snd cx) (rg_hasfx grad) in
  let fy := set_length atts "fy" LENGTH_DIR_VERTICAL (snd cy) (rg_hasfy grad) in
  let fallback := rsvg_property_bag_lookup atts "xlink:href" in
  let transform := set_transform atts (rg_affine grad) (rg_hastransform grad) in
  let spread := set_spread atts (rg_spread grad) (rg_hasspread grad) in
  let units := set_units atts (rg_obj_bbox grad) (rg_hasbbox grad) in
  ({| rg_obj_bbox := fst units;
      rg_affine := fst (fst transform);
      rg_spread := fst spread;
      rg_cx := fst (fst cx); rg_cy := fst (fst cy); rg_r := fst r;
      rg_fx := fst fx; rg_fy := fst fy;
      rg_hascx := snd (fst cx); rg_hascy := snd (fst cy); rg_hasr := snd r;
      rg_hasfx := snd fx; rg_hasfy := snd fy;
      rg_hasbbox := snd units;
      rg_hasspread := snd spread;
      rg_hastransform := snd (fst transform);
      rg_fallback := fallback |},
   snd transform).

Definition rsvg_new_radial_gradient : RsvgRadialGradient :=
  let half := rsvg_length_parse "0.5" LENGTH_DIR_BOTH in
  {| rg_obj_bbox := true;
     rg_affine := cairo_matrix_init d_one d_zero d_zero d_one d_zero d_zero;
     rg_spread := CAIRO_EXTEND_PAD;
     rg_cx := half; rg_cy := half; rg_r := half; rg_fx := half; rg_fy := half;
     rg_hascx := false; rg_hascy := false; rg_hasr := false; rg_hasfx := false;
     rg_hasfy := false; rg_hasbbox := false; rg_hasspread := false;
     rg_hastransform := false;
     rg_fallback := None |}.

End Gradients.

(** *** Gradients: vocabulary *)

Section GradientVocabulary.
Context {D : DoubleOps} {E : Externals} {G : GradientExternals}.

(** The linear gradient [grad] with another matrix. *)
Definition lg_with_affine (m : cairo_matrix_t) (grad : RsvgLinearGradient)
  : RsvgLinearGradient :=
  {| lg_obj_bbox := lg_obj_bbox grad; lg_affine := m; lg_spread := lg_spread grad;
     lg_x1 := lg_x1 grad; lg_y1 := lg_y1 grad; lg_x2 := lg_x2 grad; lg_y2 := lg_y2 grad;
     lg_hasx1 := lg_hasx1 grad; lg_hasy1 := lg_hasy1 grad; lg_hasx2 := lg_hasx2 grad;
     lg_hasy2 := lg_hasy2 grad; lg_hasbbox := lg_hasbbox grad;
     lg_hasspread := lg_hasspread grad; lg_hastransform := lg_hastransform grad;
     lg_fallback := lg_fallback grad |}.

(** The linear gradient [grad] with another fallback. *)
Definition lg_with_fallback (f : option string) (grad : RsvgLinearGradient)
  : RsvgLinearGradient :=
  {| lg_obj_bbox := lg_obj_bbox grad; lg_affine := lg_affine grad;
     lg_spread := lg_spread grad;
     lg_x1 := lg_x1 grad; lg_y1 := lg_y1 grad; lg_x2 := lg_x2 grad; lg_y2 := lg_y2 grad;
     lg_hasx1 := lg_hasx1 grad; lg_hasy1 := lg_hasy1 grad; lg_hasx2 := lg_hasx2 grad;
     lg_hasy2 := lg_hasy2 grad; lg_hasbbox := lg_hasbbox grad;
     lg_hasspread := lg_hasspread grad; lg_hastransform := lg_hastransform grad;
     lg_fallback := f |}.

(** The seven flags of a linear gradient. *)
Definition lg_flags (grad : RsvgLinearGradient) : list bool :=
  [lg_hasx1 grad; lg_hasy1 grad; lg_hasx2 grad; lg_hasy2 grad; lg_hasbbox grad;
   lg_hasspread grad; lg_hastransform grad].

(** The attribute is in the bag. *)
Definition given (atts : RsvgPropertyBag) (key : string) : bool :=
  is_set (rsvg_property_bag_lookup atts key).

End GradientVocabulary.

(** *** Sample attributes

    Lengths are the strings themselves; a transform parses when it is the
    word [identity]; a bag is a list of names and values. *)
Module GradientSample.

#[local] Existing Instance Sample.doubles.

Definition bag_lookup (bag : list (string * string)) (key : string) : option string :=
  snd <$> List.find (fun kv => String.eqb (fst kv) key) bag.

Definition parse_transform (m : @cairo_matrix_t Sample.doubles) (value : string)
  : bool * @cairo_matrix_t Sample.doubles :=
  if String.eqb value "identity" then (true, Sample.identity_matrix) else (false, m).

#[local] Instance lengths : @Externals Sample.doubles :=
  {| rsvg_defs_lookup := Sample.lookup;
     rsvg_node_get_type := Sample.type_of;
     rsvg_node_get_state := fun n => Pos.add n 10;
     rsvg_node_clip_path_get_units := Sample.clip_units;
     rsvg_node_mask_get_units := fun _ => userSpaceOnUse;
     rsvg_node_mask_get_content_units := fun _ => userSpaceOnUse;
     RsvgLength := string;
     rsvg_node_mask_get_x := fun _ => "0"%string;
     rsvg_node_mask_get_y := fun _ => "0"%string;
     rsvg_node_mask_get_width := fun _ => "1"%string;
     rsvg_node_mask_get_height := fun _ => "1"%string;
     rsvg_length_normalize := fun _ _ => 0;
     cairo_matrix_multiply := fun a _ => a;
     rsvg_bbox_init := fun b m => {| rect := rect b; affine := m; virgin := true |};
     rsvg_bbox_insert := fun dst src => if virgin src then dst else src;
     cairo_surface_status := fun _ => CAIRO_STATUS_SUCCESS;
     rsvg_drawing_ctx_state_push := fun s => Returned s;
     rsvg_drawing_ctx_state_pop := fun s => Returned s;
     rsvg_node_draw_children := Sample.draw_children;
     rsvg_cairo_add_clipping_rect := fun _ _ _ _ _ s => Returned s;
     rsvg_filter_render := fun _ output s => Returned (output, s) |}.

Definition parsers : @GradientExternals Sample.doubles lengths :=
  {| RsvgPropertyBag := list (string * string);
     rsvg_property_bag_lookup := bag_lookup;
     rsvg_length_parse := fun value _ => value;
     rsvg_parse_transform := parse_transform |}.

Definition fresh_linear : @RsvgLinearGradient Sample.doubles lengths :=
  rsvg_new_linear_gradient (G := parsers).

Definition fresh_radial : @RsvgRadialGradient Sample.doubles lengths :=
  rsvg_new_radial_gradient (G := parsers).

End GradientSample.

(** * Properties *)

(** ** Bit fields of a pixel word *)

Lemma byte_field (p : Z) (k : Z) (m : Z) :
  0 <= k -> Z.shiftr m k = Z.ones 8 ->
  Z.shiftr (Z.land p m) k = (p / 2 ^ k) mod 256.
Proof.
  intros Hk Hm.
  rewrite Z.shiftr_land, Hm, Z.land_ones by lia.
  rewrite Z.shiftr_div_pow2 by lia. reflexivity.
Qed.

Lemma red_field p : Z.shiftr (Z.land p 0xff0000) 16 = (p / 2 ^ 16) mod 256.
Proof. apply byte_field; [lia | reflexivity]. Qed.

Lemma green_field p : Z.shiftr (Z.land p 0x00ff00) 8 = (p / 2 ^ 8) mod 256.
Proof. apply byte_field; [lia | reflexivity]. Qed.

Lemma blue_field p : Z.land p 0x0000ff = p mod 256.
Proof. change 0x0000ff with (Z.ones 8). rewrite Z.land_ones by lia. reflexivity. Qed.

Lemma byte_range (z : Z) : 0 <= z mod 256 < 256.
Proof. apply Z.mod_pos_bound. lia. Qed.

Lemma wrap32_small z : 0 <= z < 2 ^ 32 -> wrap32 z = z.
Proof. intros H. unfold wrap32. apply Z.mod_small. exact H. Qed.

(** The luminance sum of three bytes scaled by a byte fits 32 bits. *)
Lemma luminance_no_wrap (r g b o : Z) :
  is_guchar r -> is_guchar g -> is_guchar b -> is_guchar o ->
  mul32 (add32 (add32 (mul32 r 14042) (mul32 g 47240)) (mul32 b 4769)) o
  = (r * 14042 + g * 47240 + b * 4769) * o.
Proof.
  unfold is_guchar, mul32, add32. intros Hr Hg Hb Ho.
  rewrite (wrap32_small (r * 14042)) by lia.
  rewrite (wrap32_small (g * 47240)) by lia.
  rewrite (wrap32_small (b * 4769)) by lia.
  rewrite (wrap32_small (r * 14042 + g * 47240)) by lia.
  rewrite (wrap32_small (r * 14042 + g * 47240 + b * 4769)) by lia.
  apply wrap32_small.
  assert (0 <= r * 14042 + g * 47240 + b * 4769 <= 16843005) by lia.
  nia.
Qed.

Lemma luminance_pixel_channels (pixel opacity : Z) :
  is_guchar opacity ->
  luminance_pixel pixel opacity
  = (((pixel / 2 ^ 16) mod 256) * 14042 + ((pixel / 2 ^ 8) mod 256) * 47240
     + (pixel mod 256) * 4769) * opacity.
Proof.
  intros Ho. unfold luminance_pixel.
  rewrite red_field, green_field, blue_field.
  apply luminance_no_wrap; try exact Ho; apply byte_range.
Qed.

(** One turn of the luminance loop: the word stored is
    (R * 14042 + G * 47240 + B * 4769) * opacity without wrap-around, and its
    alpha byte is within 1 of (0.2126 R + 0.7152 G + 0.0722 B) * opacity /
    255. *)
Lemma luminance_pixel_alpha (pixel opacity : Z) :
  is_guchar opacity ->
  let R := (pixel / 2 ^ 16) mod 256 in
  let G := (pixel / 2 ^ 8) mod 256 in
  let B := pixel mod 256 in
  luminance_pixel pixel opacity = (R * 14042 + G * 47240 + B * 4769) * opacity
  /\ Z.abs (alpha_of (luminance_pixel pixel opacity) * (10000 * 255)
            - (2126 * R + 7152 * G + 722 * B) * opacity) <= 10000 * 255.
Proof.
  intros Ho R G B.
  assert (HR : 0 <= R < 256) by apply byte_range.
  assert (HG : 0 <= G < 256) by apply byte_range.
  assert (HB : 0 <= B < 256) by apply byte_range.
  split; [apply luminance_pixel_channels; exact Ho|].
  rewrite luminance_pixel_channels by exact Ho. fold R G B.
  unfold alpha_of. rewrite Z.shiftr_div_pow2 by lia.
  unfold is_guchar in Ho.
  set (ro := R * opacity). set (go := G * opacity). set (bo := B * opacity).
  assert (Hro : 0 <= ro <= 65025) by (unfold ro; nia).
  assert (Hgo : 0 <= go <= 65025) by (unfold go; nia).
  assert (Hbo : 0 <= bo <= 65025) by (unfold bo; nia).
  replace ((R * 14042 + G * 47240 + B * 4769) * opacity)
    with (14042 * ro + 47240 * go + 4769 * bo) by (unfold ro, go, bo; ring).
  replace ((2126 * R + 7152 * G + 722 * B) * opacity)
    with (2126 * ro + 7152 * go + 722 * bo) by (unfold ro, go, bo; ring).
  pose proof (Z.div_mod (14042 * ro + 47240 * go + 4769 * bo) (2 ^ 24) ltac:(lia)) as Hdm.
  pose proof (Z.mod_pos_bound (14042 * ro + 47240 * go + 4769 * bo) (2 ^ 24) ltac:(lia)) as Hm.
  change (2 ^ 24) with 16777216 in *.
  lia.
Qed.

(** ** Premultiplied to straight alpha *)

Lemma alpha_field src : is_guint32 src -> 0 <= Z.shiftr src 24 < 256.
Proof.
  unfold is_guint32. intros H. rewrite Z.shiftr_div_pow2 by lia.
  change (2 ^ 32) with 4294967296 in H. change (2 ^ 24) with 16777216.
  Z.div_mod_to_equations. lia.
Qed.

Lemma unpremultiply_sum_no_wrap (c alpha : Z) :
  is_guchar c -> 0 <= alpha < 256 ->
  add32 (mul32 c 255) (alpha / 2) = c * 255 + alpha / 2.
Proof.
  unfold is_guchar, add32, mul32. intros Hc Ha.
  assert (0 <= alpha / 2 < 128) by (Z.div_mod_to_equations; lia).
  rewrite (wrap32_small (c * 255)) by lia.
  apply wrap32_small. lia.
Qed.

Lemma convert_alpha_pixel_eq (src : Z) :
  is_guint32 src ->
  let alpha := Z.shiftr src 24 in
  convert_alpha_pixel src =
  Some (if alpha =? 0 then
          {| px_r := 0; px_g := 0; px_b := 0; px_a := alpha |}
        else
          {| px_r := unpremultiply ((src / 2 ^ 16) mod 256) alpha;
             px_g := unpremultiply ((src / 2 ^ 8) mod 256) alpha;
             px_b := unpremultiply (src mod 256) alpha;
             px_a := alpha |}).
Proof.
  intros Hsrc alpha. pose proof (alpha_field src Hsrc) as Ha. fold alpha in Ha.
  unfold convert_alpha_pixel. fold alpha.
  assert (Hg : to_guchar alpha = alpha) by (unfold to_guchar; apply Z.mod_small; lia).
  rewrite Hg.
  destruct (alpha =? 0) eqn:Hz; [reflexivity|].
  unfold udiv. rewrite Hz. simpl.
  rewrite red_field, green_field.
  change (Z.shiftr (Z.land src 255) 0) with (Z.land src 0x0000ff).
  rewrite blue_field.
  rewrite !unpremultiply_sum_no_wrap by (first [apply byte_range | exact Ha]).
  reflexivity.
Qed.



(** ** Straight to premultiplied and back *)

Lemma MULT_range c a : 0 <= MULT c a < 256.
Proof. unfold MULT, to_guchar. apply byte_range. Qed.

Lemma load_guint32_fields (bo : byte_order) (q : cairo_bytes) :
  is_guchar (q0 q) -> is_guchar (q1 q) -> is_guchar (q2 q) -> is_guchar (q3 q) ->
  let w := load_guint32 bo q in
  let '(a, r, g, b) :=
    match bo with
    | G_LITTLE_ENDIAN => (q3 q, q2 q, q1 q, q0 q)
    | G_BIG_ENDIAN => (q0 q, q1 q, q2 q, q3 q)
    end in
  is_guint32 w /\ Z.shiftr w 24 = a /\ (w / 2 ^ 16) mod 256 = r
  /\ (w / 2 ^ 8) mod 256 = g /\ w mod 256 = b.
Proof.
  unfold is_guchar, is_guint32. intros H0 H1 H2 H3.
  destruct bo; cbv zeta; unfold load_guint32;
    rewrite !Z.shiftl_mul_pow2, Z.shiftr_div_pow2 by lia;
    change (2 ^ 32) with 4294967296; change (2 ^ 24) with 16777216;
    change (2 ^ 16) with 65536; change (2 ^ 8) with 256;
    repeat split; try lia; Z.div_mod_to_equations; lia.
Qed.

Lemma round_trip_eq (bo : byte_order) (p : pixbuf_pixel) :
  is_guchar (px_r p) -> is_guchar (px_g p) -> is_guchar (px_b p) -> is_guchar (px_a p) ->
  round_trip bo p =
  Some {| px_r := channel_round_trip (px_r p) (px_a p);
          px_g := channel_round_trip (px_g p) (px_a p);
          px_b := channel_round_trip (px_b p) (px_a p);
          px_a := px_a p |}.
Proof.
  intros Hr Hg Hb Ha. unfold round_trip.
  pose proof (MULT_range (px_r p) (px_a p)) as Mr.
  pose proof (MULT_range (px_g p) (px_a p)) as Mg.
  pose proof (MULT_range (px_b p) (px_a p)) as Mb.
  pose proof (load_guint32_fields bo (premultiply_pixel bo p)) as L.
  set (w := load_guint32 bo (premultiply_pixel bo p)) in *.
  destruct bo; cbn [premultiply_pixel q0 q1 q2 q3] in L;
    destruct (L ltac:(assumption) ltac:(assumption) ltac:(assumption) ltac:(assumption))
      as (Hw & Halpha & HR & HG & HB);
    rewrite (convert_alpha_pixel_eq _ Hw); cbv zeta;
    rewrite Halpha, HR, HG, HB; unfold channel_round_trip;
    destruct (px_a p =? 0); reflexivity.
Qed.

Lemma elem_of_bytes (z : Z) : is_guchar z -> In z bytes.
Proof.
  unfold is_guchar, bytes. intros H.
  replace z with (Z.of_nat (Z.to_nat z)) by lia.
  apply in_map. apply in_seq. lia.
Qed.

Lemma channel_check_all :
  forallb (fun a => forallb (fun c => channel_check c a) bytes) bytes = true.
Proof. vm_compute. reflexivity. Qed.

Lemma channel_round_trip_bounds (c a : Z) :
  is_guchar c -> is_guchar a ->
  let c' := channel_round_trip c a in
  (a = 255 -> c' = c)
  /\ (a = 0 -> c' = 0)
  /\ (a <> 0 -> 2 * a * Z.abs (c' - c) <= 255 + a)
  /\ (85 <= a -> Z.abs (c' - c) <= 1).
Proof.
  intros Hc Ha c'.
  pose proof channel_check_all as H.
  rewrite forallb_forall in H. specialize (H a (elem_of_bytes a Ha)).
  rewrite forallb_forall in H. specialize (H c (elem_of_bytes c Hc)).
  unfold channel_check in H. fold c' in H.
  apply andb_prop in H. destruct H as [H H3].
  apply andb_prop in H. destruct H as [H1 H2].
  repeat split; intros Hyp.
  - apply Z.eqb_eq in Hyp. rewrite Hyp in H1. apply Z.eqb_eq. exact H1.
  - apply Z.eqb_eq in Hyp. rewrite Hyp in H2. apply Z.eqb_eq. exact H2.
  - destruct (a =? 0) eqn:Hz; [apply Z.eqb_eq in Hz; contradiction|].
    apply Z.leb_le. exact H2.
  - destruct (85 <=? a) eqn:Hz; [apply Z.leb_le; exact H3|].
    apply Z.leb_gt in Hz. lia.
Qed.

(** C6, as the code has it: the round trip keeps the alpha byte; it is
    exact at alpha 255; at alpha 0 it gives (0, 0, 0, 0), the colour is
    lost; every colour byte comes back within 1 when alpha is at least 85,
    and within (255 + alpha) / (2 alpha) for every alpha above 0. *)
Theorem round_trip_spec (bo : byte_order) (p : pixbuf_pixel) :
  is_guchar (px_r p) -> is_guchar (px_g p) -> is_guchar (px_b p) -> is_guchar (px_a p) ->
  exists out,
    round_trip bo p = Some out
    /\ px_a out = px_a p
    /\ (px_a p = 255 -> out = p)
    /\ (px_a p = 0 -> px_r out = 0 /\ px_g out = 0 /\ px_b out = 0)
    /\ (85 <= px_a p ->
        Z.abs (px_r out - px_r p) <= 1 /\ Z.abs (px_g out - px_g p) <= 1
        /\ Z.abs (px_b out - px_b p) <= 1)
    /\ (px_a p <> 0 ->
        2 * px_a p * Z.abs (px_r out - px_r p) <= 255 + px_a p
        /\ 2 * px_a p * Z.abs (px_g out - px_g p) <= 255 + px_a p
        /\ 2 * px_a p * Z.abs (px_b out - px_b p) <= 255 + px_a p).
Proof.
  intros Hr Hg Hb Ha.
  eexists. split; [apply round_trip_eq; assumption|]. simpl.
  destruct (channel_round_trip_bounds (px_r p) (px_a p) Hr Ha) as (R1 & R2 & R3 & R4).
  destruct (channel_round_trip_bounds (px_g p) (px_a p) Hg Ha) as (G1 & G2 & G3 & G4).
  destruct (channel_round_trip_bounds (px_b p) (px_a p) Hb Ha) as (B1 & B2 & B3 & B4).
  split; [reflexivity|].
  split; [intros H; rewrite (R1 H), (G1 H), (B1 H); destruct p; reflexivity|].
  split; [intros H; auto|].
  split; intros H; auto.
Qed.

(** ** The pixel loops *)

Lemma foldl_alter_seq {A : Type} (f : A -> A) (n : nat) (l : list A) (i : nat) :
  foldl (fun d j => alter f j d) l (seq 0 n) !! i
  = if decide (i < n)%nat then f <$> l !! i else l !! i.
Proof.
  induction n as [|n IH].
  - simpl. destruct (decide (i < 0)%nat); [lia | reflexivity].
  - rewrite seq_S, foldl_app. simpl.
    destruct (decide (i = n)) as [->|Hne].
    + rewrite list_lookup_alter_eq, IH.
      destruct (decide (n < n)%nat); [lia|].
      destruct (decide (n < S n)%nat); [reflexivity | lia].
    + rewrite list_lookup_alter_ne by congruence. rewrite IH.
      destruct (decide (i < n)%nat), (decide (i < S n)%nat); try reflexivity; lia.
Qed.

(** Every pixel of the first [width] of a row goes through
    [luminance_pixel]; the others stay. *)
Lemma luminance_row_lookup (width : nat) (opacity : Z) (row_data : list Z) (i : nat) :
  luminance_row width opacity row_data !! i
  = if decide (i < width)%nat
    then (fun pixel => luminance_pixel pixel opacity) <$> row_data !! i
    else row_data !! i.
Proof. apply foldl_alter_seq. Qed.

Lemma luminance_rows_lookup (height width : nat) (opacity : Z) (data : list (list Z))
    (row : nat) :
  luminance_rows height width opacity data !! row
  = if decide (row < height)%nat
    then luminance_row width opacity <$> data !! row
    else data !! row.
Proof. apply foldl_alter_seq. Qed.

(** The pixel of the mask surface after the luminance loop. *)
Lemma luminance_rows_pixel (height width : nat) (opacity : Z) (data : list (list Z))
    (row i : nat) :
  pixel_at (luminance_rows height width opacity data) row i
  = if decide (row < height /\ i < width)%nat
    then (fun pixel => luminance_pixel pixel opacity) <$> pixel_at data row i
    else pixel_at data row i.
Proof.
  unfold pixel_at. rewrite luminance_rows_lookup.
  destruct (decide (row < height)%nat) as [Hr|Hr].
  - destruct (data !! row) as [r|]; cbn [fmap option_fmap option_map].
    + rewrite luminance_row_lookup.
      destruct (decide (i < width)%nat), (decide (row < height /\ i < width)%nat);
        try reflexivity; lia.
    + destruct (decide _); reflexivity.
  - destruct (decide (row < height /\ i < width)%nat); [lia | reflexivity].
Qed.

Lemma luminance_rows_length (height width : nat) (opacity : Z) (data : list (list Z)) :
  length (luminance_rows height width opacity data) = length data.
Proof.
  unfold luminance_rows. generalize (seq 0 height). intros l. revert data.
  induction l as [|y l IH]; intros d; [reflexivity|].
  cbn [foldl]. rewrite IH. apply length_alter.
Qed.

Lemma premultiply_row_lookup (bo : byte_order) (row : list pixbuf_pixel) (i : nat) :
  premultiply_row bo row !! i = premultiply_pixel bo <$> row !! i.
Proof. apply list_lookup_fmap. Qed.

(** On rows that are long enough the inner loop of [convert_alpha] ends,
    and has put [convert_alpha_pixel] of each of the first [width] source
    words into the destination. *)
Lemma convert_alpha_row_spec (width : nat) (src : list Z) (dest : list pixbuf_pixel) :
  (width <= length src)%nat -> (width <= length dest)%nat ->
  Forall is_guint32 src ->
  exists d,
    convert_alpha_row width src dest = Some d
    /\ length d = length dest
    /\ forall x,
         d !! x = if decide (x < width)%nat
                  then src !! x ≫= convert_alpha_pixel
                  else dest !! x.
Proof.
  intros Hs Hd Hsrc. unfold convert_alpha_row.
  induction width as [|n IH].
  - exists dest. split; [reflexivity|]. split; [reflexivity|].
    intros x. destruct (decide (x < 0)%nat); [lia | reflexivity].
  - destruct IH as (d & Hfold & Hlen & Hlook); [lia | lia |].
    rewrite seq_S, foldl_app, Hfold. cbn [foldl Nat.add mbind option_bind].
    destruct (src !! n) as [w|] eqn:Hw;
      [|apply lookup_ge_None in Hw; lia].
    assert (Hw32 : is_guint32 w).
    { rewrite Forall_forall in Hsrc. apply Hsrc.
      apply list_elem_of_lookup. exists n. exact Hw. }
    cbn [mbind option_bind]. rewrite (convert_alpha_pixel_eq w Hw32).
    cbv zeta. cbn [mbind option_bind].
    destruct (decide (n < length d)%nat) as [Hn|Hn]; [|lia].
    eexists. split; [reflexivity|]. split; [rewrite length_insert; exact Hlen|].
    intros x. destruct (decide (x = n)) as [->|Hne].
    + rewrite list_lookup_insert_eq by exact Hn.
      destruct (decide (n < S n)%nat); [|lia].
      rewrite Hw. cbn [mbind option_bind].
      rewrite (convert_alpha_pixel_eq w Hw32). reflexivity.
    + rewrite list_lookup_insert_ne by congruence. rewrite Hlook.
      destruct (decide (x < n)%nat), (decide (x < S n)%nat); try reflexivity; lia.
Qed.

(** ** Acquiring and releasing nodes *)

Section Acquisition.
Context {D : DoubleOps} {E : Externals}.

Lemma g_slist_find_In (l : list positive) (x : positive) :
  g_slist_find l x = true <-> In x l.
Proof.
  induction l as [|y l IH]; simpl.
  - split; [discriminate | tauto].
  - destruct (Pos.eqb y x) eqn:Heq.
    + apply Pos.eqb_eq in Heq. tauto.
    + apply Pos.eqb_neq in Heq. rewrite IH. split; [tauto|]. intros [H|H]; [contradiction|exact H].
Qed.

Lemma g_slist_remove_head (l : list positive) (x : positive) :
  g_slist_remove (x :: l) x = l.
Proof. simpl. rewrite Pos.eqb_refl. reflexivity. Qed.

Lemma with_acquired_id (w : World) :
  with_acquired (acquired_nodes (ctx (store w))) w = w.
Proof. destruct w as [[c st px] lg nh]. destruct c. reflexivity. Qed.

Lemma with_acquired_twice (a b : list RsvgNode) (w : World) :
  with_acquired a (with_acquired b w) = with_acquired a w.
Proof. reflexivity. Qed.

Lemma acquired_with_acquired (a : list RsvgNode) (w : World) :
  acquired_nodes (ctx (store (with_acquired a w))) = a.
Proof. reflexivity. Qed.

(** The untyped acquisition, case by case. *)
Lemma acquire_node_eq (url : option string) (w : World) :
  let c := ctx (store w) in
  rsvg_drawing_ctx_acquire_node url w =
  match url with
  | None => Returned (None, w)
  | Some u =>
      match rsvg_defs_lookup (defs c) u with
      | None => Returned (None, w)
      | Some n =>
          if g_slist_find (acquired_nodes c) n then Returned (None, w)
          else Returned (Some n, with_acquired (n :: acquired_nodes c) w)
      end
  end.
Proof.
  intros c. unfold rsvg_drawing_ctx_acquire_node. destruct url as [u|]; [|reflexivity].
  unfold bind, get_ctx. fold c.
  destruct (rsvg_defs_lookup (defs c) u) as [n|]; [|reflexivity].
  destruct (g_slist_find (acquired_nodes c) n); reflexivity.
Qed.

Lemma release_node_head (n : RsvgNode) (rest : list RsvgNode) (w : World) :
  acquired_nodes (ctx (store w)) = n :: rest ->
  rsvg_drawing_ctx_release_node (Some n) w = Returned (tt, with_acquired rest w).
Proof.
  intros H. unfold rsvg_drawing_ctx_release_node, bind, get_ctx.
  rewrite H. rewrite Pos.eqb_refl. rewrite g_slist_remove_head. reflexivity.
Qed.

(** The typed acquisition, in one equation. *)
Lemma acquire_node_of_type_eq (url : option string) (type : RsvgNodeType) (w : World) :
  let c := ctx (store w) in
  rsvg_drawing_ctx_acquire_node_of_type url type w =
  Returned (acquirable c url type,
            match acquirable c url type with
            | Some n => with_acquired (n :: acquired_nodes c) w
            | None => w
            end).
Proof.
  intros c. unfold rsvg_drawing_ctx_acquire_node_of_type, bind.
  rewrite acquire_node_eq. fold c. unfold acquirable.
  destruct url as [u|]; [|reflexivity].
  destruct (rsvg_defs_lookup (defs c) u) as [n|]; [|reflexivity].
  destruct (g_slist_find (acquired_nodes c) n); [reflexivity|].
  destruct (node_type_eqb (rsvg_node_get_type n) type);
    cbv beta iota delta [negb bind ret]; [reflexivity|].
  rewrite (release_node_head n (acquired_nodes c)) by reflexivity.
  rewrite with_acquired_twice. unfold c. rewrite with_acquired_id. reflexivity.
Qed.

End Acquisition.

Section AcquisitionProperties.
Context {D : DoubleOps} {E : Externals}.

Lemma node_type_eqb_eq (a b : RsvgNodeType) : node_type_eqb a b = true <-> a = b.
Proof.
  destruct a, b; simpl; split; try discriminate; try reflexivity; try congruence.
  - intros H. apply Nat.eqb_eq in H. congruence.
  - intros H. injection H as ->. apply Nat.eqb_refl.
Qed.

(** C1: acquiring an identifier that resolves to a node already among the
    acquired nodes returns none and changes nothing; so does acquiring no
    identifier or an unknown one; a call that returns a node has resolved
    the identifier to it and has pushed it onto the front of the acquired
    nodes; the call always returns. *)
Theorem acquire_node_spec (url : option string) (w : World) :
  let c := ctx (store w) in
  (forall u n, url = Some u -> rsvg_defs_lookup (defs c) u = Some n ->
               In n (acquired_nodes c) ->
               rsvg_drawing_ctx_acquire_node url w = Returned (None, w))
  /\ (url = None -> rsvg_drawing_ctx_acquire_node url w = Returned (None, w))
  /\ (forall u, url = Some u -> rsvg_defs_lookup (defs c) u = None ->
                rsvg_drawing_ctx_acquire_node url w = Returned (None, w))
  /\ (forall n w', rsvg_drawing_ctx_acquire_node url w = Returned (Some n, w') ->
                   (exists u, url = Some u /\ rsvg_defs_lookup (defs c) u = Some n)
                   /\ acquired_nodes (ctx (store w')) = n :: acquired_nodes c
                   /\ w' = with_acquired (n :: acquired_nodes c) w)
  /\ (exists r w', rsvg_drawing_ctx_acquire_node url w = Returned (r, w')).
Proof.
  intros c. rewrite acquire_node_eq. fold c.
  split; [|split; [|split; [|split]]].
  - intros u n -> Hl Hin. rewrite Hl.
    apply g_slist_find_In in Hin. rewrite Hin. reflexivity.
  - intros ->. reflexivity.
  - intros u -> Hl. rewrite Hl. reflexivity.
  - intros n w' H. destruct url as [u|]; [|discriminate].
    destruct (rsvg_defs_lookup (defs c) u) as [m|] eqn:Hl; [|discriminate].
    destruct (g_slist_find (acquired_nodes c) m); [discriminate|].
    injection H as Hn Hw. subst m w'.
    split; [exists u; split; [reflexivity | exact Hl]|].
    split; reflexivity.
  - destruct url as [u|]; [|eauto].
    destruct (rsvg_defs_lookup (defs c) u) as [m|]; [|eauto].
    destruct (g_slist_find (acquired_nodes c) m); eauto.
Qed.

(** C2, as the code has it: releasing the most recently acquired node pops
    exactly that entry; releasing a node that is not the most recently
    acquired one logs a critical warning and returns, the acquired nodes
    left as they were; the process is not aborted. *)
Theorem release_node_spec (n : RsvgNode) (w : World) :
  let a := acquired_nodes (ctx (store w)) in
  (forall rest, a = n :: rest ->
                rsvg_drawing_ctx_release_node (Some n) w
                = Returned (tt, with_acquired rest w))
  /\ (hd_error a <> Some n ->
      exists check,
        rsvg_drawing_ctx_release_node (Some n) w
        = Returned (tt, {| store := store w; log := Ev_g_critical check :: log w;
                           next_handle := next_handle w |}))
  /\ rsvg_drawing_ctx_release_node (Some n) w <> Aborted.
Proof.
  intros a. split; [|split].
  - intros rest H. apply release_node_head. exact H.
  - intros H. unfold rsvg_drawing_ctx_release_node, bind, get_ctx. fold a.
    destruct a as [|m rest]; [eexists; reflexivity|].
    destruct (Pos.eqb m n) eqn:Heq.
    + apply Pos.eqb_eq in Heq. subst m. contradiction H. reflexivity.
    + eexists. reflexivity.
  - unfold rsvg_drawing_ctx_release_node, bind, get_ctx. fold a.
    destruct a as [|m rest]; [discriminate|].
    destruct (Pos.eqb m n); discriminate.
Qed.

(** C8: when the identifier resolves to a node of another kind than the
    one asked for, the typed acquisition returns none and leaves the world,
    the acquired nodes with it, as it was; on a node of the kind asked for,
    and when the untyped acquisition gives none, it does what the untyped
    acquisition does. *)
Theorem acquire_node_of_type_spec (url : option string) (type : RsvgNodeType) (w : World) :
  let c := ctx (store w) in
  (forall u n, url = Some u -> rsvg_defs_lookup (defs c) u = Some n ->
               rsvg_node_get_type n <> type ->
               rsvg_drawing_ctx_acquire_node_of_type url type w = Returned (None, w))
  /\ (forall u n, url = Some u -> rsvg_defs_lookup (defs c) u = Some n ->
                  rsvg_node_get_type n = type ->
                  rsvg_drawing_ctx_acquire_node_of_type url type w
                  = rsvg_drawing_ctx_acquire_node url w)
  /\ (forall w', rsvg_drawing_ctx_acquire_node url w = Returned (None, w') ->
                 rsvg_drawing_ctx_acquire_node_of_type url type w
                 = rsvg_drawing_ctx_acquire_node url w).
Proof.
  intros c. rewrite acquire_node_of_type_eq, acquire_node_eq. fold c.
  unfold acquirable. split; [|split].
  - intros u n -> Hl Hty. rewrite Hl.
    destruct (g_slist_find (acquired_nodes c) n); [reflexivity|].
    destruct (node_type_eqb (rsvg_node_get_type n) type) eqn:Heq; [|reflexivity].
    apply node_type_eqb_eq in Heq. contradiction.
  - intros u n -> Hl Hty. rewrite Hl.
    destruct (g_slist_find (acquired_nodes c) n); [reflexivity|].
    apply node_type_eqb_eq in Hty. rewrite Hty. reflexivity.
  - intros w' H. destruct url as [u|]; [|reflexivity].
    destruct (rsvg_defs_lookup (defs c) u) as [n|]; [|reflexivity].
    destruct (g_slist_find (acquired_nodes c) n); [reflexivity|discriminate].
Qed.

End AcquisitionProperties.

Lemma acquire_node_spec_witness :
  rsvg_drawing_ctx_acquire_node (E := Sample.externals) (Some "#mask"%string)
    (Sample.world Sample.plain [2%positive])
  = Returned (None, Sample.world Sample.plain [2%positive])
  /\ rsvg_drawing_ctx_acquire_node (E := Sample.externals) (Some "#nothing"%string)
       (Sample.world Sample.plain [])
     = Returned (None, Sample.world Sample.plain [])
  /\ acquired_nodes (ctx (store (Sample.world Sample.plain [2%positive; 1%positive])))
     = 2%positive :: acquired_nodes (ctx (store (Sample.world Sample.plain [1%positive]))).
Proof.
  split; [|split].
  - apply (proj1 (acquire_node_spec (E := Sample.externals) (Some "#mask"%string)
                    (Sample.world Sample.plain [2%positive]))
             "#mask"%string 2%positive); [reflexivity | reflexivity | simpl; tauto].
  - apply (proj1 (proj2 (proj2 (acquire_node_spec (E := Sample.externals)
                    (Some "#nothing"%string) (Sample.world Sample.plain []))))
             "#nothing"%string); reflexivity.
  - apply (proj1 (proj2 (proj1 (proj2 (proj2 (proj2
             (acquire_node_spec (E := Sample.externals) (Some "#mask"%string)
                (Sample.world Sample.plain [1%positive])))))
             2%positive (Sample.world Sample.plain [2%positive; 1%positive]) eq_refl))).
Defined.

(** A release out of order returns. *)
Lemma release_node_out_of_order_returns :
  exists w',
    rsvg_drawing_ctx_release_node (Some 2%positive)
      (Sample.world Sample.plain [1%positive; 2%positive])
    = Returned (tt, w')
    /\ acquired_nodes (ctx (store w')) = [1%positive; 2%positive].
Proof. eexists. split; reflexivity. Qed.

Lemma release_node_spec_witness :
  rsvg_drawing_ctx_release_node (Some 1%positive)
    (Sample.world Sample.plain [1%positive; 2%positive])
  = Returned (tt, Sample.world Sample.plain [2%positive])
  /\ rsvg_drawing_ctx_release_node (Some 2%positive)
       (Sample.world Sample.plain [1%positive; 2%positive]) <> Aborted.
Proof.
  split.
  - apply (proj1 (release_node_spec 1%positive
                    (Sample.world Sample.plain [1%positive; 2%positive]))
             [2%positive]). reflexivity.
  - apply (proj2 (proj2 (release_node_spec 2%positive
                    (Sample.world Sample.plain [1%positive; 2%positive])))).
Defined.

Lemma acquire_node_of_type_spec_witness :
  rsvg_drawing_ctx_acquire_node_of_type (E := Sample.externals) (Some "#rect"%string)
    RSVG_NODE_TYPE_MASK (Sample.world Sample.plain [1%positive])
  = Returned (None, Sample.world Sample.plain [1%positive])
  /\ rsvg_drawing_ctx_acquire_node_of_type (E := Sample.externals) (Some "#mask"%string)
       RSVG_NODE_TYPE_MASK (Sample.world Sample.plain [1%positive])
     = Returned (Some 2%positive, Sample.world Sample.plain [2%positive; 1%positive]).
Proof.
  split.
  - apply (proj1 (acquire_node_of_type_spec (E := Sample.externals) (Some "#rect"%string)
                    RSVG_NODE_TYPE_MASK (Sample.world Sample.plain [1%positive]))
             "#rect"%string 5%positive); [reflexivity | reflexivity | discriminate].
  - rewrite (proj1 (proj2 (acquire_node_of_type_spec (E := Sample.externals)
                    (Some "#mask"%string) RSVG_NODE_TYPE_MASK
                    (Sample.world Sample.plain [1%positive])))
             "#mask"%string 2%positive eq_refl eq_refl eq_refl).
    reflexivity.
Defined.

(** ** Running a sequence of calls *)

Section Sequencing.
Context {D : DoubleOps}.

Lemma bind_returned {A B : Type} (m : M A) (k : A -> M B) (w : World) (r : B * World) :
  bind m k w = Returned r ->
  exists a w1, m w = Returned (a, w1) /\ k a w1 = Returned r.
Proof.
  unfold bind. destruct (m w) as [[a w1]| |]; try discriminate.
  intros H. exists a, w1. split; [reflexivity | exact H].
Qed.

Lemma call_out_returned (e : event) (f : Store -> outcome Store) (w : World)
    (r : unit * World) :
  call_out e f w = Returned r ->
  exists s, f (store w) = Returned s
            /\ r = (tt, {| store := s; log := e :: log w; next_handle := next_handle w |}).
Proof.
  unfold call_out. destruct (f (store w)) as [s| |]; try discriminate.
  intros H. injection H as <-. exists s. split; reflexivity.
Qed.

Lemma g_assert_returned (b : bool) (w : World) (r : unit * World) :
  g_assert b w = Returned r -> b = true /\ r = (tt, w).
Proof.
  unfold g_assert. destruct b; [|discriminate].
  intros H. injection H as <-. split; reflexivity.
Qed.

End Sequencing.

(** Takes the first call off a sequence that returned. *)
Ltac bind_inv H a w E :=
  apply bind_returned in H; destruct H as (a & w & E & H).

Ltac prim_inv E :=
  cbv beta iota zeta delta
    [get_ctx get_store read_state ret modify_store modify_ctx emit fresh_handle
     rsvg_drawing_ctx_get_current_state rsvg_drawing_ctx_get_offset bind
     cairo_surface_create_similar cairo_create push_bounding_box
     rsvg_drawing_ctx_push_view_box when] in E;
  match type of E with
  | Returned (_, _) = Returned (?a, ?w1) =>
      first [injection E as ? ? | injection E as ?]; try subst a; try subst w1
  end.

(** ** Clip-path evaluation *)

Section Clip.
Context {D : DoubleOps} {E : Externals}.

Lemma premultiply_bbox_eq (b : RsvgBbox) (p : StatePtr) (w : World) :
  premultiply_bbox b p w =
  Returned (st_affine (states (store w) p),
            set_store
              (rsvg_state_set_affine p
                 (cairo_matrix_multiply
                    (cairo_matrix_init (rect_width (rect b)) d_zero d_zero
                                       (rect_height (rect b)) (rect_x (rect b))
                                       (rect_y (rect b)))
                    (st_affine (states (store w) p)))
                 (store w)) w).
Proof. reflexivity. Qed.

Lemma draws_children_balanced n clipping s s' :
  externals_balanced -> draws_children n clipping s s' ->
  frame (ctx s') = frame (ctx s).
Proof.
  intros (Hpush & Hpop & Hdraw & _) (s1 & s2 & H1 & H2 & H3).
  rewrite (Hpop _ _ H3), (Hdraw _ _ _ _ _ H2), (Hpush _ _ H1). reflexivity.
Qed.

Lemma draw_sequence_returned n clipping (k : M unit) w r :
  (call_out Ev_state_push rsvg_drawing_ctx_state_push ;;;
   call_out (Ev_draw_children n 0 clipping) (rsvg_node_draw_children n 0 clipping) ;;;
   call_out Ev_state_pop rsvg_drawing_ctx_state_pop ;;;
   k) w = Returned r ->
  exists s',
    draws_children n clipping (store w) s'
    /\ k {| store := s';
            log := Ev_state_pop :: Ev_draw_children n 0 clipping :: Ev_state_push :: log w;
            next_handle := next_handle w |} = Returned r.
Proof.
  intros H.
  bind_inv H u1 w1 E1. apply call_out_returned in E1. destruct E1 as (s1 & F1 & Q1).
  injection Q1 as -> ->.
  bind_inv H u2 w2 E2. apply call_out_returned in E2. destruct E2 as (s2 & F2 & Q2).
  injection Q2 as -> ->.
  bind_inv H u3 w3 E3. apply call_out_returned in E3. destruct E3 as (s3 & F3 & Q3).
  injection Q3 as -> ->.
  exists s3. split; [exists s1, s2; auto|]. exact H.
Qed.

Lemma cr_list_eqb_refl (l : list cairo_t) : cr_list_eqb l l = true.
Proof.
  induction l as [|x l IH]; [reflexivity|]. simpl. unfold cr_eqb.
  rewrite Nat.eqb_refl. exact IH.
Qed.

Lemma surface_list_eqb_refl (l : list cairo_surface_t) : surface_list_eqb l l = true.
Proof.
  induction l as [|x l IH]; [reflexivity|]. simpl. rewrite Nat.eqb_refl. exact IH.
Qed.

(** What a clip-path evaluation that returns has done. *)
Lemma rsvg_cairo_clip_returned (n : RsvgNode) (bbox_arg : option RsvgBbox)
    (w w' : World) (u : unit) :
  rsvg_cairo_clip n bbox_arg w = Returned (u, w') ->
  bbox (ctx (store w')) = bbox (ctx (store w))
  /\ ink_bbox (ctx (store w')) = ink_bbox (ctx (store w))
  /\ log w' = Ev_cairo_clip (cr (ctx (store w'))) :: Ev_state_pop
              :: Ev_draw_children n 0 true :: Ev_state_push :: log w
  /\ next_handle w' = next_handle w
  /\ (externals_balanced -> frame (ctx (store w')) = frame (ctx (store w))).
Proof.
  intros H. unfold rsvg_cairo_clip in H.
  bind_inv H u0 w0 E0. apply g_assert_returned in E0. destruct E0 as [Hty Q0].
  injection Q0 as -> ->.
  bind_inv H saved w1 E1.
  assert (Hw1 : ctx (store w1) = ctx (store w) /\ log w1 = log w
                /\ next_handle w1 = next_handle w).
  { destruct (units_is_obb (rsvg_node_clip_path_get_units n)).
    - destruct bbox_arg as [b|]; [|discriminate].
      bind_inv E1 a1 w2 E2. rewrite premultiply_bbox_eq in E2.
      injection E2 as -> <-. prim_inv E1. repeat split; reflexivity.
    - prim_inv E1. repeat split; reflexivity. }
  destruct Hw1 as (Hc1 & Hl1 & Hn1).
  bind_inv H c w2 E2. prim_inv E2.
  cbv zeta in H.
  apply draw_sequence_returned in H. destruct H as (s' & Hdraw & H).
  bind_inv H u3 w3 E3.
  assert (Hw3 : ctx (store w3) = ctx s' /\ log w3 = Ev_state_pop
              :: Ev_draw_children n 0 true :: Ev_state_push :: log w1
              /\ next_handle w3 = next_handle w1).
  { destruct saved; prim_inv E3; repeat split; reflexivity. }
  destruct Hw3 as (Hc3 & Hl3 & Hn3).
  bind_inv H c' w4 E4. prim_inv E4.
  bind_inv H u5 w5 E5. apply g_assert_returned in E5. destruct E5 as [Hcr Q5].
  injection Q5 as -> ->.
  bind_inv H u6 w6 E6. apply g_assert_returned in E6. destruct E6 as [Hsf Q6].
  injection Q6 as -> ->.
  bind_inv H u7 w7 E7. prim_inv E7.
  bind_inv H c'' w8 E8. prim_inv E8.
  prim_inv H.
  cbn [store ctx set_store set_ctx set_bboxes bbox ink_bbox log next_handle cr].
  rewrite Hc1, Hl3, Hl1, Hn3, Hn1.
  repeat split.
  intros Hbal. rewrite <- Hc1.
  rewrite <- (draws_children_balanced _ _ _ _ Hbal Hdraw). rewrite <- Hc3.
  reflexivity.
Qed.

End Clip.

Section ClipProperties.
Context {D : DoubleOps} {E : Externals}.

Lemma bind_eq {A B : Type} (m : M A) (k : A -> M B) (w w1 : World) (a : A) :
  m w = Returned (a, w1) -> bind m k w = k a w1.
Proof. intros H. unfold bind. rewrite H. reflexivity. Qed.

Lemma draw_sequence_eq n clipping (k : M unit) w s' :
  draws_children n clipping (store w) s' ->
  (call_out Ev_state_push rsvg_drawing_ctx_state_push ;;;
   call_out (Ev_draw_children n 0 clipping) (rsvg_node_draw_children n 0 clipping) ;;;
   call_out Ev_state_pop rsvg_drawing_ctx_state_pop ;;;
   k) w
  = k {| store := s';
         log := Ev_state_pop :: Ev_draw_children n 0 clipping :: Ev_state_push :: log w;
         next_handle := next_handle w |}.
Proof.
  intros (s1 & s2 & H1 & H2 & H3).
  unfold bind, call_out. rewrite H1. cbn [store log next_handle].
  rewrite H2. cbn [store log next_handle]. rewrite H3. reflexivity.
Qed.

(** C9: a clip-path evaluation that returns leaves the geometry and ink
    bounding boxes of the context as they were before the call, whatever
    the drawing of the clip path's children did to them; and it returns
    whenever the node is a clip path, a box is given for
    [objectBoundingBox] units, and the drawing of the children returns
    with the two target stacks as it found them. *)
Theorem rsvg_cairo_clip_restores_bboxes (n : RsvgNode) (bbox_arg : option RsvgBbox)
    (w : World) :
  (forall w', rsvg_cairo_clip n bbox_arg w = Returned (tt, w') ->
              bbox (ctx (store w')) = bbox (ctx (store w))
              /\ ink_bbox (ctx (store w')) = ink_bbox (ctx (store w)))
  /\ (rsvg_node_get_type n = RSVG_NODE_TYPE_CLIP_PATH ->
      (rsvg_node_clip_path_get_units n = objectBoundingBox -> bbox_arg <> None) ->
      (forall s, ctx s = ctx (store w) ->
                 exists s', draws_children n true s s'
                            /\ cr_stack (ctx s') = cr_stack (ctx s)
                            /\ surfaces_stack (ctx s') = surfaces_stack (ctx s)) ->
      exists w', rsvg_cairo_clip n bbox_arg w = Returned (tt, w')).
Proof.
  split.
  - intros w' H. apply rsvg_cairo_clip_returned in H.
    destruct H as (Hb & Hi & _). split; assumption.
  - intros Hty Hbox Hdraw. unfold rsvg_cairo_clip.
    rewrite Hty. cbn [node_type_eqb g_assert].
    rewrite (bind_eq _ _ w w tt) by reflexivity.
    assert (Hpre : exists saved w1,
               (if units_is_obb (rsvg_node_clip_path_get_units n)
                then match bbox_arg with
                     | Some b =>
                         saved <- premultiply_bbox b (rsvg_node_get_state n) ;;
                         ret (Some saved)
                     | None => undefined
                     end
                else ret None) w = Returned (saved, w1)
               /\ ctx (store w1) = ctx (store w)).
    { destruct (rsvg_node_clip_path_get_units n) eqn:Hu; cbn [units_is_obb].
      - exists None, w. split; reflexivity.
      - destruct bbox_arg as [b|]; [|contradiction (Hbox eq_refl); reflexivity].
        eexists _, _. split; [reflexivity|]. reflexivity. }
    destruct Hpre as (saved & w1 & Hpre & Hc1).
    rewrite (bind_eq _ _ _ _ _ Hpre).
    rewrite (bind_eq _ _ w1 w1 (ctx (store w1))) by reflexivity.
    cbv zeta.
    destruct (Hdraw (store w1) Hc1) as (s' & Hd & Hcr & Hsf).
    rewrite (draw_sequence_eq _ _ _ _ _ Hd).
    destruct saved as [m|];
      cbv beta iota delta [bind modify_store modify_ctx get_ctx ret emit];
      cbn [store ctx set_store set_ctx rsvg_state_set_affine cr_stack surfaces_stack];
      rewrite Hcr, Hsf, cr_list_eqb_refl, surface_list_eqb_refl;
      cbn [g_assert ret]; eexists; reflexivity.
Qed.

End ClipProperties.

Lemma rsvg_cairo_clip_restores_bboxes_witness :
  exists w',
    rsvg_cairo_clip (E := Sample.externals) 3%positive (Some Sample.drawn_box)
      (Sample.world Sample.plain [3%positive]) = Returned (tt, w')
    /\ bbox (ctx (store w')) = Sample.empty_box
    /\ ink_bbox (ctx (store w')) = Sample.empty_box.
Proof.
  destruct (proj2 (rsvg_cairo_clip_restores_bboxes (E := Sample.externals) 3%positive
                     (Some Sample.drawn_box) (Sample.world Sample.plain [3%positive])))
    as [w' H].
  - reflexivity.
  - discriminate.
  - intros s Hs. eexists. split; [|split].
    + eexists _, _. split; [reflexivity|]. split; reflexivity.
    + reflexivity.
    + reflexivity.
  - exists w'. split; [exact H|].
    exact (proj1 (rsvg_cairo_clip_restores_bboxes (E := Sample.externals) 3%positive
                    (Some Sample.drawn_box) (Sample.world Sample.plain [3%positive]))
             w' H).
Defined.

(** ** The render stack *)

Section RenderStack.
Context {D : DoubleOps} {E : Externals}.

Lemma frame_with_acquired (a : list RsvgNode) (w w0 : World) :
  frame (ctx (store w)) = frame (ctx (store (with_acquired a w0))) ->
  acquired_nodes (ctx (store w)) = a
  /\ frame (ctx (store (with_acquired (acquired_nodes (ctx (store w0))) w)))
     = frame (ctx (store w0)).
Proof.
  unfold frame. cbn [with_acquired set_store set_ctx set_acquired_nodes store ctx
                     defs acquired_nodes cr_stack surfaces_stack bb_stack ink_bb_stack].
  intros H. injection H as H1 H2 H3 H4 H5 H6.
  split; [exact H2|]. rewrite H1, H3, H4, H5, H6. reflexivity.
Qed.

Lemma release_node_returned (node : option RsvgNode) (w w' : World) (u : unit) :
  rsvg_drawing_ctx_release_node node w = Returned (u, w') ->
  next_handle w' = next_handle w
  /\ (forall p, (forall s, p (Ev_g_critical s) = false) ->
                count p (log w') = count p (log w)).
Proof.
  unfold rsvg_drawing_ctx_release_node. destruct node as [n|].
  - unfold bind, get_ctx. destruct (acquired_nodes (ctx (store w))) as [|m rest].
    + intros H. prim_inv H. split; [reflexivity|]. intros p Hp. simpl. rewrite Hp. reflexivity.
    + destruct (Pos.eqb m n); intros H; prim_inv H; split; try reflexivity;
        intros p Hp; simpl; try rewrite Hp; reflexivity.
  - intros H. prim_inv H. split; reflexivity.
Qed.

(** The clip-path block of the exit, in one equation. *)
Lemma pop_render_stack_clip_path_eq (clip : option string) (w : World) :
  let c := ctx (store w) in
  pop_render_stack_clip_path clip w =
  Returned
    match acquirable c clip RSVG_NODE_TYPE_CLIP_PATH with
    | Some n =>
        if units_is_obb (rsvg_node_clip_path_get_units n)
        then (Some n, with_acquired (n :: acquired_nodes c) w)
        else (None, w)
    | None => (None, w)
    end.
Proof.
  intros c. unfold pop_render_stack_clip_path.
  destruct clip as [u|]; [|reflexivity]. cbn [is_set].
  unfold bind at 1. rewrite acquire_node_of_type_eq. fold c.
  destruct (acquirable c (Some u) RSVG_NODE_TYPE_CLIP_PATH) as [n|]; [|reflexivity].
  destruct (units_is_obb (rsvg_node_clip_path_get_units n)); [reflexivity|].
  unfold bind.
  rewrite (release_node_head n (acquired_nodes c)) by reflexivity.
  rewrite with_acquired_twice. unfold c. rewrite with_acquired_id. reflexivity.
Qed.

(** The clip-path block of the entry, when it returns. *)
Lemma push_render_stack_clip_path_returned (clip : option string) (w w1 : World)
    (late : bool) :
  let c := ctx (store w) in
  push_render_stack_clip_path clip w = Returned (late, w1) ->
  late = match acquirable c clip RSVG_NODE_TYPE_CLIP_PATH with
         | Some n => units_is_obb (rsvg_node_clip_path_get_units n)
         | None => false
         end
  /\ next_handle w1 = next_handle w
  /\ count is_allocation (log w1) = count is_allocation (log w)
  /\ (externals_balanced -> frame (ctx (store w1)) = frame (ctx (store w))).
Proof.
  intros c H. unfold push_render_stack_clip_path in H.
  destruct clip as [u|]; cbn [is_set] in H;
    [|prim_inv H; repeat split; reflexivity].
  bind_inv H node w2 E2. rewrite acquire_node_of_type_eq in E2. fold c in E2.
  destruct (acquirable c (Some u) RSVG_NODE_TYPE_CLIP_PATH) as [n|];
    injection E2 as <- <-; [|prim_inv H; repeat split; reflexivity].
  bind_inv H late0 w3 E3. bind_inv H u4 w4 E4. prim_inv H.
  apply release_node_returned in E4 as Hrel. destruct Hrel as [Hn4 Hc4].
  destruct (rsvg_node_clip_path_get_units n) eqn:Hu; cbn [units_is_obb].
  - bind_inv E3 u5 w5 E5. prim_inv E3.
    apply rsvg_cairo_clip_returned in E5. destruct E5 as (_ & _ & Hl5 & Hn5 & Hf5).
    split; [reflexivity|]. split; [rewrite Hn4, Hn5; reflexivity|].
    split; [rewrite (Hc4 is_allocation) by reflexivity; rewrite Hl5; reflexivity|].
    intros Hbal. specialize (Hf5 Hbal).
    apply frame_with_acquired in Hf5. destruct Hf5 as [Ha Hf].
    rewrite (release_node_head n (acquired_nodes c) _ Ha) in E4.
    injection E4 as Hw. subst w4. exact Hf.
  - prim_inv E3.
    rewrite (release_node_head n (acquired_nodes c)) in E4 by reflexivity.
    injection E4 as Hw. subst w4. rewrite with_acquired_twice. unfold c.
    rewrite with_acquired_id. repeat split; reflexivity.
Qed.

End RenderStack.

Section RenderStackEntry.
Context {D : DoubleOps} {E : Externals}.

Lemma cairo_image_surface_create_returned (f : cairo_format_t) (wd ht : Z)
    (w w' : World) (s : cairo_surface_t) :
  cairo_image_surface_create f wd ht w = Returned (s, w') ->
  s = next_handle w
  /\ ctx (store w') = ctx (store w)
  /\ log w' = Ev_cairo_image_surface_create f wd ht s :: log w
  /\ next_handle w' = S (next_handle w).
Proof.
  unfold cairo_image_surface_create. intros H.
  bind_inv H s0 w0 E0. prim_inv E0.
  bind_inv H u1 w1 E1. prim_inv E1.
  bind_inv H u2 w2 E2. prim_inv H.
  destruct (status_is_success (cairo_surface_status (next_handle w)));
    prim_inv E2; repeat split; reflexivity.
Qed.

(** An entry that returns: the clip-path block ran to [w1]; on the fast
    path that is all; otherwise a surface [s] was allocated, whatever its
    status, a context [c] created on it and made the target, and the old
    target and boxes pushed. *)
Lemma push_render_stack_returned (w w' : World) :
  rsvg_cairo_push_render_stack w = Returned (tt, w') ->
  exists late w1,
    push_render_stack_clip_path (st_clip_path (current_state w)) w = Returned (late, w1)
    /\ if fast_path_condition w then w' = w1
       else
         exists s c alloc,
           log w' = Ev_cairo_surface_destroy s :: Ev_cairo_create s c :: alloc :: log w1
           /\ is_allocation alloc = true
           /\ c = {| cr_handle := S (next_handle w1); cr_target := s |}
           /\ s = next_handle w1
           /\ cr (ctx (store w')) = c
           /\ cr_stack (ctx (store w')) = cr (ctx (store w1)) :: cr_stack (ctx (store w1))
           /\ bb_stack (ctx (store w')) = bbox (ctx (store w1)) :: bb_stack (ctx (store w1))
           /\ ink_bb_stack (ctx (store w'))
              = ink_bbox (ctx (store w1)) :: ink_bb_stack (ctx (store w1)).
Proof.
  intros H. unfold rsvg_cairo_push_render_stack in H.
  bind_inv H p w0 E0. prim_inv E0.
  bind_inv H st w1 E1. prim_inv E1.
  cbv zeta in H.
  bind_inv H late w2 E2.
  change (states (store w) (state (ctx (store w)))) with (current_state w) in *.
  exists late, w2. split; [exact E2|].
  apply push_render_stack_clip_path_returned in E2.
  destruct E2 as (Hlate & _).
  assert (Hcond :
    (st_opacity (current_state w) =? 0xFF)
    && negb (is_set (st_filter (current_state w)))
    && negb (is_set (st_mask (current_state w)))
    && negb late
    && (st_comp_op (current_state w) =? CAIRO_OPERATOR_OVER)
    && eb_is_accumulate (st_enable_background (current_state w))
    = fast_path_condition w).
  { rewrite Hlate. reflexivity. }
  rewrite Hcond in H. clear Hcond Hlate.
  destruct (fast_path_condition w).
  - prim_inv H. reflexivity.
  - bind_inv H c w3 E3. prim_inv E3.
    bind_inv H surface w4 E4.
    destruct (negb (is_set (st_filter (current_state w)))).
    + prim_inv E4. prim_inv H.
      eexists _, _, _. repeat split; reflexivity.
    + bind_inv E4 s w5 E5. apply cairo_image_surface_create_returned in E5.
      destruct E5 as (Hs & Hc5 & Hl5 & Hn5). subst s.
      bind_inv E4 u6 w6 E6. prim_inv E6. prim_inv E4. prim_inv H.
      cbn [log store ctx set_store set_ctx set_cr set_cr_stack set_surfaces_stack
           set_bb_stacks set_bboxes cr cr_stack bb_stack ink_bb_stack bbox ink_bbox
           next_handle g_slist_prepend].
      rewrite Hc5, Hl5, Hn5.
      eexists _, _, _. repeat split; reflexivity.
Qed.

End RenderStackEntry.

Section RenderStackProperties.
Context {D : DoubleOps} {E : Externals}.

(** C3: on entry to a layer a surface is allocated exactly when the
    fast-path condition fails; when it holds nothing is allocated and, the
    code called from here being balanced, the target stack, the surface
    stack and the two bounding-box stacks are as before the call; when it
    fails each stack the entry pushes has its old value underneath; and an
    exit under the fast-path condition returns with nothing changed. *)
Theorem render_stack_fast_path (w : World) :
  (forall w', rsvg_cairo_push_render_stack w = Returned (tt, w') ->
     count is_allocation (log w')
     = (count is_allocation (log w) + (if fast_path_condition w then 0 else 1))%nat
     /\ (externals_balanced ->
         if fast_path_condition w then
           next_handle w' = next_handle w
           /\ cr_stack (ctx (store w')) = cr_stack (ctx (store w))
           /\ surfaces_stack (ctx (store w')) = surfaces_stack (ctx (store w))
           /\ bb_stack (ctx (store w')) = bb_stack (ctx (store w))
           /\ ink_bb_stack (ctx (store w')) = ink_bb_stack (ctx (store w))
         else
           tl (cr_stack (ctx (store w'))) = cr_stack (ctx (store w))
           /\ tl (bb_stack (ctx (store w'))) = bb_stack (ctx (store w))
           /\ tl (ink_bb_stack (ctx (store w'))) = ink_bb_stack (ctx (store w))))
  /\ (fast_path_condition w = true ->
      rsvg_cairo_pop_render_stack w = Returned (tt, w)).
Proof.
  split.
  - intros w' H. apply push_render_stack_returned in H.
    destruct H as (late & w1 & Hclip & H).
    apply push_render_stack_clip_path_returned in Hclip.
    destruct Hclip as (_ & Hn1 & Hc1 & Hf1).
    destruct (fast_path_condition w).
    + subst w'. split; [rewrite Hc1; lia|].
      intros Hbal. specialize (Hf1 Hbal). unfold frame in Hf1.
      injection Hf1 as H1 H2 H3 H4 H5 H6. auto.
    + destruct H as (s & c & alloc & Hl & Ha & _ & _ & _ & Hcr & Hbb & Hibb).
      split.
      * rewrite Hl. cbn [count is_allocation]. rewrite Ha, Hc1. lia.
      * intros Hbal. specialize (Hf1 Hbal). unfold frame in Hf1.
        injection Hf1 as H1 H2 H3 H4 H5 H6.
        rewrite Hcr, Hbb, Hibb. cbn [tl]. auto.
  - intros Hfast. unfold rsvg_cairo_pop_render_stack.
    cbv beta iota zeta delta [bind get_ctx rsvg_drawing_ctx_get_current_state read_state
                              get_store ret].
    rewrite pop_render_stack_clip_path_eq.
    change (states (store w) (state (ctx (store w)))) with (current_state w).
    unfold fast_path_condition, late_clip in Hfast.
    destruct (acquirable (ctx (store w)) (st_clip_path (current_state w))
                         RSVG_NODE_TYPE_CLIP_PATH) as [n|].
    + destruct (units_is_obb (rsvg_node_clip_path_get_units n)).
      * rewrite !andb_false_r in Hfast. discriminate.
      * cbn [is_set]. cbv zeta in Hfast. rewrite Hfast. reflexivity.
    + cbn [is_set]. cbv zeta in Hfast. rewrite Hfast. reflexivity.
Qed.

(** C4, as the code has it: in mask generation a surface that could not
    be allocated is found out at once; it is destroyed, nothing is drawn
    to it or from it, the store is as before and the call returns.  On
    entry to a layer the status of the new surface is not looked at: a
    context is created on it and becomes the target of the layer. *)
Theorem offscreen_allocation_failure (w : World) :
  (forall cr_arg mask,
     rsvg_node_get_type mask = RSVG_NODE_TYPE_MASK ->
     cairo_surface_status (next_handle w) <> CAIRO_STATUS_SUCCESS ->
     rsvg_cairo_generate_mask cr_arg mask w
     = Returned (tt, {| store := store w;
                        log := Ev_cairo_surface_destroy (next_handle w)
                               :: Ev_cairo_image_surface_create CAIRO_FORMAT_ARGB32
                                    (wrap32 (d_to_int (width (ctx (store w)))))
                                    (wrap32 (d_to_int (height (ctx (store w)))))
                                    (next_handle w)
                               :: log w;
                        next_handle := S (next_handle w) |}))
  /\ (forall w', rsvg_cairo_push_render_stack w = Returned (tt, w') ->
                 fast_path_condition w = false ->
                 exists s alloc rest,
                   log w' = Ev_cairo_surface_destroy s
                            :: Ev_cairo_create s (cr (ctx (store w'))) :: alloc :: rest
                   /\ is_allocation alloc = true
                   /\ cr_target (cr (ctx (store w'))) = s).
Proof.
  split.
  - intros cr_arg mask Hty Hst.
    assert (Hfail : status_is_success (cairo_surface_status (next_handle w)) = false).
    { destruct (cairo_surface_status (next_handle w)); [contradiction|reflexivity..]. }
    unfold rsvg_cairo_generate_mask, cairo_image_surface_create.
    rewrite Hty.
    cbv beta iota zeta delta [bind get_ctx g_assert node_type_eqb ret fresh_handle emit
                              when].
    cbn [next_handle store log]. rewrite Hfail.
    cbn [negb next_handle store log]. rewrite Hfail. reflexivity.
  - intros w' H Hslow. apply push_render_stack_returned in H.
    destruct H as (late & w1 & _ & H). rewrite Hslow in H.
    destruct H as (s & c & alloc & Hl & Ha & Hc & Hs & Hcr & _).
    exists s, alloc, (log w1). rewrite Hcr. repeat split; try assumption.
    rewrite Hc. reflexivity.
Qed.

End RenderStackProperties.

(** ** What a sequence of calls keeps *)

Section Keeps.
Context {D : DoubleOps}.
Variable R : World -> World -> Prop.
Context {R_order : PreOrder R}.

Lemma keeps_ret {A : Type} (a : A) : keeps R (ret a).
Proof. intros w b w' H. injection H as _ <-. reflexivity. Qed.

Lemma keeps_bind {A B : Type} (m : M A) (k : A -> M B) :
  keeps R m -> (forall a, keeps R (k a)) -> keeps R (bind m k).
Proof.
  intros Hm Hk w b w' H. apply bind_returned in H.
  destruct H as (a & w1 & H1 & H2).
  transitivity w1; [eapply Hm; exact H1 | eapply Hk; exact H2].
Qed.

Lemma keeps_abort {A : Type} : keeps R (@abort D A).
Proof. intros w a w' H. discriminate. Qed.

Lemma keeps_undefined {A : Type} : keeps R (@undefined D A).
Proof. intros w a w' H. discriminate. Qed.

Lemma keeps_get_ctx : keeps R get_ctx.
Proof. intros w a w' H. injection H as _ <-. reflexivity. Qed.

Lemma keeps_get_store : keeps R get_store.
Proof. intros w a w' H. injection H as _ <-. reflexivity. Qed.

Lemma keeps_get_current_state : keeps R rsvg_drawing_ctx_get_current_state.
Proof. apply keeps_bind; [apply keeps_get_ctx | intros c; apply keeps_ret]. Qed.

Lemma keeps_read_state (p : StatePtr) : keeps R (read_state p).
Proof. apply keeps_bind; [apply keeps_get_store | intros c; apply keeps_ret]. Qed.

Lemma keeps_get_offset : keeps R rsvg_drawing_ctx_get_offset.
Proof. apply keeps_bind; [apply keeps_get_ctx | intros c; apply keeps_ret]. Qed.

Lemma keeps_g_assert (b : bool) : keeps R (g_assert b).
Proof. destruct b; [apply keeps_ret | apply keeps_abort]. Qed.

Lemma keeps_when (b : bool) (m : M unit) : keeps R m -> keeps R (when b m).
Proof. intros H. destruct b; [exact H | apply keeps_ret]. Qed.

Lemma keeps_modify_store (f : Store -> Store) :
  (forall w, R w (set_store (f (store w)) w)) -> keeps R (modify_store f).
Proof. intros Hf w a w' H. injection H as _ <-. apply Hf. Qed.

Lemma keeps_emit (e : event) :
  (forall w, R w {| store := store w; log := e :: log w;
                    next_handle := next_handle w |}) ->
  keeps R (emit e).
Proof. intros He w a w' H. injection H as _ <-. apply He. Qed.

Lemma keeps_fresh_handle :
  (forall w, R w {| store := store w; log := log w;
                    next_handle := S (next_handle w) |}) ->
  keeps R fresh_handle.
Proof. intros Hf w a w' H. injection H as _ <-. apply Hf. Qed.

Lemma keeps_call_out (e : event) (f : Store -> outcome Store) :
  (forall w s, f (store w) = Returned s ->
               R w {| store := s; log := e :: log w; next_handle := next_handle w |}) ->
  keeps R (call_out e f).
Proof.
  intros Hf w a w' H. apply call_out_returned in H.
  destruct H as (s & Hs & Hw). injection Hw as _ ->. apply Hf. exact Hs.
Qed.

Lemma keeps_call_out_with {A : Type} (e : event) (f : Store -> outcome (A * Store)) :
  (forall w a s, f (store w) = Returned (a, s) ->
                 R w {| store := s; log := e :: log w; next_handle := next_handle w |}) ->
  keeps R (call_out_with e f).
Proof.
  intros Hf w a w' H. unfold call_out_with in H.
  destruct (f (store w)) as [[b s]| |] eqn:Hs; try discriminate.
  injection H as _ <-. eapply Hf. exact Hs.
Qed.

End Keeps.

#[export] Instance same_count_order {D : DoubleOps} (p : event -> bool) :
  PreOrder (same_count p).
Proof.
  split.
  - intros w. reflexivity.
  - intros a b c Hab Hbc. unfold same_count in *. congruence.
Qed.

#[export] Instance same_resolution_order {D : DoubleOps} : PreOrder same_resolution.
Proof.
  split.
  - intros w. split; reflexivity.
  - intros a b c [H1 H2] [H3 H4]. unfold same_resolution. split; congruence.
Qed.

(** Splits a goal along the sequence and its branches, down to the calls
    whose effect a lemma of the hint database [keeps] states. *)
Create HintDb keeps discriminated.

Ltac keeps_step :=
  match goal with
  | |- keeps ?R (bind _ _) => apply (keeps_bind R); [|intros ?; cbv beta zeta]
  | |- keeps ?R (ret _) => apply (keeps_ret R)
  | |- keeps _ abort => apply keeps_abort
  | |- keeps _ undefined => apply keeps_undefined
  | |- keeps ?R get_ctx => apply (keeps_get_ctx R)
  | |- keeps ?R get_store => apply (keeps_get_store R)
  | |- keeps ?R rsvg_drawing_ctx_get_current_state => apply (keeps_get_current_state R)
  | |- keeps ?R (read_state _) => apply (keeps_read_state R)
  | |- keeps ?R rsvg_drawing_ctx_get_offset => apply (keeps_get_offset R)
  | |- keeps ?R (g_assert _) => apply (keeps_g_assert R)
  | |- keeps ?R (when _ _) => apply (keeps_when R)
  | |- keeps _ (modify_store _) => apply keeps_modify_store; intros ?
  | |- keeps _ (modify_ctx _) => apply keeps_modify_store; intros ?
  | |- keeps _ (emit _) => apply keeps_emit; intros ?
  | |- keeps _ fresh_handle => apply keeps_fresh_handle; intros ?
  | |- keeps _ (call_out _ _) => apply keeps_call_out; intros ? ? ?
  | |- keeps _ (call_out_with _ _) => apply keeps_call_out_with; intros ? ? ? ?
  | |- keeps _ (if ?b then _ else _) => destruct b
  | |- keeps _ (match ?x with _ => _ end) => destruct x
  | |- keeps _ _ => solve [auto with keeps]
  end.

Ltac keeps_run := repeat keeps_step.

(** ** What the calls keep of the counts *)

Section Counts.
Context {D : DoubleOps} {E : Externals}.

Lemma is_paint_counts_drawing : counts_drawing is_paint.
Proof. intros e _ H. destruct e; try reflexivity; discriminate. Qed.

Lemma is_composite_counts_drawing : counts_drawing is_composite.
Proof. intros e _ H. exact H. Qed.

Lemma is_allocation_counts_drawing : counts_drawing is_allocation.
Proof. intros e H _. exact H. Qed.

Lemma same_count_cons (p : event -> bool) (e : event) (s : Store) (w : World) (n : nat) :
  p e = false ->
  same_count p w {| store := s; log := e :: log w; next_handle := n |}.
Proof. intros H. unfold same_count. cbn [log count]. rewrite H. reflexivity. Qed.

Lemma same_count_log (p : event -> bool) (w w' : World) :
  log w' = log w -> same_count p w w'.
Proof. intros H. unfold same_count. rewrite H. reflexivity. Qed.

Variable p : event -> bool.
Hypothesis p_drawing : counts_drawing p.

Lemma keeps_count_acquire_node_of_type url type :
  keeps (same_count p) (rsvg_drawing_ctx_acquire_node_of_type url type).
Proof.
  intros w a w' H. rewrite acquire_node_of_type_eq in H. injection H as _ <-.
  apply same_count_log.
  destruct (acquirable (ctx (store w)) url type); reflexivity.
Qed.

Lemma keeps_count_release_node node :
  keeps (same_count p) (rsvg_drawing_ctx_release_node node).
Proof.
  intros w a w' H. apply release_node_returned in H. destruct H as [_ H].
  apply H. intros s. apply p_drawing; reflexivity.
Qed.

Lemma keeps_count_clip n b : keeps (same_count p) (rsvg_cairo_clip n b).
Proof.
  intros w a w' H. apply rsvg_cairo_clip_returned in H.
  destruct H as (_ & _ & Hl & _). unfold same_count. rewrite Hl.
  cbn [count]. rewrite !p_drawing by reflexivity. reflexivity.
Qed.

Lemma keeps_count_pop_bounding_box : keeps (same_count p) pop_bounding_box.
Proof.
  unfold pop_bounding_box. keeps_run; apply same_count_log; reflexivity.
Qed.

Hint Resolve keeps_count_acquire_node_of_type keeps_count_release_node
  keeps_count_clip keeps_count_pop_bounding_box : keeps.

Lemma keeps_count_filter filter s0 :
  keeps (same_count p) (pop_render_stack_filter filter s0).
Proof.
  unfold pop_render_stack_filter. keeps_run;
    first [apply same_count_log; reflexivity
          | apply same_count_cons; apply p_drawing; reflexivity].
Qed.

End Counts.

(** ** Leaving a layer *)

#[export] Instance steady_order {D : DoubleOps} {E : Externals} : PreOrder steady.
Proof.
  split.
  - intros w. split; intros; reflexivity.
  - intros a b c [H1 H2] [H3 H4]. split.
    + intros p Hp. transitivity b; auto.
    + intros Hb. transitivity b; auto.
Qed.

Section RenderStackExit.
Context {D : DoubleOps} {E : Externals}.

Lemma steady_store (f : Store -> Store) (w : World) :
  defs (ctx (f (store w))) = defs (ctx (store w)) ->
  acquired_nodes (ctx (f (store w))) = acquired_nodes (ctx (store w)) ->
  steady w (set_store (f (store w)) w).
Proof.
  intros Hd Ha. split.
  - intros p _. apply same_count_log. reflexivity.
  - intros _. split; assumption.
Qed.

Lemma steady_emit (e : event) (w : World) :
  is_allocation e = false -> is_composite e = false ->
  steady w {| store := store w; log := e :: log w; next_handle := next_handle w |}.
Proof.
  intros H1 H2. split.
  - intros p Hp. apply same_count_cons. apply Hp; assumption.
  - intros _. split; reflexivity.
Qed.

Lemma frame_resolution (c c' : RsvgDrawingCtx) :
  frame c' = frame c ->
  defs c' = defs c /\ acquired_nodes c' = acquired_nodes c.
Proof. unfold frame. intros H. injection H as H1 H2 _ _ _ _. split; assumption. Qed.

Lemma acquirable_resolution (c c' : RsvgDrawingCtx) url type :
  defs c' = defs c -> acquired_nodes c' = acquired_nodes c ->
  acquirable c' url type = acquirable c url type.
Proof. intros Hd Ha. unfold acquirable. rewrite Hd, Ha. reflexivity. Qed.

(** A call that is steady, then the release of the node acquired last. *)
Lemma call_then_release {A : Type} (m : M A) (n : RsvgNode) (rest : list RsvgNode)
    (w w1 w2 : World) (a : A) (u : unit) :
  keeps steady m ->
  m w = Returned (a, w1) ->
  rsvg_drawing_ctx_release_node (Some n) w1 = Returned (u, w2) ->
  (forall p, counts_drawing p -> same_count p w w2)
  /\ (externals_balanced ->
      acquired_nodes (ctx (store w)) = n :: rest ->
      defs (ctx (store w2)) = defs (ctx (store w))
      /\ acquired_nodes (ctx (store w2)) = rest).
Proof.
  intros Hk Hm Hr. destruct (Hk _ _ _ Hm) as [Hc Hres]. split.
  - intros p Hp. transitivity w1; [apply Hc; exact Hp|].
    apply (keeps_count_release_node p Hp _ _ _ _ Hr).
  - intros Hbal Ha. destruct (Hres Hbal) as [Hd Ha1]. rewrite Ha in Ha1.
    rewrite (release_node_head n rest _ Ha1) in Hr. injection Hr as _ <-.
    split; [exact Hd | reflexivity].
Qed.

Lemma steady_clip n b : keeps steady (rsvg_cairo_clip n b).
Proof.
  intros w a w' H. split.
  - intros p Hp. apply (keeps_count_clip p Hp _ _ _ _ _ H).
  - intros Hbal. destruct a. apply rsvg_cairo_clip_returned in H.
    destruct H as (_ & _ & _ & _ & Hf). apply frame_resolution. auto.
Qed.

Lemma steady_filter_render n output :
  keeps steady (call_out_with (Ev_filter_render n output) (rsvg_filter_render n output)).
Proof.
  apply keeps_call_out_with. intros w a s H. split.
  - intros p Hp. apply same_count_cons. apply Hp; reflexivity.
  - intros (_ & _ & _ & _ & Hr). apply frame_resolution. eapply Hr. exact H.
Qed.


Lemma steady_filter filter s0 : keeps steady (pop_render_stack_filter filter s0).
Proof.
  intros w r w' H. unfold pop_render_stack_filter in H.
  destruct (is_set filter); [|prim_inv H; reflexivity].
  bind_inv H c w0 E0. prim_inv E0.
  destruct (surfaces_stack (ctx (store w))) as [|output rest]; [discriminate|].
  bind_inv H u1 w1 E1. prim_inv E1.
  transitivity (set_store (set_ctx (set_surfaces_stack rest (ctx (store w))) (store w)) w);
    [apply (steady_store (fun s => set_ctx (set_surfaces_stack rest (ctx s)) s));
     reflexivity|].
  bind_inv H node w2 E2. rewrite acquire_node_of_type_eq in E2.
  match type of E2 with
  | Returned (?x, _) = _ => destruct x as [n|]
  end; injection E2 as <- <-; [|prim_inv H; reflexivity].
  bind_inv H rendered w3 E3. bind_inv H u4 w4 E4. prim_inv H.
  match type of E3 with
  | _ (with_acquired (n :: ?a) ?w0) = _ =>
      destruct (call_then_release _ n a _ _ _ _ _
                  (steady_filter_render n output) E3 E4) as [Hc Hr]
  end.
  split; [exact Hc|].
  intros Hbal. destruct (Hr Hbal eq_refl) as [Hd Ha]. split; assumption.
Qed.

Lemma steady_pop_clip_path clip (w w1 : World) (lateclip : option RsvgNode) :
  pop_render_stack_clip_path clip w = Returned (lateclip, w1) ->
  log w1 = log w
  /\ defs (ctx (store w1)) = defs (ctx (store w))
  /\ acquired_nodes (ctx (store w1))
     = match lateclip with
       | Some n => n :: acquired_nodes (ctx (store w))
       | None => acquired_nodes (ctx (store w))
       end.
Proof.
  rewrite pop_render_stack_clip_path_eq.
  destruct (acquirable (ctx (store w)) clip RSVG_NODE_TYPE_CLIP_PATH) as [n|].
  - destruct (units_is_obb (rsvg_node_clip_path_get_units n));
      intros H; injection H as <- <-; repeat split; reflexivity.
  - intros H; injection H as <- <-; repeat split; reflexivity.
Qed.

#[local] Hint Resolve steady_filter steady_clip : keeps.

Ltac steady_side :=
  first [ apply steady_emit; reflexivity
        | split; [intros ? ?; apply same_count_log; reflexivity
                 | intros ?; split; reflexivity] ].

(** Takes the first call off the sequence in [H] and keeps of it only that
    it is steady. *)
Ltac advance H w1 E :=
  let a := fresh "a" in
  let K := fresh "K" in
  apply bind_returned in H; destruct H as (a & w1 & E & H);
  match type of E with
  | ?m _ = Returned _ =>
      assert (K : keeps steady m) by (keeps_run; steady_side); apply K in E; clear K
  end.

(** An exit off the fast path, up to the block that composites and after
    it. *)
Lemma pop_render_stack_slow (w w' : World) :
  rsvg_cairo_pop_render_stack w = Returned (tt, w') ->
  fast_path_condition w = false ->
  exists wc wc',
    pop_render_stack_composite (st_mask (current_state w))
                               (st_opacity (current_state w)) wc
    = Returned (tt, wc')
    /\ steady w wc
    /\ (forall p, counts_drawing p -> same_count p wc' w').
Proof.
  intros H Hslow. unfold rsvg_cairo_pop_render_stack in H.
  bind_inv H c0 w0 E0. prim_inv E0.
  bind_inv H p0 w1 E1. prim_inv E1.
  bind_inv H st w2 E2. prim_inv E2.
  cbv zeta in H.
  change (states (store w) (state (ctx (store w)))) with (current_state w) in *.
  bind_inv H lateclip w3 E3.
  assert (Hcond :
    (st_opacity (current_state w) =? 0xFF)
    && negb (is_set (st_filter (current_state w)))
    && negb (is_set (st_mask (current_state w)))
    && negb (is_set lateclip)
    && (st_comp_op (current_state w) =? CAIRO_OPERATOR_OVER)
    && eb_is_accumulate (st_enable_background (current_state w))
    = fast_path_condition w).
  { rewrite pop_render_stack_clip_path_eq in E3.
    unfold fast_path_condition, late_clip. cbv zeta.
    destruct (acquirable (ctx (store w)) (st_clip_path (current_state w))
                         RSVG_NODE_TYPE_CLIP_PATH) as [n|].
    - destruct (units_is_obb (rsvg_node_clip_path_get_units n));
        injection E3 as <- <-; reflexivity.
    - injection E3 as <- <-; reflexivity. }
  rewrite Hcond, Hslow in H. clear Hcond.
  apply steady_pop_clip_path in E3. destruct E3 as (Hl3 & Hd3 & Ha3).
  advance H w4 E4. advance H w5 E5. advance H w6 E6. advance H w7 E7.
  advance H w8 E8. advance H w9 E9. advance H w10 E10.
  assert (Hpre : steady w3 w10).
  { transitivity w4; [exact E4|]. transitivity w5; [exact E5|].
    transitivity w6; [exact E6|]. transitivity w7; [exact E7|].
    transitivity w8; [exact E8|]. transitivity w9; [exact E9|]. exact E10. }
  clear E4 E5 E6 E7 E8 E9 E10.
  bind_inv H u11 w11 E11.
  assert (Hlate : steady w w11).
  { destruct Hpre as [Hc Hr]. destruct lateclip as [n|].
    - bind_inv E11 c w12 E12. prim_inv E12.
      bind_inv E11 u13 w13 E13.
      destruct (call_then_release _ n (acquired_nodes (ctx (store w))) _ _ _ _ _
                  (steady_clip n _) E13 E11) as [Hc' Hr'].
      split.
      + intros p Hp. transitivity w10; [|apply Hc'; exact Hp].
        transitivity w3; [apply same_count_log; exact Hl3 | apply Hc; exact Hp].
      + intros Hbal. destruct (Hr Hbal) as [Hd9 Ha9].
        destruct (Hr' Hbal) as [Hd Ha]; [rewrite Ha9; exact Ha3|].
        split; [rewrite Hd, Hd9; exact Hd3 | exact Ha].
    - prim_inv E11. split.
      + intros p Hp. transitivity w3; [apply same_count_log; exact Hl3 | apply Hc; exact Hp].
      + intros Hbal. destruct (Hr Hbal) as [Hd9 Ha9].
        split; [rewrite Hd9; exact Hd3 | rewrite Ha9; exact Ha3]. }
  advance H w12 E12. advance H w13 E13.
  bind_inv H u14 wc' Ec. destruct u14.
  exists w13, wc'. split; [exact Ec|]. split.
  - transitivity w11; [exact Hlate|]. transitivity w12; assumption.
  - intros p Hp.
    match type of H with
    | ?m _ = Returned _ => assert (K : keeps (same_count p) m)
    end.
    { keeps_run; first [apply same_count_cons; apply Hp; reflexivity
                       | apply keeps_count_pop_bounding_box]. }
    apply (K _ _ _ H).
Qed.

End RenderStackExit.

Section RenderStackExitProperties.
Context {D : DoubleOps} {E : Externals}.

Lemma keeps_paint_generate_mask cr_arg mask :
  keeps (same_count is_paint) (rsvg_cairo_generate_mask cr_arg mask).
Proof.
  unfold rsvg_cairo_generate_mask, cairo_image_surface_create, cairo_create,
    premultiply_bbox, rsvg_drawing_ctx_push_view_box, rsvg_drawing_ctx_pop_view_box.
  cbv zeta.
  keeps_run;
    first [ apply same_count_log; reflexivity
          | apply same_count_cons; reflexivity ].
Qed.

Lemma keeps_paint_composite_masked mask opacity :
  is_set mask = true ->
  keeps (same_count is_paint) (pop_render_stack_composite mask opacity).
Proof.
  intros Hm. unfold pop_render_stack_composite. rewrite Hm.
  pose proof (keeps_count_acquire_node_of_type is_paint) as K1.
  pose proof (keeps_count_release_node is_paint is_paint_counts_drawing) as K2.
  pose proof keeps_paint_generate_mask as K3.
  keeps_run.
Qed.

Lemma composite_unmasked opacity (w w' : World) :
  pop_render_stack_composite None opacity w = Returned (tt, w') ->
  exists e, log w' = e :: log w /\ is_paint e = true.
Proof.
  unfold pop_render_stack_composite. cbn [is_set].
  destruct (negb (opacity =? 255)); intros H; prim_inv H; eexists; split; reflexivity.
Qed.

(** C10: on an exit off the fast path with a mask reference set, neither
    [cairo_paint] nor [cairo_paint_with_alpha] is called; if moreover the
    mask cannot be acquired (its identifier is unknown, names a node of
    another kind, or names a node under resolution), the code called from
    here being balanced, the layer is not composited at all; with no mask
    reference set, one of the two paint calls is made. *)
Theorem pop_render_stack_mask_unavailable (w w' : World) :
  rsvg_cairo_pop_render_stack w = Returned (tt, w') ->
  (is_set (st_mask (current_state w)) = true ->
   count is_paint (log w') = count is_paint (log w)
   /\ (externals_balanced ->
       acquirable (ctx (store w)) (st_mask (current_state w)) RSVG_NODE_TYPE_MASK = None ->
       count is_composite (log w') = count is_composite (log w)))
  /\ (st_mask (current_state w) = None -> fast_path_condition w = false ->
      count is_paint (log w') = S (count is_paint (log w))).
Proof.
  intros H. split.
  - intros Hm.
    assert (Hslow : fast_path_condition w = false).
    { unfold fast_path_condition. cbv zeta. rewrite Hm. cbn [negb].
      rewrite andb_false_r. reflexivity. }
    apply pop_render_stack_slow in H; [|exact Hslow].
    destruct H as (wc & wc' & Hc & [Hpre Hres] & Hpost). split.
    + transitivity (count is_paint (log wc')); [apply Hpost, is_paint_counts_drawing|].
      transitivity (count is_paint (log wc)); [|apply Hpre, is_paint_counts_drawing].
      apply (keeps_paint_composite_masked _ _ Hm _ _ _ Hc).
    + intros Hbal Hacq. destruct (Hres Hbal) as [Hd Ha].
      assert (Heq : wc' = wc).
      { unfold pop_render_stack_composite in Hc. rewrite Hm in Hc.
        bind_inv Hc node w1 E1. rewrite acquire_node_of_type_eq in E1.
        rewrite (acquirable_resolution _ _ _ _ Hd Ha), Hacq in E1.
        injection E1 as <- <-. prim_inv Hc. reflexivity. }
      subst wc'.
      transitivity (count is_composite (log wc));
        [apply Hpost, is_composite_counts_drawing|].
      apply Hpre, is_composite_counts_drawing.
  - intros Hm Hslow.
    apply pop_render_stack_slow in H; [|exact Hslow].
    destruct H as (wc & wc' & Hc & [Hpre _] & Hpost).
    rewrite Hm in Hc. apply composite_unmasked in Hc. destruct Hc as (e & Hl & He).
    rewrite (Hpost is_paint is_paint_counts_drawing).
    rewrite Hl. cbn [count]. rewrite He.
    rewrite (Hpre is_paint is_paint_counts_drawing). reflexivity.
Qed.

End RenderStackExitProperties.

(** ** The properties on the sample document *)

Lemma sample_externals_balanced (status : cairo_surface_t -> cairo_status_t) :
  externals_balanced (E := Sample.externals_with status).
Proof.
  unfold externals_balanced, balanced.
  cbn [rsvg_drawing_ctx_state_push rsvg_drawing_ctx_state_pop rsvg_node_draw_children
       rsvg_cairo_add_clipping_rect rsvg_filter_render Sample.externals_with].
  unfold Sample.draw_children.
  split; [|split; [|split; [|split]]].
  - intros s s' H. injection H as <-. reflexivity.
  - intros s s' H. injection H as <-. reflexivity.
  - intros n d c s s' H. injection H as <-. reflexivity.
  - intros m x y w h s s' H. injection H as <-. reflexivity.
  - intros n o s r s' H. injection H as _ <-. reflexivity.
Qed.

(** A word that is not premultiplied, its red above its alpha: the byte
    stored is the low byte of the quotient. *)
Lemma convert_alpha_truncates :
  convert_alpha_pixel 0x01FF0000
  = Some {| px_r := 1; px_g := 0; px_b := 0; px_a := 1 |}
  /\ (0xFF * 255 + 1 / 2) / 1 = 65025.
Proof. split; reflexivity. Qed.


(** At alpha 0 the colour is lost, and at alpha 1 a red of 100 comes back
    as 0. *)
Lemma round_trip_loses_colour :
  round_trip G_LITTLE_ENDIAN {| px_r := 255; px_g := 0; px_b := 0; px_a := 0 |}
  <> Some {| px_r := 255; px_g := 0; px_b := 0; px_a := 0 |}
  /\ round_trip G_LITTLE_ENDIAN {| px_r := 100; px_g := 0; px_b := 0; px_a := 1 |}
     = Some {| px_r := 0; px_g := 0; px_b := 0; px_a := 1 |}.
Proof. split; [discriminate | reflexivity]. Qed.

Lemma round_trip_spec_witness :
  is_guchar 200 /\ is_guchar 100 /\ is_guchar 50 /\ is_guchar 255
  /\ round_trip G_BIG_ENDIAN {| px_r := 200; px_g := 100; px_b := 50; px_a := 255 |}
     = Some {| px_r := 200; px_g := 100; px_b := 50; px_a := 255 |}.
Proof.
  assert (H1 : is_guchar 200) by (unfold is_guchar; lia).
  assert (H2 : is_guchar 100) by (unfold is_guchar; lia).
  assert (H3 : is_guchar 50) by (unfold is_guchar; lia).
  assert (H4 : is_guchar 255) by (unfold is_guchar; lia).
  repeat (split; [assumption|]).
  destruct (round_trip_spec G_BIG_ENDIAN
              {| px_r := 200; px_g := 100; px_b := 50; px_a := 255 |} H1 H2 H3 H4)
    as (out & Hout & _ & Hexact & _).
  rewrite Hout. f_equal. apply Hexact. reflexivity.
Defined.

Lemma render_stack_fast_path_witness :
  rsvg_cairo_push_render_stack (E := Sample.externals) (Sample.world Sample.plain [])
  = Returned (tt, Sample.world Sample.plain [])
  /\ rsvg_cairo_pop_render_stack (E := Sample.externals) (Sample.world Sample.plain [])
     = Returned (tt, Sample.world Sample.plain [])
  /\ count is_allocation (log Sample.translucent_entered) = 1%nat
  /\ tl (cr_stack (ctx (store Sample.translucent_entered))) = [].
Proof.
  split; [reflexivity|]. split.
  - apply (proj2 (render_stack_fast_path (E := Sample.externals)
                    (Sample.world Sample.plain []))). reflexivity.
  - destruct (proj1 (render_stack_fast_path (E := Sample.externals)
                       (Sample.world Sample.translucent []))
                Sample.translucent_entered eq_refl) as [Hcount Hstacks].
    split; [exact Hcount|].
    exact (proj1 (Hstacks (sample_externals_balanced _))).
Defined.

(** With no memory for the surface the layer is entered all the same: the
    surface that failed is the target of the new context. *)
Lemma push_render_stack_uses_failed_surface :
  rsvg_cairo_push_render_stack (E := Sample.externals_no_memory)
    (Sample.world Sample.translucent [])
  = Returned (tt, Sample.translucent_entered_no_memory)
  /\ cairo_surface_status (Externals := Sample.externals_no_memory)
       (cr_target (cr (ctx (store Sample.translucent_entered_no_memory))))
     = CAIRO_STATUS_NO_MEMORY
  /\ cr_stack (ctx (store Sample.translucent_entered_no_memory)) = [Sample.root_cr]
  /\ log Sample.translucent_entered_no_memory
     = [Ev_cairo_surface_destroy 1%nat;
        Ev_cairo_create 1%nat {| cr_handle := 2%nat; cr_target := 1%nat |};
        Ev_cairo_surface_create_similar 0%nat 4 3 1%nat].
Proof. repeat split; reflexivity. Qed.

Lemma offscreen_allocation_failure_witness :
  rsvg_node_get_type (Externals := Sample.externals_no_memory) 2%positive = RSVG_NODE_TYPE_MASK
  /\ cairo_surface_status (Externals := Sample.externals_no_memory) 1%nat <> CAIRO_STATUS_SUCCESS
  /\ rsvg_cairo_generate_mask (E := Sample.externals_no_memory) Sample.root_cr 2%positive
       (Sample.world Sample.plain [2%positive])
     = Returned (tt, {| store := store (Sample.world Sample.plain [2%positive]);
                        log := [Ev_cairo_surface_destroy 1%nat;
                                Ev_cairo_image_surface_create CAIRO_FORMAT_ARGB32 4 3 1%nat];
                        next_handle := 2%nat |})
  /\ cr_target (cr (ctx (store Sample.translucent_entered_no_memory))) = 1%nat.
Proof.
  split; [reflexivity|]. split; [discriminate|]. split.
  - apply (proj1 (offscreen_allocation_failure (E := Sample.externals_no_memory)
                    (Sample.world Sample.plain [2%positive]))
             Sample.root_cr 2%positive eq_refl). discriminate.
  - destruct (proj2 (offscreen_allocation_failure (E := Sample.externals_no_memory)
                       (Sample.world Sample.translucent []))
                Sample.translucent_entered_no_memory eq_refl eq_refl)
      as (s & alloc & rest & Hl & _ & Ht).
    rewrite Ht. injection Hl as Hs _. symmetry. exact Hs.
Defined.

Lemma pop_render_stack_mask_unavailable_witness :
  rsvg_cairo_pop_render_stack (E := Sample.externals) Sample.masked_entered
  = Returned (tt, Sample.masked_left)
  /\ count is_paint (log Sample.masked_left) = count is_paint (log Sample.masked_entered)
  /\ count is_composite (log Sample.masked_left)
     = count is_composite (log Sample.masked_entered).
Proof.
  split; [reflexivity|].
  destruct (proj1 (pop_render_stack_mask_unavailable (E := Sample.externals)
                     Sample.masked_entered Sample.masked_left eq_refl) eq_refl)
    as [Hpaint Hcomp].
  split; [exact Hpaint|].
  exact (Hcomp (sample_externals_balanced _) eq_refl).
Defined.

(** * Further properties of the code *)

(** ** More on the pixel conversions *)

Lemma mult_check_all :
  forallb (fun a => forallb (fun c => mult_check c a) bytes) bytes = true.
Proof. vm_compute. reflexivity. Qed.

(** X1: [MULT] is the product of two bytes over 255 to within 128/255; it is
    exact at 0 and at 255, does not depend on the order of its operands and
    exceeds neither. *)
Theorem MULT_rounded_product (c a : Z) :
  is_guchar c -> is_guchar a ->
  Z.abs (255 * MULT c a - c * a) <= 128
  /\ MULT c a <= a /\ MULT c a <= c
  /\ MULT c a = MULT a c
  /\ MULT c 255 = c /\ MULT c 0 = 0.
Proof.
  intros Hc Ha.
  assert (H255 : is_guchar 255) by (unfold is_guchar; lia).
  assert (H0 : is_guchar 0) by (unfold is_guchar; lia).
  assert (K : forall x y, is_guchar x -> is_guchar y -> mult_check x y = true).
  { intros x y Hx Hy. pose proof mult_check_all as H.
    rewrite forallb_forall in H. specialize (H y (elem_of_bytes y Hy)).
    rewrite forallb_forall in H. exact (H x (elem_of_bytes x Hx)). }
  pose proof (K c a Hc Ha) as H1.
  pose proof (K c 255 Hc H255) as H2.
  pose proof (K c 0 Hc H0) as H3.
  unfold mult_check in H1, H2, H3. cbv zeta in H1, H2, H3.
  rewrite !andb_true_iff in H1, H2, H3.
  destruct H1 as ((((( E1 & E2) & E3) & E4) & _) & _).
  destruct H2 as ((_ & E5) & _).
  destruct H3 as (_ & E6).
  change (255 =? 255) with true in E5. change (0 =? 0) with true in E6.
  cbv iota in E5, E6.
  apply Z.leb_le in E1, E2, E3. apply Z.eqb_eq in E4, E5, E6.
  repeat split; assumption.
Qed.

Lemma MULT_rounded_product_witness :
  MULT 200 128 = 100 /\ Z.abs (255 * MULT 200 128 - 200 * 128) <= 128
  /\ MULT 200 128 = MULT 128 200.
Proof.
  assert (H200 : is_guchar 200) by (unfold is_guchar; lia).
  assert (H128 : is_guchar 128) by (unfold is_guchar; lia).
  destruct (MULT_rounded_product 200 128 H200 H128) as (H1 & _ & _ & H4 & _).
  split; [reflexivity|]. split; [exact H1 | exact H4].
Defined.

Lemma MULT_facts (c a : Z) :
  is_guchar c -> is_guchar a ->
  MULT c a <= a /\ MULT c 255 = c /\ MULT c 0 = 0.
Proof.
  intros Hc Ha.
  assert (H255 : is_guchar 255) by (unfold is_guchar; lia).
  assert (H0 : is_guchar 0) by (unfold is_guchar; lia).
  assert (K : forall x y, is_guchar x -> is_guchar y -> mult_check x y = true).
  { intros x y Hx Hy. pose proof mult_check_all as H.
    rewrite forallb_forall in H. specialize (H y (elem_of_bytes y Hy)).
    rewrite forallb_forall in H. exact (H x (elem_of_bytes x Hx)). }
  pose proof (K c a Hc Ha) as H1.
  pose proof (K c 255 Hc H255) as H2.
  pose proof (K c 0 Hc H0) as H3.
  unfold mult_check in H1, H2, H3. cbv zeta in H1, H2, H3.
  rewrite !andb_true_iff in H1, H2, H3.
  destruct H1 as ((((( _ & E2) & _) & _) & _) & _).
  destruct H2 as ((_ & E5) & _).
  destruct H3 as (_ & E6).
  change (255 =? 255) with true in E5. change (0 =? 0) with true in E6.
  cbv iota in E5, E6.
  apply Z.leb_le in E2. apply Z.eqb_eq in E5, E6.
  repeat split; assumption.
Qed.

(** X2: the word that [rsvg_cairo_surface_from_pixbuf] stores for a pixel
    with alpha is a premultiplied one in either byte order: its alpha byte is
    the pixel's, no colour byte exceeds it, a transparent pixel gives the word
    0 and an opaque one keeps its colour bytes. *)
Theorem premultiply_pixel_premultiplied (bo : byte_order) (p : pixbuf_pixel) :
  is_guchar (px_r p) -> is_guchar (px_g p) -> is_guchar (px_b p) -> is_guchar (px_a p) ->
  let w := load_guint32 bo (premultiply_pixel bo p) in
  is_guint32 w
  /\ alpha_of w = px_a p
  /\ (w / 2 ^ 16) mod 256 <= px_a p
  /\ (w / 2 ^ 8) mod 256 <= px_a p
  /\ w mod 256 <= px_a p
  /\ (px_a p = 0 -> w = 0)
  /\ (px_a p = 255 ->
      (w / 2 ^ 16) mod 256 = px_r p /\ (w / 2 ^ 8) mod 256 = px_g p
      /\ w mod 256 = px_b p).
Proof.
  intros Hr Hg Hb Ha.
  pose proof (MULT_range (px_r p) (px_a p)) as Mr.
  pose proof (MULT_range (px_g p) (px_a p)) as Mg.
  pose proof (MULT_range (px_b p) (px_a p)) as Mb.
  destruct (MULT_facts _ _ Hr Ha) as (Lr & Or & Zr).
  destruct (MULT_facts _ _ Hg Ha) as (Lg & Og & Zg).
  destruct (MULT_facts _ _ Hb Ha) as (Lb & Ob & Zb).
  pose proof (load_guint32_fields bo (premultiply_pixel bo p)) as L.
  cbv zeta. unfold alpha_of.
  assert (Hzero : px_a p = 0 -> load_guint32 bo (premultiply_pixel bo p) = 0).
  { intros Hyp. destruct bo; unfold load_guint32; cbn [premultiply_pixel q0 q1 q2 q3];
      rewrite Hyp, Zr, Zg, Zb; reflexivity. }
  set (w := load_guint32 bo (premultiply_pixel bo p)) in *.
  destruct bo; cbn [premultiply_pixel q0 q1 q2 q3] in L;
    destruct (L ltac:(assumption) ltac:(assumption) ltac:(assumption) ltac:(assumption))
      as (H32 & Halpha & HR & HG & HB);
    rewrite Halpha, HR, HG, HB;
    (split; [exact H32|]); (split; [reflexivity|]);
    (split; [exact Lr|]); (split; [exact Lg|]); (split; [exact Lb|]);
    (split; [exact Hzero|]);
    intros Hyp; rewrite Hyp; repeat split; assumption.
Qed.

Lemma premultiply_pixel_premultiplied_witness :
  let w := load_guint32 G_LITTLE_ENDIAN
             (premultiply_pixel G_LITTLE_ENDIAN
                {| px_r := 200; px_g := 100; px_b := 50; px_a := 128 |}) in
  w = 0x80643219 /\ alpha_of w = 128 /\ (w / 2 ^ 16) mod 256 <= 128.
Proof.
  assert (H200 : is_guchar 200) by (unfold is_guchar; lia).
  assert (H100 : is_guchar 100) by (unfold is_guchar; lia).
  assert (H50 : is_guchar 50) by (unfold is_guchar; lia).
  assert (H128 : is_guchar 128) by (unfold is_guchar; lia).
  destruct (premultiply_pixel_premultiplied G_LITTLE_ENDIAN
              {| px_r := 200; px_g := 100; px_b := 50; px_a := 128 |}
              H200 H100 H50 H128) as (_ & Ha & Hr & _).
  cbv zeta. split; [reflexivity|]. split; [exact Ha | exact Hr].
Defined.

(** *** Pixels without alpha *)

Lemma copy_rgb_pixel_word (bo : byte_order) (p : pixbuf_rgb) (q : cairo_bytes) :
  is_guchar (rgb_r p) -> is_guchar (rgb_g p) -> is_guchar (rgb_b p) ->
  is_guchar (q0 q) -> is_guchar (q3 q) ->
  let w := load_guint32 bo (copy_rgb_pixel bo p q) in
  is_guint32 w /\ convert_no_alpha_pixel w = p.
Proof.
  unfold is_guchar, is_guint32. intros Hr Hg Hb H0 H3.
  destruct p as [r g b]. cbn [rgb_r rgb_g rgb_b] in *.
  destruct bo; cbv zeta; unfold load_guint32, convert_no_alpha_pixel, to_guchar;
    cbn [copy_rgb_pixel q0 q1 q2 q3 rgb_r rgb_g rgb_b];
    rewrite !Z.shiftl_mul_pow2, !Z.shiftr_div_pow2 by lia;
    change (2 ^ 32) with 4294967296; change (2 ^ 24) with 16777216;
    change (2 ^ 16) with 65536; change (2 ^ 8) with 256;
    (split; [lia|]); f_equal; Z.div_mod_to_equations; lia.
Qed.

Lemma convert_no_alpha_row_spec (width : nat) (src : list Z) (dest : list pixbuf_rgb) :
  (width <= length src)%nat -> (width <= length dest)%nat ->
  exists d,
    convert_no_alpha_row width src dest = Some d
    /\ length d = length dest
    /\ forall x,
         d !! x = if decide (x < width)%nat
                  then convert_no_alpha_pixel <$> src !! x
                  else dest !! x.
Proof.
  intros Hs Hd. unfold convert_no_alpha_row.
  induction width as [|n IH].
  - exists dest. split; [reflexivity|]. split; [reflexivity|].
    intros x. destruct (decide (x < 0)%nat); [lia | reflexivity].
  - destruct IH as (d & Hfold & Hlen & Hlook); [lia | lia |].
    rewrite seq_S, foldl_app, Hfold. cbn [foldl Nat.add mbind option_bind].
    destruct (src !! n) as [w|] eqn:Hw;
      [|apply lookup_ge_None in Hw; lia].
    cbn [mbind option_bind].
    destruct (decide (n < length d)%nat) as [Hn|Hn]; [|lia].
    eexists. split; [reflexivity|]. split; [rewrite length_insert; exact Hlen|].
    intros x. destruct (decide (x = n)) as [->|Hne].
    + rewrite list_lookup_insert_eq by exact Hn.
      destruct (decide (n < S n)%nat); [|lia].
      rewrite Hw. reflexivity.
    + rewrite list_lookup_insert_ne by congruence. rewrite Hlook.
      destruct (decide (x < n)%nat), (decide (x < S n)%nat); try reflexivity; lia.
Qed.

Lemma copy_rgb_row_spec (bo : byte_order) (p : list pixbuf_rgb) (q : list cairo_bytes) :
  (length p <= length q)%nat ->
  exists q',
    copy_rgb_row bo p q = Some q'
    /\ length q' = length q
    /\ forall x,
         q' !! x = match p !! x with
                   | Some c => copy_rgb_pixel bo c <$> q !! x
                   | None => q !! x
                   end.
Proof.
  revert q. induction p as [|c p IH]; intros q Hlen.
  - exists q. split; [reflexivity|]. split; [reflexivity|]. intros x. reflexivity.
  - destruct q as [|y q]; [simpl in Hlen; lia|].
    destruct (IH q) as (q' & Hq & Hl & Hlook); [simpl in Hlen; lia|].
    exists (copy_rgb_pixel bo c y :: q'). cbn [copy_rgb_row]. rewrite Hq.
    split; [reflexivity|]. split; [simpl; rewrite Hl; reflexivity|].
    intros [|x]; [reflexivity|]. cbn [lookup list_lookup]. apply Hlook.
Qed.

Lemma copy_rgb_row_short (bo : byte_order) (p : list pixbuf_rgb) (q : list cairo_bytes) :
  (length q < length p)%nat -> copy_rgb_row bo p q = None.
Proof.
  revert q. induction p as [|c p IH]; intros q Hlen; [simpl in Hlen; lia|].
  destruct q as [|y q]; [reflexivity|].
  cbn [copy_rgb_row]. rewrite IH by (simpl in Hlen; lia). reflexivity.
Qed.

(** X3: a row of a pixbuf without alpha, copied into a surface row by
    [rsvg_cairo_surface_from_pixbuf] and read back by [convert_no_alpha],
    comes back as it was in either byte order, whatever the fourth byte of
    each surface pixel holds; the surface row keeps its length and what lies
    beyond the pixels written.  A surface row shorter than the pixbuf row is
    written past its end. *)
Theorem rgb_row_round_trip (bo : byte_order) (p : list pixbuf_rgb)
    (q : list cairo_bytes) (dest : list pixbuf_rgb) :
  ((length q < length p)%nat -> copy_rgb_row bo p q = None)
  /\ (Forall is_rgb p ->
      Forall (fun c => is_guchar (q0 c) /\ is_guchar (q3 c)) q ->
      (length p <= length q)%nat -> (length p <= length dest)%nat ->
      exists q',
        copy_rgb_row bo p q = Some q'
        /\ length q' = length q
        /\ drop (length p) q' = drop (length p) q
        /\ convert_no_alpha_row (length p) (load_guint32 bo <$> q') dest
           = Some (p ++ drop (length p) dest)).
Proof.
  split; [apply copy_rgb_row_short|].
  intros Hp Hq Hlq Hld.
  destruct (copy_rgb_row_spec bo p q Hlq) as (q' & Hcopy & Hlen & Hlook).
  exists q'. split; [exact Hcopy|]. split; [exact Hlen|]. split.
  - apply list_eq. intros i. rewrite !lookup_drop, Hlook.
    rewrite (proj2 (lookup_ge_None p (length p + i)%nat)) by lia. reflexivity.
  - destruct (convert_no_alpha_row_spec (length p) (load_guint32 bo <$> q') dest)
      as (d & Hd & Hdl & Hdlook); [rewrite length_fmap; lia | exact Hld |].
    rewrite Hd. f_equal. apply list_eq. intros x. rewrite Hdlook.
    destruct (decide (x < length p)%nat) as [Hx|Hx].
    + rewrite lookup_app_l by exact Hx.
      rewrite list_lookup_fmap, Hlook.
      destruct (p !! x) as [c|] eqn:Hc; [|apply lookup_ge_None in Hc; lia].
      destruct (q !! x) as [y|] eqn:Hy; [|apply lookup_ge_None in Hy; lia].
      cbn [fmap option_fmap option_map].
      assert (Hc' : is_rgb c).
      { rewrite Forall_forall in Hp. apply Hp. apply list_elem_of_lookup. eauto. }
      assert (Hy' : is_guchar (q0 y) /\ is_guchar (q3 y)).
      { rewrite Forall_forall in Hq. apply (Hq y). apply list_elem_of_lookup. eauto. }
      destruct Hc' as (Hr & Hg & Hb). destruct Hy' as (H0 & H3).
      f_equal. exact (proj2 (copy_rgb_pixel_word bo c y Hr Hg Hb H0 H3)).
    + rewrite lookup_app_r by lia. rewrite lookup_drop. f_equal. lia.
Qed.

Lemma rgb_row_round_trip_witness :
  let p := [ {| rgb_r := 1; rgb_g := 2; rgb_b := 3 |};
             {| rgb_r := 255; rgb_g := 0; rgb_b := 128 |} ] in
  let q := replicate 3 {| q0 := 77; q1 := 0; q2 := 0; q3 := 99 |} in
  let blank := {| rgb_r := 0; rgb_g := 0; rgb_b := 0 |} in
  exists q',
    copy_rgb_row G_LITTLE_ENDIAN p q = Some q'
    /\ convert_no_alpha_row 2 (load_guint32 G_LITTLE_ENDIAN <$> q') [blank; blank; blank]
       = Some (p ++ [blank]).
Proof.
  cbv zeta.
  destruct (proj2 (rgb_row_round_trip G_LITTLE_ENDIAN
              [ {| rgb_r := 1; rgb_g := 2; rgb_b := 3 |};
                {| rgb_r := 255; rgb_g := 0; rgb_b := 128 |} ]
              (replicate 3 {| q0 := 77; q1 := 0; q2 := 0; q3 := 99 |})
              (replicate 3 {| rgb_r := 0; rgb_g := 0; rgb_b := 0 |})))
    as (q' & H1 & _ & _ & H2).
  - repeat constructor; unfold is_guchar; simpl; lia.
  - repeat constructor; unfold is_guchar; simpl; lia.
  - simpl. lia.
  - simpl. lia.
  - exists q'. split; [exact H1 | exact H2].
Defined.

(** X4: on a word whose alpha byte is 255 [convert_alpha] stores the three
    colour bytes that [convert_no_alpha] stores, and alpha 255: the two
    conversions agree on opaque pixels. *)
Theorem convert_alpha_opaque (src : Z) :
  is_guint32 src -> alpha_of src = 255 ->
  convert_alpha_pixel src
  = Some {| px_r := rgb_r (convert_no_alpha_pixel src);
            px_g := rgb_g (convert_no_alpha_pixel src);
            px_b := rgb_b (convert_no_alpha_pixel src);
            px_a := 255 |}.
Proof.
  intros Hsrc Ha. unfold alpha_of in Ha.
  rewrite (convert_alpha_pixel_eq src Hsrc). cbv zeta. rewrite Ha.
  change (255 =? 0) with false. cbv iota.
  assert (K : forall c, 0 <= c < 256 -> unpremultiply c 255 = c).
  { intros c Hc. unfold unpremultiply, to_guchar. change (255 / 2) with 127.
    Z.div_mod_to_equations. lia. }
  pose proof (byte_range (src / 2 ^ 16)) as HR.
  pose proof (byte_range (src / 2 ^ 8)) as HG.
  pose proof (byte_range src) as HB.
  rewrite !K by assumption.
  unfold convert_no_alpha_pixel, to_guchar. cbn [rgb_r rgb_g rgb_b].
  rewrite !Z.shiftr_div_pow2 by lia. reflexivity.
Qed.

Lemma convert_alpha_opaque_witness :
  convert_alpha_pixel 0xFF804020
  = Some {| px_r := 128; px_g := 64; px_b := 32; px_a := 255 |}.
Proof.
  assert (H32 : is_guint32 0xFF804020) by (unfold is_guint32; lia).
  assert (Ha : alpha_of 0xFF804020 = 255) by reflexivity.
  exact (convert_alpha_opaque 0xFF804020 H32 Ha).
Defined.

Lemma foldl_option_None {A B : Type} (f : A -> B -> option A) (l : list B) :
  foldl (fun acc y => d ← acc; f d y) None l = None.
Proof. induction l as [|y l IH]; [reflexivity | exact IH]. Qed.

Lemma foldl_option_id {A B : Type} (f : A -> B -> option A) (l : list B) (a : A) :
  (forall d y, f d y = Some d) ->
  foldl (fun acc y => d ← acc; f d y) (Some a) l = Some a.
Proof.
  intros Hf. induction l as [|y l IH]; [reflexivity|].
  cbn [foldl mbind option_bind]. rewrite Hf. exact IH.
Qed.

(** X5: [convert_alpha] on a window of [width] by [height] pixels.  A window
    with no column or no row ([width <= 0] or [height <= 0]) touches no
    memory and leaves the destination as it is, wherever the window is put.
    A window of at least one pixel, at a source position that is not
    negative, with a row below the last source row is a read outside the
    source.  A window that lies inside the source and the destination fills
    exactly that window of the destination: the pixel in row [y], column
    [x] is the conversion of the source word in row [src_y + y], column
    [src_x + x]; everything outside the window stays. *)
Theorem convert_alpha_window (dest : list (list pixbuf_pixel)) (src : list (list Z))
    (src_x src_y width height : Z) :
  (width <= 0 \/ height <= 0 ->
   convert_alpha dest src src_x src_y width height = Some dest)
  /\ (0 < width -> 0 < height -> 0 <= src_x -> 0 <= src_y ->
      Z.of_nat (length src) < src_y + height ->
      convert_alpha dest src src_x src_y width height = None)
  /\ (0 <= src_x -> 0 <= src_y ->
      src_y + height <= Z.of_nat (length src) -> height <= Z.of_nat (length dest) ->
      Forall (fun row => src_x + width <= Z.of_nat (length row)
                         /\ Forall is_guint32 row) src ->
      Forall (fun row => width <= Z.of_nat (length row)) dest ->
      exists d,
        convert_alpha dest src src_x src_y width height = Some d
        /\ length d = length dest
        /\ forall y x : nat,
             pixel_at d y x
             = if decide (Z.of_nat y < height /\ Z.of_nat x < width)
               then pixel_at src (Z.to_nat src_y + y) (Z.to_nat src_x + x)
                    ≫= convert_alpha_pixel
               else pixel_at dest y x).
Proof.
  assert (Hempty : width <= 0 \/ height <= 0 ->
                   convert_alpha dest src src_x src_y width height = Some dest).
  { intros [Hw|Hh]; unfold convert_alpha.
    - apply (foldl_option_id
        (fun (d : list (list pixbuf_pixel)) (y : nat) =>
           if decide (width <= 0) then Some d
           else
             src_row ← lookup_int src (src_y + Z.of_nat y);
             dest_row ← d !! y;
             row ← (if decide (0 <= src_x)
                    then convert_alpha_row (Z.to_nat width)
                           (drop (Z.to_nat src_x) src_row) dest_row
                    else None);
             Some (<[y := row]> d))).
      intros d y. destruct (decide (width <= 0)); [reflexivity | lia].
    - replace (Z.to_nat height) with 0%nat by lia. reflexivity. }
  split; [exact Hempty|]. split.
  - intros Hw Hh Hx Hy Hshort. unfold convert_alpha.
    set (k := (length src - Z.to_nat src_y)%nat).
    assert (Hsplit : seq 0 (Z.to_nat height)
                     = seq 0 k ++ k :: seq (S k) (Z.to_nat height - S k)).
    { replace (Z.to_nat height) with (k + S (Z.to_nat height - S k))%nat at 1
        by (unfold k; lia).
      rewrite seq_app. reflexivity. }
    rewrite Hsplit, foldl_app. cbn [foldl].
    set (acc := foldl _ (Some dest) (seq 0 k)).
    set (body := fun (d : list (list pixbuf_pixel)) (y : nat) =>
           if decide (width <= 0) then Some d
           else
             src_row ← lookup_int src (src_y + Z.of_nat y);
             dest_row ← d !! y;
             row ← (if decide (0 <= src_x)
                    then convert_alpha_row (Z.to_nat width)
                           (drop (Z.to_nat src_x) src_row) dest_row
                    else None);
             Some (<[y := row]> d)).
    assert (Hstep : (d ← acc; body d k) = None).
    { destruct acc as [d|]; [|reflexivity]. cbn [mbind option_bind]. unfold body.
      destruct (decide (width <= 0)); [lia|].
      unfold lookup_int. destruct (decide (0 <= src_y + Z.of_nat k)); [|reflexivity].
      rewrite (proj2 (lookup_ge_None src _)) by (unfold k; lia). reflexivity. }
    change (foldl (fun acc y => d ← acc; body d y) (d ← acc; body d k)
              (seq (S k) (Z.to_nat height - S k)) = None).
    rewrite Hstep. apply (foldl_option_None body).
  - intros Hx Hy Hs Hd Hsrc Hdest.
    destruct (decide (width <= 0)) as [Hw|Hw].
    { exists dest. split; [apply Hempty; left; exact Hw|]. split; [reflexivity|].
      intros y x. destruct (decide (Z.of_nat y < height /\ Z.of_nat x < width));
        [lia | reflexivity]. }
    unfold convert_alpha.
    assert (Hgen : forall n : nat, (n <= Z.to_nat height)%nat ->
      exists d,
        foldl (fun acc y =>
           d ← acc;
           if decide (width <= 0) then Some d
           else
             src_row ← lookup_int src (src_y + Z.of_nat y);
             dest_row ← d !! y;
             row ← (if decide (0 <= src_x)
                    then convert_alpha_row (Z.to_nat width)
                           (drop (Z.to_nat src_x) src_row) dest_row
                    else None);
             Some (<[y := row]> d))
          (Some dest) (seq 0 n) = Some d
        /\ length d = length dest
        /\ forall y x : nat,
             pixel_at d y x
             = if decide ((y < n)%nat /\ Z.of_nat x < width)
               then pixel_at src (Z.to_nat src_y + y) (Z.to_nat src_x + x)
                    ≫= convert_alpha_pixel
               else pixel_at dest y x).
    { induction n as [|n IH]; intros Hn.
      - exists dest. split; [reflexivity|]. split; [reflexivity|].
        intros y x. destruct (decide ((y < 0)%nat /\ Z.of_nat x < width));
          [lia | reflexivity].
      - destruct IH as (d & Hfold & Hlen & Hlook); [lia|].
        rewrite seq_S, foldl_app, Hfold. cbn [foldl Nat.add mbind option_bind].
        destruct (decide (width <= 0)); [lia|].
        unfold lookup_int. destruct (decide (0 <= src_y + Z.of_nat n)); [|lia].
        replace (Z.to_nat (src_y + Z.of_nat n)) with (Z.to_nat src_y + n)%nat by lia.
        destruct (src !! (Z.to_nat src_y + n)%nat) as [src_row|] eqn:Hrow;
          [|apply lookup_ge_None in Hrow; lia].
        cbn [mbind option_bind].
        destruct (d !! n) as [dest_row|] eqn:Hdrow;
          [|apply lookup_ge_None in Hdrow; lia].
        cbn [mbind option_bind].
        destruct (decide (0 <= src_x)); [|lia].
        assert (Hsr : src_x + width <= Z.of_nat (length src_row)
                      /\ Forall is_guint32 src_row).
        { rewrite Forall_forall in Hsrc. apply (Hsrc src_row).
          apply list_elem_of_lookup. eauto. }
        destruct Hsr as (Hsl & Hs32).
        assert (Hdr : dest !! n = Some dest_row).
        { destruct (dest !! n) as [r|] eqn:Hr; [|apply lookup_ge_None in Hr; lia].
          f_equal. apply list_eq. intros x. specialize (Hlook n x).
          unfold pixel_at in Hlook. rewrite Hdrow, Hr in Hlook.
          destruct (decide ((n < n)%nat /\ Z.of_nat x < width)); [lia|].
          symmetry. exact Hlook. }
        assert (Hdl : width <= Z.of_nat (length dest_row)).
        { rewrite Forall_forall in Hdest. apply (Hdest dest_row).
          apply list_elem_of_lookup. eauto. }
        destruct (convert_alpha_row_spec (Z.to_nat width)
                    (drop (Z.to_nat src_x) src_row) dest_row)
          as (row & Hconv & Hrl & Hrlook);
          [rewrite length_drop; lia | lia | apply Forall_drop; exact Hs32 |].
        rewrite Hconv. cbn [mbind option_bind].
        eexists. split; [reflexivity|]. split; [rewrite length_insert; exact Hlen|].
        intros y x. destruct (decide (y = n)) as [->|Hne].
        + unfold pixel_at.
          rewrite list_lookup_insert_eq by (apply lookup_lt_Some in Hdrow; exact Hdrow).
          rewrite Hrlook, Hrow, Hdr. rewrite lookup_drop.
          destruct (decide (x < Z.to_nat width)%nat),
                   (decide ((n < S n)%nat /\ Z.of_nat x < width));
            try reflexivity; lia.
        + unfold pixel_at. rewrite list_lookup_insert_ne by congruence.
          specialize (Hlook y x). unfold pixel_at in Hlook. rewrite Hlook.
          destruct (decide ((y < n)%nat /\ Z.of_nat x < width)),
                   (decide ((y < S n)%nat /\ Z.of_nat x < width));
            try reflexivity; lia. }
    destruct (Hgen (Z.to_nat height)) as (d & Hfold & Hlen & Hlook); [lia|].
    exists d. split; [exact Hfold|]. split; [exact Hlen|].
    intros y x. rewrite Hlook.
    destruct (decide ((y < Z.to_nat height)%nat /\ Z.of_nat x < width)),
             (decide (Z.of_nat y < height /\ Z.of_nat x < width));
      try reflexivity; lia.
Qed.

Lemma convert_alpha_window_witness :
  let blank := {| px_r := 9; px_g := 9; px_b := 9; px_a := 9 |} in
  let src := [[0; 0; 0]; [0; 0xFF804020; 0x80402010]] in
  convert_alpha [] [] 0 0 0 1 = Some []
  /\ convert_alpha [[blank; blank]] src 1 1 1 2 = None
  /\ exists d,
       convert_alpha [[blank; blank]] src 1 1 1 1 = Some d
       /\ pixel_at d 0 0 = Some {| px_r := 128; px_g := 64; px_b := 32; px_a := 255 |}
       /\ pixel_at d 0 1 = Some blank.
Proof.
  cbv zeta.
  pose (blank := {| px_r := 9; px_g := 9; px_b := 9; px_a := 9 |}).
  pose (src := [[0; 0; 0]; [0; 0xFF804020; 0x80402010]]).
  split; [|split].
  - assert (H : 0 <= 0 \/ 1 <= 0) by (left; lia).
    exact (proj1 (convert_alpha_window [] [] 0 0 0 1) H).
  - assert (H1 : 0 < 1) by lia. assert (H2 : 0 <= 1) by lia.
    assert (H3 : Z.of_nat (length src) < 1 + 2) by (simpl; lia).
    exact (proj1 (proj2 (convert_alpha_window [[blank; blank]] src 1 1 1 2))
             H1 ltac:(lia) H2 H2 H3).
  - destruct (proj2 (proj2 (convert_alpha_window [[blank; blank]] src 1 1 1 1)))
      as (d & Hd & _ & Hlook).
    + lia.
    + lia.
    + simpl. lia.
    + simpl. lia.
    + repeat constructor; unfold is_guint32; simpl; lia.
    + repeat constructor; simpl; lia.
    + exists d. split; [exact Hd|]. split.
      * rewrite (Hlook 0%nat 0%nat). reflexivity.
      * rewrite (Hlook 0%nat 1%nat). reflexivity.
Defined.

Lemma premultiplied_word_range (bo : byte_order) (p : pixbuf_pixel) :
  is_rgba p -> is_guint32 (load_guint32 bo (premultiply_pixel bo p)).
Proof.
  intros (Hr & Hg & Hb & Ha).
  pose proof (MULT_range (px_r p) (px_a p)) as Mr.
  pose proof (MULT_range (px_g p) (px_a p)) as Mg.
  pose proof (MULT_range (px_b p) (px_a p)) as Mb.
  pose proof (load_guint32_fields bo (premultiply_pixel bo p)) as L.
  destruct bo; cbn [premultiply_pixel q0 q1 q2 q3] in L;
    exact (proj1 (L ltac:(assumption) ltac:(assumption) ltac:(assumption)
                    ltac:(assumption))).
Qed.

(** X22: a row of a pixbuf with alpha, premultiplied into a surface row by
    [rsvg_cairo_surface_from_pixbuf] and converted back by [convert_alpha],
    gives for each pixel the round trip of that pixel, and leaves the
    destination beyond the row alone; a row of opaque pixels comes back as
    it was. *)
Theorem rgba_row_round_trip (bo : byte_order) (p dest : list pixbuf_pixel) :
  Forall is_rgba p -> (length p <= length dest)%nat ->
  exists d,
    convert_alpha_row (length p) (load_guint32 bo <$> premultiply_row bo p) dest = Some d
    /\ length d = length dest
    /\ (forall x, d !! x = if decide (x < length p)%nat
                           then p !! x ≫= round_trip bo
                           else dest !! x)
    /\ (Forall (fun px => px_a px = 255) p -> d = p ++ drop (length p) dest).
Proof.
  intros Hp Hlen.
  destruct (convert_alpha_row_spec (length p) (load_guint32 bo <$> premultiply_row bo p)
              dest) as (d & Hd & Hdl & Hlook).
  - unfold premultiply_row. rewrite !length_fmap. lia.
  - exact Hlen.
  - unfold premultiply_row. rewrite Forall_fmap, Forall_fmap.
    eapply Forall_impl; [exact Hp|]. intros px Hpx. cbn.
    apply premultiplied_word_range. exact Hpx.
  - exists d. split; [exact Hd|]. split; [exact Hdl|].
    assert (Hround : forall x, d !! x = if decide (x < length p)%nat
                                        then p !! x ≫= round_trip bo
                                        else dest !! x).
    { intros x. rewrite Hlook. destruct (decide (x < length p)%nat); [|reflexivity].
      unfold premultiply_row. rewrite !list_lookup_fmap.
      destruct (p !! x) as [px|]; reflexivity. }
    split; [exact Hround|].
    intros Hopaque. apply list_eq. intros x. rewrite Hround.
    destruct (decide (x < length p)%nat) as [Hx|Hx].
    + rewrite lookup_app_l by exact Hx.
      destruct (p !! x) as [px|] eqn:Hpx; [|apply lookup_ge_None in Hpx; lia].
      cbn [mbind option_bind].
      assert (Hb : is_rgba px).
      { rewrite Forall_forall in Hp. apply Hp. apply list_elem_of_lookup. eauto. }
      assert (Ha : px_a px = 255).
      { rewrite Forall_forall in Hopaque. apply (Hopaque px).
        apply list_elem_of_lookup. eauto. }
      destruct Hb as (Hr & Hg & Hbl & Hal).
      rewrite (round_trip_eq bo px Hr Hg Hbl Hal). f_equal.
      destruct (channel_round_trip_bounds (px_r px) (px_a px) Hr Hal) as (R1 & _).
      destruct (channel_round_trip_bounds (px_g px) (px_a px) Hg Hal) as (G1 & _).
      destruct (channel_round_trip_bounds (px_b px) (px_a px) Hbl Hal) as (B1 & _).
      rewrite (R1 Ha), (G1 Ha), (B1 Ha). destruct px; reflexivity.
    + rewrite lookup_app_r by lia. rewrite lookup_drop. f_equal. lia.
Qed.

Lemma rgba_row_round_trip_witness :
  let p := [ {| px_r := 10; px_g := 20; px_b := 30; px_a := 255 |};
             {| px_r := 255; px_g := 0; px_b := 128; px_a := 255 |} ] in
  let blank := {| px_r := 0; px_g := 0; px_b := 0; px_a := 0 |} in
  convert_alpha_row 2 (load_guint32 G_LITTLE_ENDIAN <$> premultiply_row G_LITTLE_ENDIAN p)
    [blank; blank; blank]
  = Some (p ++ [blank]).
Proof.
  cbv zeta.
  destruct (rgba_row_round_trip G_LITTLE_ENDIAN
              [ {| px_r := 10; px_g := 20; px_b := 30; px_a := 255 |};
                {| px_r := 255; px_g := 0; px_b := 128; px_a := 255 |} ]
              (replicate 3 {| px_r := 0; px_g := 0; px_b := 0; px_a := 0 |}))
    as (d & Hd & _ & _ & Hopaque).
  - repeat constructor; unfold is_guchar; simpl; lia.
  - simpl. lia.
  - rewrite Hopaque in Hd by (repeat constructor). exact Hd.
Defined.

(** X24: [convert_no_alpha] on a window of [width] by [height] pixels.  A
    window with no column or no row ([width <= 0] or [height <= 0]) touches
    no memory and leaves the destination as it is, wherever the window is
    put.  A window of at least one pixel, at a source position that is not
    negative, with a row below the last source row is a read outside the
    source.  A window that lies inside the source and the destination fills
    exactly that window of the destination with the three low bytes of the
    source words, the word in row [src_y + y], column [src_x + x] going to
    row [y], column [x]; everything outside the window stays. *)
Theorem convert_no_alpha_window (dest : list (list pixbuf_rgb)) (src : list (list Z))
    (src_x src_y width height : Z) :
  (width <= 0 \/ height <= 0 ->
   convert_no_alpha dest src src_x src_y width height = Some dest)
  /\ (0 < width -> 0 < height -> 0 <= src_x -> 0 <= src_y ->
      Z.of_nat (length src) < src_y + height ->
      convert_no_alpha dest src src_x src_y width height = None)
  /\ (0 <= src_x -> 0 <= src_y ->
      src_y + height <= Z.of_nat (length src) -> height <= Z.of_nat (length dest) ->
      Forall (fun row => src_x + width <= Z.of_nat (length row)) src ->
      Forall (fun row => width <= Z.of_nat (length row)) dest ->
      exists d,
        convert_no_alpha dest src src_x src_y width height = Some d
        /\ length d = length dest
        /\ forall y x : nat,
             pixel_at d y x
             = if decide (Z.of_nat y < height /\ Z.of_nat x < width)
               then convert_no_alpha_pixel
                    <$> pixel_at src (Z.to_nat src_y + y) (Z.to_nat src_x + x)
               else pixel_at dest y x).
Proof.
  assert (Hempty : width <= 0 \/ height <= 0 ->
                   convert_no_alpha dest src src_x src_y width height = Some dest).
  { intros [Hw|Hh]; unfold convert_no_alpha.
    - apply (foldl_option_id
        (fun (d : list (list pixbuf_rgb)) (y : nat) =>
           if decide (width <= 0) then Some d
           else
             src_row ← lookup_int src (src_y + Z.of_nat y);
             dest_row ← d !! y;
             row ← (if decide (0 <= src_x)
                    then convert_no_alpha_row (Z.to_nat width)
                           (drop (Z.to_nat src_x) src_row) dest_row
                    else None);
             Some (<[y := row]> d))).
      intros d y. destruct (decide (width <= 0)); [reflexivity | lia].
    - replace (Z.to_nat height) with 0%nat by lia. reflexivity. }
  split; [exact Hempty|]. split.
  - intros Hw Hh Hx Hy Hshort. unfold convert_no_alpha.
    set (k := (length src - Z.to_nat src_y)%nat).
    assert (Hsplit : seq 0 (Z.to_nat height)
                     = seq 0 k ++ k :: seq (S k) (Z.to_nat height - S k)).
    { replace (Z.to_nat height) with (k + S (Z.to_nat height - S k))%nat at 1
        by (unfold k; lia).
      rewrite seq_app. reflexivity. }
    rewrite Hsplit, foldl_app. cbn [foldl].
    set (acc := foldl _ (Some dest) (seq 0 k)).
    set (body := fun (d : list (list pixbuf_rgb)) (y : nat) =>
           if decide (width <= 0) then Some d
           else
             src_row ← lookup_int src (src_y + Z.of_nat y);
             dest_row ← d !! y;
             row ← (if decide (0 <= src_x)
                    then convert_no_alpha_row (Z.to_nat width)
                           (drop (Z.to_nat src_x) src_row) dest_row
                    else None);
             Some (<[y := row]> d)).
    assert (Hstep : (d ← acc; body d k) = None).
    { destruct acc as [d|]; [|reflexivity]. cbn [mbind option_bind]. unfold body.
      destruct (decide (width <= 0)); [lia|].
      unfold lookup_int. destruct (decide (0 <= src_y + Z.of_nat k)); [|reflexivity].
      rewrite (proj2 (lookup_ge_None src _)) by (unfold k; lia). reflexivity. }
    change (foldl (fun acc y => d ← acc; body d y) (d ← acc; body d k)
              (seq (S k) (Z.to_nat height - S k)) = None).
    rewrite Hstep. apply (foldl_option_None body).
  - intros Hx Hy Hs Hd Hsrc Hdest.
    destruct (decide (width <= 0)) as [Hw|Hw].
    { exists dest. split; [apply Hempty; left; exact Hw|]. split; [reflexivity|].
      intros y x. destruct (decide (Z.of_nat y < height /\ Z.of_nat x < width));
        [lia | reflexivity]. }
    unfold convert_no_alpha.
    assert (Hgen : forall n : nat, (n <= Z.to_nat height)%nat ->
      exists d,
        foldl (fun acc y =>
           d ← acc;
           if decide (width <= 0) then Some d
           else
             src_row ← lookup_int src (src_y + Z.of_nat y);
             dest_row ← d !! y;
             row ← (if decide (0 <= src_x)
                    then convert_no_alpha_row (Z.to_nat width)
                           (drop (Z.to_nat src_x) src_row) dest_row
                    else None);
             Some (<[y := row]> d))
          (Some dest) (seq 0 n) = Some d
        /\ length d = length dest
        /\ forall y x : nat,
             pixel_at d y x
             = if decide ((y < n)%nat /\ Z.of_nat x < width)
               then convert_no_alpha_pixel
                    <$> pixel_at src (Z.to_nat src_y + y) (Z.to_nat src_x + x)
               else pixel_at dest y x).
    { induction n as [|n IH]; intros Hn.
      - exists dest. split; [reflexivity|]. split; [reflexivity|].
        intros y x. destruct (decide ((y < 0)%nat /\ Z.of_nat x < width));
          [lia | reflexivity].
      - destruct IH as (d & Hfold & Hlen & Hlook); [lia|].
        rewrite seq_S, foldl_app, Hfold. cbn [foldl Nat.add mbind option_bind].
        destruct (decide (width <= 0)); [lia|].
        unfold lookup_int. destruct (decide (0 <= src_y + Z.of_nat n)); [|lia].
        replace (Z.to_nat (src_y + Z.of_nat n)) with (Z.to_nat src_y + n)%nat by lia.
        destruct (src !! (Z.to_nat src_y + n)%nat) as [src_row|] eqn:Hrow;
          [|apply lookup_ge_None in Hrow; lia].
        cbn [mbind option_bind].
        destruct (d !! n) as [dest_row|] eqn:Hdrow;
          [|apply lookup_ge_None in Hdrow; lia].
        cbn [mbind option_bind].
        destruct (decide (0 <= src_x)); [|lia].
        assert (Hsl : src_x + width <= Z.of_nat (length src_row)).
        { rewrite Forall_forall in Hsrc. apply (Hsrc src_row).
          apply list_elem_of_lookup. eauto. }
        assert (Hdr : dest !! n = Some dest_row).
        { destruct (dest !! n) as [r|] eqn:Hr; [|apply lookup_ge_None in Hr; lia].
          f_equal. apply list_eq. intros x. specialize (Hlook n x).
          unfold pixel_at in Hlook. rewrite Hdrow, Hr in Hlook.
          destruct (decide ((n < n)%nat /\ Z.of_nat x < width)); [lia|].
          symmetry. exact Hlook. }
        assert (Hdl : width <= Z.of_nat (length dest_row)).
        { rewrite Forall_forall in Hdest. apply (Hdest dest_row).
          apply list_elem_of_lookup. eauto. }
        destruct (convert_no_alpha_row_spec (Z.to_nat width)
                    (drop (Z.to_nat src_x) src_row) dest_row)
          as (row & Hconv & Hrl & Hrlook);
          [rewrite length_drop; lia | lia |].
        rewrite Hconv. cbn [mbind option_bind].
        eexists. split; [reflexivity|]. split; [rewrite length_insert; exact Hlen|].
        intros y x. destruct (decide (y = n)) as [->|Hne].
        + unfold pixel_at.
          rewrite list_lookup_insert_eq by (apply lookup_lt_Some in Hdrow; exact Hdrow).
          rewrite Hrlook, Hrow, Hdr. rewrite lookup_drop.
          destruct (decide (x < Z.to_nat width)%nat),
                   (decide ((n < S n)%nat /\ Z.of_nat x < width));
            try reflexivity; lia.
        + unfold pixel_at. rewrite list_lookup_insert_ne by congruence.
          specialize (Hlook y x). unfold pixel_at in Hlook. rewrite Hlook.
          destruct (decide ((y < n)%nat /\ Z.of_nat x < width)),
                   (decide ((y < S n)%nat /\ Z.of_nat x < width));
            try reflexivity; lia. }
    destruct (Hgen (Z.to_nat height)) as (d & Hfold & Hlen & Hlook); [lia|].
    exists d. split; [exact Hfold|]. split; [exact Hlen|].
    intros y x. rewrite Hlook.
    destruct (decide ((y < Z.to_nat height)%nat /\ Z.of_nat x < width)),
             (decide (Z.of_nat y < height /\ Z.of_nat x < width));
      try reflexivity; lia.
Qed.

Lemma convert_no_alpha_window_witness :
  let blank := {| rgb_r := 9; rgb_g := 9; rgb_b := 9 |} in
  let src := [[0; 0; 0]; [0; 0x77804020; 0x80402010]] in
  convert_no_alpha [] [] 0 0 0 1 = Some []
  /\ convert_no_alpha [[blank; blank]] src 1 1 1 2 = None
  /\ exists d,
       convert_no_alpha [[blank; blank]] src 1 1 1 1 = Some d
       /\ pixel_at d 0 0 = Some {| rgb_r := 128; rgb_g := 64; rgb_b := 32 |}
       /\ pixel_at d 0 1 = Some blank.
Proof.
  cbv zeta.
  pose (blank := {| rgb_r := 9; rgb_g := 9; rgb_b := 9 |}).
  pose (src := [[0; 0; 0]; [0; 0x77804020; 0x80402010]]).
  split; [|split].
  - assert (H : 0 <= 0 \/ 1 <= 0) by (left; lia).
    exact (proj1 (convert_no_alpha_window [] [] 0 0 0 1) H).
  - assert (H1 : 0 < 1) by lia. assert (H2 : 0 <= 1) by lia.
    assert (H3 : Z.of_nat (length src) < 1 + 2) by (simpl; lia).
    exact (proj1 (proj2 (convert_no_alpha_window [[blank; blank]] src 1 1 1 2))
             H1 ltac:(lia) H2 H2 H3).
  - destruct (proj2 (proj2 (convert_no_alpha_window [[blank; blank]] src 1 1 1 1)))
      as (d & Hd & _ & Hlook).
    + lia.
    + lia.
    + simpl. lia.
    + simpl. lia.
    + repeat constructor; simpl; lia.
    + repeat constructor; simpl; lia.
    + exists d. split; [exact Hd|]. split.
      * rewrite (Hlook 0%nat 0%nat). reflexivity.
      * rewrite (Hlook 0%nat 1%nat). reflexivity.
Defined.

(** ** The protocol of acquisition *)

Section AcquisitionProtocol.
Context {D : DoubleOps} {E : Externals}.

(** X23: while a node is acquired, acquiring the identifier that gave it
    gives none, as whatever kind and untyped, and changes nothing: a chain of
    references that comes back to the node is cut there.  Releasing the node
    gives back the world in which it was acquired, so that the identifier
    can be acquired again. *)
Theorem acquire_release_protocol (url : option string) (type : RsvgNodeType)
    (w w1 : World) (n : RsvgNode) :
  rsvg_drawing_ctx_acquire_node_of_type url type w = Returned (Some n, w1) ->
  (forall type', rsvg_drawing_ctx_acquire_node_of_type url type' w1 = Returned (None, w1))
  /\ rsvg_drawing_ctx_acquire_node url w1 = Returned (None, w1)
  /\ rsvg_drawing_ctx_release_node (Some n) w1 = Returned (tt, w)
  /\ (node <- rsvg_drawing_ctx_acquire_node_of_type url type ;;
      rsvg_drawing_ctx_release_node node ;;;
      rsvg_drawing_ctx_acquire_node_of_type url type) w
     = Returned (Some n, w1).
Proof.
  intros H. pose proof H as Hagain.
  rewrite acquire_node_of_type_eq in H.
  destruct (acquirable (ctx (store w)) url type) as [m|] eqn:Hacq; [|discriminate].
  injection H as -> <-.
  unfold acquirable in Hacq.
  destruct url as [u|]; [|discriminate].
  destruct (rsvg_defs_lookup (defs (ctx (store w))) u) as [m|] eqn:Hl; [|discriminate].
  destruct (g_slist_find (acquired_nodes (ctx (store w))) m) eqn:Hf; [discriminate|].
  destruct (node_type_eqb (rsvg_node_get_type m) type); [|discriminate].
  injection Hacq as ->.
  assert (Hrel : rsvg_drawing_ctx_release_node (Some n)
                   (with_acquired (n :: acquired_nodes (ctx (store w))) w)
                 = Returned (tt, w)).
  { rewrite (release_node_head n (acquired_nodes (ctx (store w)))) by reflexivity.
    rewrite with_acquired_twice, with_acquired_id. reflexivity. }
  split; [|split; [|split]].
  - intros type'. rewrite acquire_node_of_type_eq. unfold acquirable.
    cbn [with_acquired set_store set_ctx set_acquired_nodes store ctx defs acquired_nodes
         g_slist_find].
    rewrite Hl, Pos.eqb_refl. reflexivity.
  - rewrite acquire_node_eq.
    cbn [with_acquired set_store set_ctx set_acquired_nodes store ctx defs acquired_nodes
         g_slist_find].
    rewrite Hl, Pos.eqb_refl. reflexivity.
  - exact Hrel.
  - unfold bind at 1. rewrite Hagain. unfold bind. rewrite Hrel. exact Hagain.
Qed.

End AcquisitionProtocol.

Lemma acquire_release_protocol_witness :
  rsvg_drawing_ctx_acquire_node_of_type (E := Sample.externals) (Some "#mask"%string)
    RSVG_NODE_TYPE_MASK (Sample.world Sample.plain [2%positive; 1%positive])
  = Returned (None, Sample.world Sample.plain [2%positive; 1%positive])
  /\ rsvg_drawing_ctx_release_node (Some 2%positive)
       (Sample.world Sample.plain [2%positive; 1%positive])
     = Returned (tt, Sample.world Sample.plain [1%positive]).
Proof.
  assert (H : rsvg_drawing_ctx_acquire_node_of_type (E := Sample.externals)
                (Some "#mask"%string) RSVG_NODE_TYPE_MASK
                (Sample.world Sample.plain [1%positive])
              = Returned (Some 2%positive, Sample.world Sample.plain [2%positive; 1%positive]))
    by reflexivity.
  destruct (acquire_release_protocol (E := Sample.externals) _ _ _ _ _ H)
    as (Hcut & _ & Hrel & _).
  split; [exact (Hcut RSVG_NODE_TYPE_MASK) | exact Hrel].
Defined.

(** ** More on the drawing context *)

Section ViewBox.
Context {D : DoubleOps}.

(** X14: [rsvg_drawing_ctx_pop_view_box] after
    [rsvg_drawing_ctx_push_view_box] leaves the world as it was before the
    two; the push changes the size of the view box and nothing else of it,
    and puts the old view box on the stack; a pop on an empty stack reads
    through a null pointer. *)
Theorem view_box_push_pop (w h : double) (w0 : World) :
  (rsvg_drawing_ctx_push_view_box w h ;;; rsvg_drawing_ctx_pop_view_box) w0
  = Returned (tt, w0)
  /\ (exists w1,
        rsvg_drawing_ctx_push_view_box w h w0 = Returned (tt, w1)
        /\ vb_stack (ctx (store w1)) = vb (ctx (store w0)) :: vb_stack (ctx (store w0))
        /\ rect_width (vb_rect (vb (ctx (store w1)))) = w
        /\ rect_height (vb_rect (vb (ctx (store w1)))) = h
        /\ rect_x (vb_rect (vb (ctx (store w1)))) = rect_x (vb_rect (vb (ctx (store w0))))
        /\ rect_y (vb_rect (vb (ctx (store w1)))) = rect_y (vb_rect (vb (ctx (store w0))))
        /\ vb_active (vb (ctx (store w1))) = vb_active (vb (ctx (store w0))))
  /\ (vb_stack (ctx (store w0)) = [] -> rsvg_drawing_ctx_pop_view_box w0 = Undefined).
Proof.
  split; [|split].
  - destruct w0 as [[c st px] l n]. destruct c. reflexivity.
  - eexists. split; [reflexivity|]. repeat split; reflexivity.
  - intros Hempty. unfold rsvg_drawing_ctx_pop_view_box, bind, get_ctx.
    rewrite Hempty. reflexivity.
Qed.

End ViewBox.

Section ClipAffine.
Context {D : DoubleOps} {E : Externals}.

(** X15: a clip path in [objectBoundingBox] units is drawn with the
    bounding box multiplied into the affine of its state, and when
    [rsvg_cairo_clip] returns that affine is again what it was before the
    call, whatever the drawing did to it.  Without a bounding box such a clip
    path makes the function read through a null pointer, and a node that is
    no clip path makes it abort. *)
Theorem rsvg_cairo_clip_restores_affine (n : RsvgNode) (w : World) :
  let p := rsvg_node_get_state n in
  (forall b w',
     rsvg_node_clip_path_get_units n = objectBoundingBox ->
     rsvg_cairo_clip n (Some b) w = Returned (tt, w') ->
     st_affine (states (store w') p) = st_affine (states (store w) p)
     /\ exists s0 s',
          draws_children n true s0 s'
          /\ ctx s0 = ctx (store w)
          /\ st_affine (states s0 p)
             = cairo_matrix_multiply
                 (cairo_matrix_init (rect_width (rect b)) d_zero d_zero
                    (rect_height (rect b)) (rect_x (rect b)) (rect_y (rect b)))
                 (st_affine (states (store w) p)))
  /\ (rsvg_node_get_type n = RSVG_NODE_TYPE_CLIP_PATH ->
      rsvg_node_clip_path_get_units n = objectBoundingBox ->
      rsvg_cairo_clip n None w = Undefined)
  /\ (rsvg_node_get_type n <> RSVG_NODE_TYPE_CLIP_PATH ->
      forall bbox_arg, rsvg_cairo_clip n bbox_arg w = Aborted).
Proof.
  cbv zeta. split; [|split].
  - intros b w' Hu H. unfold rsvg_cairo_clip in H.
    bind_inv H u0 w0 E0. apply g_assert_returned in E0. destruct E0 as [Hty Q0].
    injection Q0 as -> ->.
    rewrite Hu in H. cbn [units_is_obb] in H.
    bind_inv H saved w1 E1.
    bind_inv E1 a1 w2 E2. rewrite premultiply_bbox_eq in E2.
    injection E2 as -> <-. prim_inv E1.
    bind_inv H c w2 E2. prim_inv E2.
    cbv zeta in H.
    apply draw_sequence_returned in H. destruct H as (s' & Hdraw & H).
    bind_inv H u3 w3 E3. prim_inv E3.
    bind_inv H c' w4 E4. prim_inv E4.
    bind_inv H u5 w5 E5. apply g_assert_returned in E5. destruct E5 as [Hcr Q5].
    injection Q5 as -> ->.
    bind_inv H u6 w6 E6. apply g_assert_returned in E6. destruct E6 as [Hsf Q6].
    injection Q6 as -> ->.
    bind_inv H u7 w7 E7. prim_inv E7.
    bind_inv H c'' w8 E8. prim_inv E8.
    prim_inv H.
    cbn [store states set_store set_ctx rsvg_state_set_affine].
    rewrite Pos.eqb_refl. cbn [set_state_affine st_affine].
    split; [reflexivity|].
    eexists _, s'. split; [exact Hdraw|].
    cbn [store set_store rsvg_state_set_affine ctx states].
    rewrite Pos.eqb_refl. cbn [set_state_affine st_affine].
    split; reflexivity.
  - intros Hty Hu. unfold rsvg_cairo_clip. rewrite Hty, Hu. reflexivity.
  - intros Hty bbox_arg. unfold rsvg_cairo_clip.
    destruct (node_type_eqb (rsvg_node_get_type n) RSVG_NODE_TYPE_CLIP_PATH) eqn:Hn;
      [|reflexivity].
    apply node_type_eqb_eq in Hn. contradiction.
Qed.

End ClipAffine.

Lemma rsvg_cairo_clip_restores_affine_witness :
  exists w',
    rsvg_cairo_clip (E := Sample.externals) 3%positive (Some Sample.drawn_box)
      (Sample.world Sample.plain [3%positive]) = Returned (tt, w')
    /\ st_affine (states (store w') 13%positive) = Sample.identity_matrix.
Proof.
  pose (w' := Sample.world_after
                (rsvg_cairo_clip (E := Sample.externals) 3%positive
                   (Some Sample.drawn_box) (Sample.world Sample.plain [3%positive]))
                (Sample.world Sample.plain [3%positive])).
  assert (H : rsvg_cairo_clip (E := Sample.externals) 3%positive (Some Sample.drawn_box)
                (Sample.world Sample.plain [3%positive]) = Returned (tt, w'))
    by (vm_compute; reflexivity).
  exists w'. split; [exact H|].
  exact (proj1 (proj1 (rsvg_cairo_clip_restores_affine (E := Sample.externals) 3%positive
                         (Sample.world Sample.plain [3%positive]))
                  Sample.drawn_box w' eq_refl H)).
Defined.

Section MaskTrace.
Context {D : DoubleOps} {E : Externals}.

Lemma call_out_inv (e : event) (f : Store -> outcome Store) (w w1 : World) (u : unit) :
  call_out e f w = Returned (u, w1) ->
  exists s, f (store w) = Returned s
            /\ w1 = {| store := s; log := e :: log w; next_handle := next_handle w |}.
Proof.
  intros H. apply call_out_returned in H. destruct H as (s & Hs & Q).
  injection Q as _ ->. exists s. split; [exact Hs | reflexivity].
Qed.

(** The view box of one unit that surrounds the reading of the lengths of
    the mask is gone when they have been read. *)
Lemma view_box_excursion (b : bool) (w h : double) (k : Store -> M unit) (w0 : World) :
  (when b (rsvg_drawing_ctx_push_view_box w h) ;;;
   s1 <- get_store ;;
   when b rsvg_drawing_ctx_pop_view_box ;;;
   k s1) w0
  = k (if b then
         match rsvg_drawing_ctx_push_view_box w h w0 with
         | Returned (_, w1) => store w1
         | _ => store w0
         end
       else store w0) w0.
Proof.
  destruct b; [|reflexivity].
  destruct w0 as [[c st px] l n]. destruct c. reflexivity.
Qed.

(** What a mask generation that returns has done: the children are drawn
    on the canvas of the mask; [popped] is the store as the state pop left
    it, [drawn] the store when the view box and the affine of the mask are
    back. *)
Lemma generate_mask_returned (cr_arg : cairo_t) (mask : RsvgNode) (w w' : World) :
  rsvg_cairo_generate_mask cr_arg mask w = Returned (tt, w') ->
  let s := next_handle w in
  let width32 := wrap32 (d_to_int (width (ctx (store w)))) in
  let height32 := wrap32 (d_to_int (height (ctx (store w)))) in
  let create := Ev_cairo_image_surface_create CAIRO_FORMAT_ARGB32 width32 height32 s in
  let mask_cr := {| cr_handle := S s; cr_target := s |} in
  if status_is_success (cairo_surface_status s) then
    exists canvas popped drawn : Store,
      mask_canvas mask w = Returned canvas
      /\ draws_children mask false canvas popped
      /\ pixels drawn = pixels popped
      /\ (forall p, st_opacity (states drawn p) = st_opacity (states popped p))
      /\ store w'
         = set_pixels s
             (luminance_rows (Z.to_nat height32) (Z.to_nat width32)
                (st_opacity (states drawn (state (ctx (store w)))))
                (pixels drawn s))
             (set_ctx (set_cr (cr (ctx (store w))) (ctx drawn)) drawn)
      /\ log w'
         = Ev_cairo_surface_destroy s
           :: Ev_cairo_mask_surface cr_arg s
                (fst (if cr_eqb cr_arg (initial_cr (ctx drawn))
                      then (offset_x (ctx drawn), offset_y (ctx drawn))
                      else (d_zero, d_zero)))
                (snd (if cr_eqb cr_arg (initial_cr (ctx drawn))
                      then (offset_x (ctx drawn), offset_y (ctx drawn))
                      else (d_zero, d_zero)))
           :: Ev_cairo_identity_matrix cr_arg
           :: Ev_cairo_destroy mask_cr
           :: Ev_state_pop :: Ev_draw_children mask 0 false :: Ev_state_push
           :: Ev_add_clipping_rect
           :: Ev_cairo_create s mask_cr
           :: create :: log w
      /\ next_handle w' = S (S s)
  else
    store w' = store w
    /\ log w' = Ev_cairo_surface_destroy s :: create :: log w
    /\ next_handle w' = S s.
Proof.
  intros H. cbv zeta. unfold rsvg_cairo_generate_mask in H.
  bind_inv H c0 w0 E0. prim_inv E0. cbv zeta in H.
  bind_inv H u1 w1 E1. apply g_assert_returned in E1. destruct E1 as [Hty Q1].
  injection Q1 as -> ->.
  bind_inv H surface w2 E2.
  apply cairo_image_surface_create_returned in E2 as Hcreate.
  destruct Hcreate as (Hs & Hc2 & Hl2 & Hn2). subst surface.
  destruct (status_is_success (cairo_surface_status (next_handle w))) eqn:Hst;
    cbn [negb] in H.
  2:{ prim_inv H. cbn [store log next_handle]. rewrite Hl2, Hn2.
      unfold cairo_image_surface_create in E2.
      cbv beta iota zeta delta [bind fresh_handle emit when ret] in E2.
      cbn [store log next_handle] in E2. rewrite Hst in E2.
      injection E2 as <-. repeat split; reflexivity. }
  clear Hc2 Hl2 Hn2.
  unfold cairo_image_surface_create in E2.
  cbv beta iota zeta delta [bind fresh_handle emit when ret modify_store] in E2.
  cbn [store log next_handle] in E2. rewrite Hst in E2.
  injection E2 as <-.
  rewrite view_box_excursion in H.
  bind_inv H mask_cr w3 E3. prim_inv E3.
  bind_inv H c1 w4 E4. prim_inv E4.
  bind_inv H u5 w5 E5. prim_inv E5.
  bind_inv H state_ptr w6 E6. prim_inv E6.
  bind_inv H st w7 E7. prim_inv E7.
  bind_inv H u8 w8 E8.
  assert (Hclip : exists clipped,
             mask_canvas mask w
             = Returned
                 (if units_is_obb (rsvg_node_mask_get_content_units mask) then
                    view_box_pushed d_one d_one
                      (rsvg_state_set_affine (rsvg_node_get_state mask)
                         (cairo_matrix_multiply
                            (cairo_matrix_init
                               (rect_width (rect (bbox (ctx clipped)))) d_zero d_zero
                               (rect_height (rect (bbox (ctx clipped))))
                               (rect_x (rect (bbox (ctx clipped))))
                               (rect_y (rect (bbox (ctx clipped)))))
                            (st_affine (states clipped (rsvg_node_get_state mask))))
                         clipped)
                  else clipped)
             /\ w8 = {| store := clipped;
                        log := Ev_add_clipping_rect
                               :: Ev_cairo_create (next_handle w)
                                    {| cr_handle := S (next_handle w);
                                       cr_target := next_handle w |}
                               :: Ev_cairo_image_surface_create CAIRO_FORMAT_ARGB32
                                    (wrap32 (d_to_int (width (ctx (store w)))))
                                    (wrap32 (d_to_int (height (ctx (store w)))))
                                    (next_handle w)
                               :: log w;
                        next_handle := S (S (next_handle w)) |}).
  { unfold mask_canvas. cbv zeta.
    destruct (units_is_obb (rsvg_node_mask_get_units mask));
      apply call_out_inv in E8; destruct E8 as (s8 & Hs8 & ->); exists s8;
      (split; [|reflexivity]);
      match goal with
      | |- match ?x with _ => _ end = _ =>
          replace x with (Returned s8) by (symmetry; exact Hs8)
      end; reflexivity. }
  clear E8. destruct Hclip as (clipped & Hcanvas & ->).
  bind_inv H affinesave w9 E9.
  set (canvas := if units_is_obb (rsvg_node_mask_get_content_units mask) then _
                 else clipped) in Hcanvas.
  assert (Hw9 : store w9 = canvas
                /\ log w9 = Ev_add_clipping_rect
                            :: Ev_cairo_create (next_handle w)
                                 {| cr_handle := S (next_handle w);
                                    cr_target := next_handle w |}
                            :: Ev_cairo_image_surface_create CAIRO_FORMAT_ARGB32
                                 (wrap32 (d_to_int (width (ctx (store w)))))
                                 (wrap32 (d_to_int (height (ctx (store w)))))
                                 (next_handle w)
                            :: log w
                /\ next_handle w9 = S (S (next_handle w))).
  { unfold canvas. destruct (units_is_obb (rsvg_node_mask_get_content_units mask)).
    - bind_inv E9 c9 w10 E10. prim_inv E10.
      bind_inv E9 saved w11 E11. rewrite premultiply_bbox_eq in E11.
      injection E11 as -> <-.
      bind_inv E9 u12 w12 E12. prim_inv E12. prim_inv E9.
      repeat split; reflexivity.
    - prim_inv E9. repeat split; reflexivity. }
  clear E9. clearbody canvas. destruct Hw9 as (Hs9 & Hl9 & Hn9).
  apply draw_sequence_returned in H. destruct H as (popped & Hdraw & H).
  rewrite Hs9 in Hdraw.
  bind_inv H u11 w11 E11.
  assert (Hpost : pixels (store w11) = pixels popped
                  /\ (forall p, st_opacity (states (store w11) p)
                                = st_opacity (states popped p))
                  /\ log w11 = Ev_state_pop :: Ev_draw_children mask 0 false
                               :: Ev_state_push :: log w9
                  /\ next_handle w11 = next_handle w9).
  { destruct affinesave as [saved|].
    - bind_inv E11 u12 w12 E12.
      unfold rsvg_drawing_ctx_pop_view_box in E12.
      bind_inv E12 c12 w13 E13. prim_inv E13.
      cbn [store ctx] in E12.
      destruct (vb_stack (ctx popped)); [discriminate|].
      prim_inv E12. prim_inv E11.
      cbn [store set_store set_ctx rsvg_state_set_affine pixels states log next_handle].
      split; [reflexivity|]. split; [|split; reflexivity].
      intros p. destruct (Pos.eqb p (rsvg_node_get_state mask)) eqn:Hp; [|reflexivity].
      apply Pos.eqb_eq in Hp. subst p. reflexivity.
    - prim_inv E11. repeat split; reflexivity. }
  clear E11. destruct Hpost as (Hpx & Hop & Hl11 & Hn11).
  bind_inv H u12 w12 E12. prim_inv E12.
  bind_inv H st' w13 E13. prim_inv E13.
  bind_inv H u14 w14 E14. prim_inv E14.
  bind_inv H u15 w15 E15. prim_inv E15.
  bind_inv H c2 w16 E16. prim_inv E16.
  bind_inv H offset w17 E17.
  match type of E17 with
  | context [cr_eqb cr_arg ?x] => destruct (cr_eqb cr_arg x) eqn:Hnested
  end; prim_inv E17.
  all: bind_inv H u18 w18 E18; prim_inv E18;
    bind_inv H u19 w19 E19; prim_inv E19;
    prim_inv H;
    cbn [store ctx log next_handle set_pixels set_ctx set_cr cr initial_cr offset_x
         offset_y] in *;
    exists canvas, popped, (store w11);
    rewrite Hnested, Hl11, Hl9, Hn11, Hn9;
    repeat split; first [reflexivity | assumption].
Qed.

(** X16: a mask generation that returns leaves the cairo context of the
    drawing context as it was.  With a surface that cairo could allocate it
    makes these calls and no others, in this order: the surface and a
    context on it are created, the clipping rectangle is added, the
    children of the mask are drawn between a state push and a state pop, the
    context of the mask is destroyed, and the surface is used as a mask on
    the context given, once, at the offset of the drawing context if that
    context is the initial one and at the origin otherwise, and destroyed.
    With a surface that could not be allocated the surface is created and
    destroyed and that is all. *)
Theorem rsvg_cairo_generate_mask_trace (cr_arg : cairo_t) (mask : RsvgNode)
    (w w' : World) :
  rsvg_cairo_generate_mask cr_arg mask w = Returned (tt, w') ->
  let s := next_handle w in
  let create :=
    Ev_cairo_image_surface_create CAIRO_FORMAT_ARGB32
      (wrap32 (d_to_int (width (ctx (store w)))))
      (wrap32 (d_to_int (height (ctx (store w))))) s in
  let mask_cr := {| cr_handle := S s; cr_target := s |} in
  cr (ctx (store w')) = cr (ctx (store w))
  /\ if status_is_success (cairo_surface_status s) then
       next_handle w' = S (S s)
       /\ exists x y,
            log w' = Ev_cairo_surface_destroy s
                     :: Ev_cairo_mask_surface cr_arg s x y
                     :: Ev_cairo_identity_matrix cr_arg
                     :: Ev_cairo_destroy mask_cr
                     :: Ev_state_pop :: Ev_draw_children mask 0 false :: Ev_state_push
                     :: Ev_add_clipping_rect
                     :: Ev_cairo_create s mask_cr
                     :: create :: log w
            /\ (x, y) = if cr_eqb cr_arg (initial_cr (ctx (store w')))
                        then (offset_x (ctx (store w')), offset_y (ctx (store w')))
                        else (d_zero, d_zero)
     else
       next_handle w' = S s
       /\ log w' = Ev_cairo_surface_destroy s :: create :: log w.
Proof.
  intros H. apply generate_mask_returned in H. cbv zeta in *.
  destruct (status_is_success (cairo_surface_status (next_handle w))).
  - destruct H as (canvas & popped & drawn & _ & _ & _ & _ & Hs & Hl & Hn).
    rewrite Hs.
    cbn [set_pixels set_ctx set_cr ctx cr initial_cr offset_x offset_y].
    split; [reflexivity|]. split; [exact Hn|].
    eexists _, _. split; [exact Hl|].
    destruct (cr_eqb cr_arg (initial_cr (ctx drawn))); reflexivity.
  - destruct H as (Hs & Hl & Hn). rewrite Hs. repeat split; assumption.
Qed.

(** C5: in the generation of a mask the children of the mask are drawn on
    the canvas of the mask, and the luminance loop then turns every pixel
    of the first [height] rows and first [width] columns of the surface
    into (R * 14042 + G * 47240 + B * 4769) * opacity, R, G and B read from
    their byte positions of what was drawn there and the opacity that of the
    state that was current at the call, without wrap-around.  The alpha byte
    of the word stored is within 1 of
    (0.2126 R + 0.7152 G + 0.0722 B) * opacity / 255: within 1 of 0xFF for
    white at opacity 255, 0 for black, 0 for every colour at opacity 0.
    Each weight is within 1 of its ratio scaled by
    0xFFFFFFFF / (255 * 255). *)
Theorem luminance_mask_alpha (cr_arg : cairo_t) (mask : RsvgNode) (w w' : World) :
  rsvg_cairo_generate_mask cr_arg mask w = Returned (tt, w') ->
  status_is_success (cairo_surface_status (next_handle w)) = true ->
  let s := next_handle w in
  let width32 := wrap32 (d_to_int (width (ctx (store w)))) in
  let height32 := wrap32 (d_to_int (height (ctx (store w)))) in
  exists canvas drawn : Store,
    mask_canvas mask w = Returned canvas
    /\ draws_children mask false canvas drawn
    /\ (let opacity := st_opacity (states drawn (state (ctx (store w)))) in
        is_guchar opacity ->
        forall (row i : nat) (pixel : Z),
          Z.of_nat row < height32 -> Z.of_nat i < width32 ->
          pixel_at (pixels drawn s) row i = Some pixel ->
          let R := (pixel / 2 ^ 16) mod 256 in
          let G := (pixel / 2 ^ 8) mod 256 in
          let B := pixel mod 256 in
          exists pixel',
            pixel_at (pixels (store w') s) row i = Some pixel'
            /\ pixel' = (R * 14042 + G * 47240 + B * 4769) * opacity
            /\ Z.abs (alpha_of pixel' * (10000 * 255)
                      - (2126 * R + 7152 * G + 722 * B) * opacity) <= 10000 * 255
            /\ (pixel = 0x00FFFFFF -> opacity = 255 -> Z.abs (alpha_of pixel' - 0xFF) <= 1)
            /\ (pixel = 0x00000000 -> alpha_of pixel' = 0x00)
            /\ (opacity = 0 -> alpha_of pixel' = 0))
    /\ Z.abs (14042 * (255 * 255 * 10000) - 2126 * 0xFFFFFFFF) <= 255 * 255 * 10000
    /\ Z.abs (47240 * (255 * 255 * 10000) - 7152 * 0xFFFFFFFF) <= 255 * 255 * 10000
    /\ Z.abs (4769 * (255 * 255 * 10000) - 722 * 0xFFFFFFFF) <= 255 * 255 * 10000.
Proof.
  intros H Hst. apply generate_mask_returned in H. cbv zeta in *. rewrite Hst in H.
  destruct H as (canvas & popped & drawn & Hcanvas & Hdraw & Hpx & Hop & Hs & _ & _).
  exists canvas, popped. split; [exact Hcanvas|]. split; [exact Hdraw|].
  split; [|repeat split; vm_compute; discriminate].
  intros Ho row i pixel Hrow Hi Hlook.
  rewrite Hs. cbn [set_pixels pixels]. rewrite Nat.eqb_refl.
  rewrite luminance_rows_pixel, Hpx, Hop, Hlook.
  destruct (decide _) as [_|Hout]; [|lia].
  cbn [fmap option_fmap option_map].
  destruct (luminance_pixel_alpha pixel _ Ho) as (Hsum & Hnear).
  eexists. split; [reflexivity|]. split; [exact Hsum|]. split; [exact Hnear|].
  split; [|split].
  - intros -> ->. vm_compute. discriminate.
  - intros ->. rewrite Hsum. reflexivity.
  - intros Hz. rewrite Hsum, Hz, Z.mul_0_r. reflexivity.
Qed.

(** X21: the surface that a mask generation uses as the mask holds, in its
    first [height] rows and first [width] columns, the luminance word of
    what the drawing of the children of the mask on the canvas of the mask
    left there, at the opacity that this drawing left in the state that was
    current when the function was called; beyond those rows and columns the
    surface is as the drawing left it, and so are the pixels of every other
    surface and the opacity of every state. *)
Theorem rsvg_cairo_generate_mask_pixels (cr_arg : cairo_t) (mask : RsvgNode)
    (w w' : World) :
  rsvg_cairo_generate_mask cr_arg mask w = Returned (tt, w') ->
  status_is_success (cairo_surface_status (next_handle w)) = true ->
  let s := next_handle w in
  let width32 := Z.to_nat (wrap32 (d_to_int (width (ctx (store w))))) in
  let height32 := Z.to_nat (wrap32 (d_to_int (height (ctx (store w))))) in
  exists canvas drawn : Store,
    mask_canvas mask w = Returned canvas
    /\ draws_children mask false canvas drawn
    /\ (forall p, st_opacity (states (store w') p) = st_opacity (states drawn p))
    /\ (forall other, other <> s -> pixels (store w') other = pixels drawn other)
    /\ length (pixels (store w') s) = length (pixels drawn s)
    /\ forall row i,
         pixel_at (pixels (store w') s) row i
         = if decide (row < height32 /\ i < width32)%nat
           then (fun pixel =>
                   luminance_pixel pixel
                     (st_opacity (states drawn (state (ctx (store w))))))
                <$> pixel_at (pixels drawn s) row i
           else pixel_at (pixels drawn s) row i.
Proof.
  intros H Hst. apply generate_mask_returned in H. cbv zeta in *. rewrite Hst in H.
  destruct H as (canvas & popped & drawn & Hcanvas & Hdraw & Hpx & Hop & Hs & _ & _).
  exists canvas, popped. split; [exact Hcanvas|]. split; [exact Hdraw|].
  rewrite Hs. cbn [set_pixels set_ctx states pixels].
  split; [exact Hop|]. split.
  { intros other Hother. destruct (Nat.eqb_spec other (next_handle w)); [contradiction|].
    rewrite Hpx. reflexivity. }
  rewrite Nat.eqb_refl, Hpx, Hop. split; [apply luminance_rows_length|].
  intros row i. apply luminance_rows_pixel.
Qed.

End MaskTrace.

Lemma luminance_mask_alpha_witness :
  exists w',
    rsvg_cairo_generate_mask (E := MaskSample.externals) Sample.root_cr 2%positive
      (Sample.world Sample.plain []) = Returned (tt, w')
    /\ exists pixel',
         pixel_at (pixels (store w') 1%nat) 0 0 = Some pixel'
         /\ pixel' = (255 * 14042 + 255 * 47240 + 255 * 4769) * 255
         /\ Z.abs (alpha_of pixel' - 0xFF) <= 1.
Proof.
  pose (w0 := Sample.world Sample.plain []).
  pose (w' := Sample.world_after
                (rsvg_cairo_generate_mask (E := MaskSample.externals) Sample.root_cr
                   2%positive w0) w0).
  assert (H : rsvg_cairo_generate_mask (E := MaskSample.externals) Sample.root_cr
                2%positive w0 = Returned (tt, w'))
    by (vm_compute; reflexivity).
  exists w'. split; [exact H|].
  destruct (luminance_mask_alpha (E := MaskSample.externals) Sample.root_cr 2%positive
              w0 w' H eq_refl)
    as (canvas & drawn & Hcanvas & (s1 & s2 & H1 & H2 & H3) & Hpixel & _).
  vm_compute in Hcanvas. injection Hcanvas as <-.
  vm_compute in H1. injection H1 as <-.
  vm_compute in H2. injection H2 as <-.
  vm_compute in H3. injection H3 as <-.
  assert (Ho : is_guchar 255) by (unfold is_guchar; lia).
  destruct (Hpixel Ho 0%nat 0%nat 0x00FFFFFF ltac:(reflexivity) ltac:(reflexivity)
              eq_refl) as (pixel' & Hat & Hsum & _ & Hwhite & _).
  exists pixel'. split; [exact Hat|]. split; [exact Hsum|].
  exact (Hwhite eq_refl eq_refl).
Defined.

Lemma rsvg_cairo_generate_mask_trace_witness :
  exists w',
    rsvg_cairo_generate_mask (E := Sample.externals) Sample.root_cr 2%positive
      (Sample.world Sample.plain []) = Returned (tt, w')
    /\ cr (ctx (store w')) = Sample.root_cr
    /\ next_handle w' = 3%nat.
Proof.
  pose (w' := Sample.world_after
                (rsvg_cairo_generate_mask (E := Sample.externals) Sample.root_cr
                   2%positive (Sample.world Sample.plain []))
                (Sample.world Sample.plain [])).
  assert (H : rsvg_cairo_generate_mask (E := Sample.externals) Sample.root_cr 2%positive
                (Sample.world Sample.plain []) = Returned (tt, w'))
    by (vm_compute; reflexivity).
  exists w'. split; [exact H|].
  destruct (rsvg_cairo_generate_mask_trace (E := Sample.externals) Sample.root_cr
              2%positive (Sample.world Sample.plain []) w' H) as (Hcr & Hrest).
  split; [exact Hcr|]. exact (proj1 Hrest).
Defined.

(** ** Drawing a node *)

Section TreeProperties.
Context {D : DoubleOps} {E : Externals} {T : TreeExternals}.

Lemma call_unlogged_returned {A : Type} (f : Store -> outcome (A * Store)) (w w' : World)
    (a : A) :
  call_unlogged f w = Returned (a, w') ->
  f (store w) = Returned (a, store w') /\ log w' = log w /\ next_handle w' = next_handle w.
Proof.
  unfold call_unlogged. destruct (f (store w)) as [[a0 s]| |]; try discriminate.
  intros H. injection H as -> <-. repeat split; reflexivity.
Qed.

Lemma draw_node_if_visible_returned (stack : list RsvgNode) (node : RsvgNode)
    (dominate : Z) (clipping : bool) (w w' : World) (left : list RsvgNode) :
  draw_node_if_visible stack node dominate clipping w = Returned (left, w') ->
  next_handle w' = next_handle w
  /\ if rsvg_state_is_visible (rsvg_node_get_state node) (store w) then
       log w' = Ev_state_pop :: Ev_state_push :: log w
       /\ exists s1 s2,
            rsvg_drawing_ctx_state_push (store w) = Returned s1
            /\ rsvg_node_draw node dominate clipping stack s1 = Returned (left, s2)
            /\ rsvg_drawing_ctx_state_pop s2 = Returned (store w')
     else w' = w /\ left = stack.
Proof.
  intros H. unfold draw_node_if_visible in H. cbv zeta in H.
  bind_inv H s w0 E0. prim_inv E0.
  destruct (rsvg_state_is_visible (rsvg_node_get_state node) (store w)).
  - bind_inv H u1 w1 E1. apply call_out_returned in E1. destruct E1 as (s1 & F1 & Q1).
    injection Q1 as -> ->.
    bind_inv H l2 w2 E2. apply call_unlogged_returned in E2.
    destruct E2 as (F2 & Hl2 & Hn2). cbn [store log next_handle] in F2, Hl2, Hn2.
    bind_inv H u3 w3 E3. apply call_out_returned in E3. destruct E3 as (s3 & F3 & Q3).
    injection Q3 as -> ->. prim_inv H.
    cbn [store log next_handle]. rewrite Hl2, Hn2.
    split; [reflexivity|]. split; [reflexivity|].
    exists s1, (store w2). repeat split; assumption.
  - prim_inv H. repeat split; reflexivity.
Qed.

Lemma draw_node_from_stack_keeps_stack (drawsub_stack : list RsvgNode) (node : RsvgNode)
    (dominate : Z) (clipping : bool) (w w' : World) (after : list RsvgNode) :
  rsvg_drawing_ctx_draw_node_from_stack drawsub_stack node dominate clipping w
  = Returned (after, w') ->
  after = drawsub_stack.
Proof.
  intros H. unfold rsvg_drawing_ctx_draw_node_from_stack in H. cbv zeta in H.
  destruct drawsub_stack as [|top next].
  - bind_inv H lft w1 E1. prim_inv H. reflexivity.
  - destruct (rsvg_node_is_same top node); cbn [negb] in H.
    + bind_inv H lft w1 E1. prim_inv H. reflexivity.
    + prim_inv H. reflexivity.
Qed.

(** X17: [rsvg_drawing_ctx_draw_node_from_stack] leaves the stack of the
    subtree being drawn as it found it, whatever the drawing of the node did
    to it.  When the stack names another node on top nothing happens at all;
    when the state of the node is not visible nothing happens either: no
    state is pushed.  Otherwise the node is drawn between a state push and a
    state pop, with the stack without its top. *)
Theorem rsvg_drawing_ctx_draw_node_from_stack_spec (drawsub_stack : list RsvgNode)
    (node : RsvgNode) (dominate : Z) (clipping : bool) (w w' : World)
    (after : list RsvgNode) :
  rsvg_drawing_ctx_draw_node_from_stack drawsub_stack node dominate clipping w
  = Returned (after, w') ->
  after = drawsub_stack
  /\ next_handle w' = next_handle w
  /\ if match drawsub_stack with
        | top :: _ => rsvg_node_is_same top node
        | [] => true
        end
        && rsvg_state_is_visible (rsvg_node_get_state node) (store w)
     then
       log w' = Ev_state_pop :: Ev_state_push :: log w
       /\ exists s1 left s2,
            rsvg_drawing_ctx_state_push (store w) = Returned s1
            /\ rsvg_node_draw node dominate clipping (tl drawsub_stack) s1
               = Returned (left, s2)
            /\ rsvg_drawing_ctx_state_pop s2 = Returned (store w')
     else w' = w.
Proof.
  intros H. unfold rsvg_drawing_ctx_draw_node_from_stack in H. cbv zeta in H.
  destruct drawsub_stack as [|top next].
  - bind_inv H lft w1 E1. prim_inv H.
    apply draw_node_if_visible_returned in E1. destruct E1 as (Hn & E1).
    split; [reflexivity|]. split; [exact Hn|]. cbn [andb tl].
    destruct (rsvg_state_is_visible (rsvg_node_get_state node) (store w)).
    + destruct E1 as (Hl & s1 & s2 & H1 & H2 & H3). split; [exact Hl|].
      exists s1, lft, s2. repeat split; assumption.
    + exact (proj1 E1).
  - destruct (rsvg_node_is_same top node); cbn [negb andb] in *.
    + bind_inv H lft w1 E1. prim_inv H.
      apply draw_node_if_visible_returned in E1. destruct E1 as (Hn & E1).
      split; [reflexivity|]. split; [exact Hn|]. cbn [tl].
      destruct (rsvg_state_is_visible (rsvg_node_get_state node) (store w)).
      * destruct E1 as (Hl & s1 & s2 & H1 & H2 & H3). split; [exact Hl|].
        exists s1, lft, s2. repeat split; assumption.
      * exact (proj1 E1).
    + prim_inv H. repeat split; reflexivity.
Qed.

(** X18: when [rsvg_cairo_get_surface_of_node] returns, the cairo context,
    the initial context, the offset and the size of the drawing context are
    what they were before the call, and so is the stack of the subtree
    being drawn.  The node is drawn with a new context on the new surface
    as the current and as the initial context, so that the current context
    does not count as nested, at offset 0 and with the size asked for, and
    the context that the drawing leaves is the one destroyed.  The function
    returns NULL exactly when cairo could not allocate the surface, and then
    the node has not been drawn: the surface has been created and destroyed,
    and the store is untouched. *)
Theorem rsvg_cairo_get_surface_of_node_restores (drawsub_stack : list RsvgNode)
    (drawable : RsvgNode) (wd ht : double) (w w' : World)
    (result : option cairo_surface_t) (after : list RsvgNode) :
  rsvg_cairo_get_surface_of_node drawsub_stack drawable wd ht w
  = Returned (result, after, w') ->
  saved_fields (ctx (store w')) = saved_fields (ctx (store w))
  /\ after = drawsub_stack
  /\ if status_is_success (cairo_surface_status (next_handle w)) then
       result = Some (next_handle w)
       /\ exists w_in w_out,
            rsvg_drawing_ctx_draw_node_from_stack drawsub_stack drawable 0 false w_in
            = Returned (drawsub_stack, w_out)
            /\ saved_fields (ctx (store w_in))
               = (let new_cr := {| cr_handle := S (next_handle w);
                                   cr_target := next_handle w |} in
                  (new_cr, new_cr, d_zero, d_zero, wd, ht))
            /\ rsvg_cairo_is_cairo_context_nested (cr (ctx (store w_in))) w_in
               = Returned (false, w_in)
            /\ log w' = Ev_cairo_destroy (cr (ctx (store w_out))) :: log w_out
     else
       result = None
       /\ store w' = store w
       /\ log w' = Ev_cairo_surface_destroy (next_handle w)
                   :: Ev_cairo_image_surface_create CAIRO_FORMAT_ARGB32
                        (d_to_int wd) (d_to_int ht) (next_handle w)
                   :: log w.
Proof.
  intros H. unfold rsvg_cairo_get_surface_of_node in H.
  bind_inv H c0 w0 E0. prim_inv E0. cbv zeta in H.
  bind_inv H surface w1 E1.
  unfold cairo_image_surface_create in E1.
  bind_inv E1 s2 w2 E2. prim_inv E2.
  bind_inv E1 u3 w3 E3. prim_inv E3.
  bind_inv E1 u4 w4 E4. prim_inv E1.
  destruct (status_is_success (cairo_surface_status (next_handle w))) eqn:Hst;
    prim_inv E4; cbn [negb] in H.
  - bind_inv H new_cr w5 E5. prim_inv E5.
    bind_inv H u6 w6 E6. prim_inv E6.
    bind_inv H u7 w7 E7. prim_inv E7.
    bind_inv H u8 w8 E8. prim_inv E8.
    bind_inv H u9 w9 E9. prim_inv E9.
    bind_inv H stack w10 E10.
    apply draw_node_from_stack_keeps_stack in E10 as Hstack. subst stack.
    bind_inv H c' w11 E11. prim_inv E11.
    bind_inv H u12 w12 E12. prim_inv E12.
    bind_inv H u13 w13 E13. prim_inv E13.
    bind_inv H u14 w14 E14. prim_inv E14.
    bind_inv H u15 w15 E15. prim_inv E15.
    bind_inv H u16 w16 E16. prim_inv E16.
    prim_inv H. subst result after.
    split; [reflexivity|]. split; [reflexivity|]. split; [reflexivity|].
    eexists _, w10. split; [exact E10|]. split; [reflexivity|].
    split; [|reflexivity].
    unfold rsvg_cairo_is_cairo_context_nested, bind, get_ctx, ret, cr_eqb.
    cbn [store ctx set_store set_ctx set_size set_offset set_initial_cr set_cr cr
         initial_cr cr_handle].
    rewrite Nat.eqb_refl. reflexivity.
  - bind_inv H u5 w5 E5. prim_inv E5. prim_inv H. subst result after.
    repeat split; reflexivity.
Qed.

Lemma push_ancestors_ancestry (path : list RsvgNode) :
  forall (fuel : nat) (node : option RsvgNode) (stack : list RsvgNode),
    is_ancestry path node ->
    push_ancestors fuel node stack
    = if decide (length path <= fuel)%nat then Some (rev path ++ stack) else None.
Proof.
  induction path as [|n path IH]; intros fuel node stack Hpath.
  - cbn [is_ancestry] in Hpath. subst node.
    destruct fuel; cbn [push_ancestors length];
      (destruct (decide (0 <= _)%nat); [reflexivity | lia]).
  - destruct Hpath as [-> Hpath]. destruct fuel as [|fuel]; cbn [push_ancestors length].
    + destruct (decide (S (length path) <= 0)%nat); [lia | reflexivity].
    + rewrite (IH fuel _ _ Hpath). unfold g_slist_prepend.
      destruct (decide (length path <= fuel)%nat), (decide (S (length path) <= S fuel)%nat);
        try lia; [|reflexivity].
      cbn [rev]. rewrite <- app_assoc. reflexivity.
Qed.

(** X19: for a node whose ancestors end at a root,
    [rsvg_drawing_ctx_add_node_and_ancestors_to_stack] puts the node and its
    ancestors on the stack above what was there, the root on top and the
    node lowest; its loop takes one turn for each of them.  For NULL it does
    nothing.  After it a walk that starts at a node other than the root
    draws nothing. *)
Theorem rsvg_drawing_ctx_add_node_and_ancestors_to_stack_spec (fuel : nat)
    (stack path : list RsvgNode) (node : option RsvgNode) :
  is_ancestry path node ->
  rsvg_drawing_ctx_add_node_and_ancestors_to_stack fuel stack node
  = (if decide (length path <= fuel)%nat then Some (rev path ++ stack) else None)
  /\ rsvg_drawing_ctx_add_node_and_ancestors_to_stack fuel stack None = Some stack
  /\ (forall root above other dominate clipping w,
        rev path = root :: above ->
        rsvg_node_is_same root other = false ->
        rsvg_drawing_ctx_draw_node_from_stack (rev path ++ stack) other dominate clipping w
        = Returned (rev path ++ stack, w)).
Proof.
  intros Hpath. split; [|split].
  - unfold rsvg_drawing_ctx_add_node_and_ancestors_to_stack.
    destruct node as [n|].
    + apply push_ancestors_ancestry. exact Hpath.
    + destruct path as [|m path]; [|destruct Hpath; discriminate].
      cbn [length rev app]. destruct (decide (0 <= fuel)%nat); [reflexivity | lia].
  - reflexivity.
  - intros root above other dominate clipping w Hrev Hother. rewrite Hrev.
    unfold rsvg_drawing_ctx_draw_node_from_stack. cbn [app]. rewrite Hother.
    reflexivity.
Qed.

End TreeProperties.

Lemma rsvg_drawing_ctx_draw_node_from_stack_spec_witness :
  exists w',
    rsvg_drawing_ctx_draw_node_from_stack (T := TreeSample.tree)
      [7%positive; 6%positive; 5%positive] 7%positive 0 false
      (Sample.world Sample.plain [])
    = Returned ([7%positive; 6%positive; 5%positive], w')
    /\ log w' = [Ev_state_pop; Ev_state_push]
    /\ bbox (ctx (store w')) = Sample.drawn_box.
Proof.
  pose (w' := Sample.world_after
                (bind (rsvg_drawing_ctx_draw_node_from_stack (T := TreeSample.tree)
                         [7%positive; 6%positive; 5%positive] 7%positive 0 false)
                      (fun _ => ret tt) (Sample.world Sample.plain []))
                (Sample.world Sample.plain [])).
  assert (H : rsvg_drawing_ctx_draw_node_from_stack (T := TreeSample.tree)
                [7%positive; 6%positive; 5%positive] 7%positive 0 false
                (Sample.world Sample.plain [])
              = Returned ([7%positive; 6%positive; 5%positive], w'))
    by (vm_compute; reflexivity).
  exists w'. split; [exact H|].
  destruct (rsvg_drawing_ctx_draw_node_from_stack_spec (T := TreeSample.tree) _ _ _ _ _ _ _ H)
    as (_ & _ & Hlog & _).
  split; [exact Hlog | reflexivity].
Defined.

Lemma rsvg_cairo_get_surface_of_node_restores_witness :
  exists w',
    rsvg_cairo_get_surface_of_node (T := TreeSample.tree) [] 5%positive 2 2
      (Sample.world Sample.plain [])
    = Returned (Some 1%nat, [], w')
    /\ saved_fields (ctx (store w')) = (Sample.root_cr, Sample.root_cr, 0, 0, 4, 3).
Proof.
  pose (w' := Sample.world_after
                (bind (rsvg_cairo_get_surface_of_node (T := TreeSample.tree) [] 5%positive
                         2 2)
                      (fun _ => ret tt) (Sample.world Sample.plain []))
                (Sample.world Sample.plain [])).
  assert (H : rsvg_cairo_get_surface_of_node (T := TreeSample.tree) [] 5%positive 2 2
                (Sample.world Sample.plain [])
              = Returned (Some 1%nat, [], w'))
    by (vm_compute; reflexivity).
  exists w'. split; [exact H|].
  exact (proj1 (rsvg_cairo_get_surface_of_node_restores (T := TreeSample.tree)
                  _ _ _ _ _ _ _ _ H)).
Defined.

Lemma rsvg_drawing_ctx_add_node_and_ancestors_to_stack_spec_witness :
  rsvg_drawing_ctx_add_node_and_ancestors_to_stack (T := TreeSample.tree) 3 []
    (Some 5%positive)
  = Some [7%positive; 6%positive; 5%positive]
  /\ rsvg_drawing_ctx_add_node_and_ancestors_to_stack (T := TreeSample.tree) 2 []
       (Some 5%positive)
     = None.
Proof.
  assert (Hpath : is_ancestry (T := TreeSample.tree) [5%positive; 6%positive; 7%positive]
                    (Some 5%positive)).
  { cbn. repeat split. }
  split.
  - exact (proj1 (rsvg_drawing_ctx_add_node_and_ancestors_to_stack_spec
                    (T := TreeSample.tree) 3 [] _ _ Hpath)).
  - exact (proj1 (rsvg_drawing_ctx_add_node_and_ancestors_to_stack_spec
                    (T := TreeSample.tree) 2 [] _ _ Hpath)).
Defined.

(** ** Layers are balanced *)

#[export] Instance same_frame_order {D : DoubleOps} {E : Externals} : PreOrder same_frame.
Proof.
  split.
  - intros w. reflexivity.
  - intros a b c Hab Hbc. unfold same_frame in *. congruence.
Qed.

Section LayerFrame.
Context {D : DoubleOps} {E : Externals}.
Hypothesis Hbal : externals_balanced.

Lemma same_frame_ctx (w w' : World) :
  frame (ctx (store w')) = frame (ctx (store w)) -> same_frame w w'.
Proof. intros H. exact H. Qed.

Lemma keeps_frame_generate_mask cr_arg mask :
  keeps same_frame (rsvg_cairo_generate_mask cr_arg mask).
Proof.
  destruct Hbal as (Hpush & Hpop & Hdraw & Hclip & Hfilter).
  unfold rsvg_cairo_generate_mask, cairo_image_surface_create, cairo_create,
    premultiply_bbox, rsvg_drawing_ctx_push_view_box, rsvg_drawing_ctx_pop_view_box.
  cbv zeta.
  keeps_run;
    first [ reflexivity
          | apply same_frame_ctx; cbn [store];
            first [ apply Hpush; assumption | apply Hpop; assumption
                  | eapply Hdraw; eassumption | eapply Hclip; eassumption ] ].
Qed.

Lemma keeps_frame_clip n b : keeps same_frame (rsvg_cairo_clip n b).
Proof.
  intros w a w' H. destruct a. apply rsvg_cairo_clip_returned in H.
  destruct H as (_ & _ & _ & _ & Hf). exact (Hf Hbal).
Qed.

(** A call that keeps the frame, between the acquisition of [n] and its
    release. *)
Lemma frame_then_release {A : Type} (m : M A) (n : RsvgNode) (w0 w w1 w2 : World)
    (a : A) (u : unit) :
  keeps same_frame m ->
  acquired_nodes (ctx (store w)) = n :: acquired_nodes (ctx (store w0)) ->
  m w = Returned (a, w1) ->
  rsvg_drawing_ctx_release_node (Some n) w1 = Returned (u, w2) ->
  frame (ctx (store w2))
  = frame (ctx (store (with_acquired (acquired_nodes (ctx (store w0))) w))).
Proof.
  intros Hk Ha Hm Hr. apply Hk in Hm. unfold same_frame in Hm.
  assert (Ha1 : acquired_nodes (ctx (store w1)) = n :: acquired_nodes (ctx (store w0))).
  { unfold frame in Hm. injection Hm as _ H2 _ _ _ _. rewrite H2. exact Ha. }
  rewrite (release_node_head n _ _ Ha1) in Hr. injection Hr as _ <-.
  unfold frame in *. cbn [with_acquired set_store set_ctx set_acquired_nodes store ctx
                          defs acquired_nodes cr_stack surfaces_stack bb_stack
                          ink_bb_stack].
  injection Hm as H1 H2 H3 H4 H5 H6. rewrite H1, H3, H4, H5, H6. reflexivity.
Qed.

Lemma keeps_frame_composite mask opacity :
  keeps same_frame (pop_render_stack_composite mask opacity).
Proof.
  intros w a w' H. unfold pop_render_stack_composite in H.
  destruct (is_set mask).
  - bind_inv H node w1 E1. rewrite acquire_node_of_type_eq in E1.
    destruct (acquirable (ctx (store w)) mask RSVG_NODE_TYPE_MASK) as [n|];
      injection E1 as <- <-; [|prim_inv H; reflexivity].
    bind_inv H c w2 E2. prim_inv E2.
    bind_inv H u3 w3 E3.
    unfold same_frame.
    rewrite (frame_then_release _ n w
               (with_acquired (n :: acquired_nodes (ctx (store w))) w) _ _ _ _
               (keeps_frame_generate_mask _ _) eq_refl E3 H).
    rewrite with_acquired_twice, with_acquired_id. reflexivity.
  - destruct (negb (opacity =? 255)); bind_inv H c w1 E1; prim_inv E1; prim_inv H;
      reflexivity.
Qed.

(** The filter block of the exit: with a filter set the surface pushed at
    the entry is taken off its stack, and that is all that changes of the
    frame. *)
Lemma filter_block_frame (filter : option string) (s0 : cairo_surface_t) (w w' : World)
    (r : cairo_surface_t * bool) :
  pop_render_stack_filter filter s0 w = Returned (r, w') ->
  if is_set filter then
    exists s rest,
      surfaces_stack (ctx (store w)) = s :: rest
      /\ frame (ctx (store w')) = frame (set_surfaces_stack rest (ctx (store w)))
  else w' = w.
Proof.
  intros H. unfold pop_render_stack_filter in H.
  destruct (is_set filter); [|prim_inv H; reflexivity].
  bind_inv H c w0 E0. prim_inv E0.
  destruct (surfaces_stack (ctx (store w))) as [|output rest] eqn:Hs; [discriminate|].
  exists output, rest. split; [reflexivity|].
  bind_inv H u1 w1 E1. prim_inv E1.
  bind_inv H node w2 E2. rewrite acquire_node_of_type_eq in E2.
  match type of E2 with
  | Returned (?x, _) = _ => destruct x as [n|]
  end; injection E2 as <- <-; [|prim_inv H; reflexivity].
  bind_inv H rendered w3 E3. bind_inv H u4 w4 E4. prim_inv H.
  assert (K : keeps same_frame
                (call_out_with (Ev_filter_render n output) (rsvg_filter_render n output))).
  { apply keeps_call_out_with. intros w5 a s F. unfold same_frame. cbn [store].
    destruct Hbal as (_ & _ & _ & _ & Hf). eapply Hf. exact F. }
  match type of E3 with
  | _ (with_acquired (n :: ?a) ?wx) = _ =>
      rewrite (frame_then_release _ n wx (with_acquired (n :: a) wx) _ _ _ _ K
                 eq_refl E3 E4)
  end.
  reflexivity.
Qed.

Ltac frame_step H w1 E :=
  let a := fresh "a" in
  let K := fresh "K" in
  apply bind_returned in H; destruct H as (a & w1 & E & H);
  match type of E with
  | ?m _ = Returned _ =>
      assert (K : keeps same_frame m) by (keeps_run; reflexivity); apply K in E; clear K
  end.

(** An exit off the fast path takes one entry off the target stack and off
    each bounding-box stack, and one off the surface stack when a filter is
    set; the definitions and the nodes under resolution stay. *)
Lemma pop_render_stack_frame (w w' : World) :
  rsvg_cairo_pop_render_stack w = Returned (tt, w') ->
  fast_path_condition w = false ->
  exists top b ib,
    cr_stack (ctx (store w)) = top :: cr_stack (ctx (store w'))
    /\ bb_stack (ctx (store w)) = b :: bb_stack (ctx (store w'))
    /\ ink_bb_stack (ctx (store w)) = ib :: ink_bb_stack (ctx (store w'))
    /\ (if is_set (st_filter (current_state w))
        then exists s, surfaces_stack (ctx (store w)) = s :: surfaces_stack (ctx (store w'))
        else surfaces_stack (ctx (store w')) = surfaces_stack (ctx (store w)))
    /\ defs (ctx (store w')) = defs (ctx (store w))
    /\ acquired_nodes (ctx (store w')) = acquired_nodes (ctx (store w)).
Proof.
  intros H Hslow. unfold rsvg_cairo_pop_render_stack in H.
  bind_inv H c0 w0 E0. prim_inv E0.
  bind_inv H p0 w1 E1. prim_inv E1.
  bind_inv H st w2 E2. prim_inv E2.
  cbv zeta in H.
  change (states (store w) (state (ctx (store w)))) with (current_state w) in *.
  bind_inv H lateclip w3 E3.
  assert (Hcond :
    (st_opacity (current_state w) =? 0xFF)
    && negb (is_set (st_filter (current_state w)))
    && negb (is_set (st_mask (current_state w)))
    && negb (is_set lateclip)
    && (st_comp_op (current_state w) =? CAIRO_OPERATOR_OVER)
    && eb_is_accumulate (st_enable_background (current_state w))
    = fast_path_condition w).
  { rewrite pop_render_stack_clip_path_eq in E3.
    unfold fast_path_condition, late_clip. cbv zeta.
    destruct (acquirable (ctx (store w)) (st_clip_path (current_state w))
                         RSVG_NODE_TYPE_CLIP_PATH) as [n|].
    - destruct (units_is_obb (rsvg_node_clip_path_get_units n));
        injection E3 as <- <-; reflexivity.
    - injection E3 as <- <-; reflexivity. }
  rewrite Hcond, Hslow in H. clear Hcond.
  assert (H3 : w3 = match lateclip with
                    | Some n => with_acquired (n :: acquired_nodes (ctx (store w))) w
                    | None => w
                    end).
  { rewrite pop_render_stack_clip_path_eq in E3.
    destruct (acquirable (ctx (store w)) (st_clip_path (current_state w))
                         RSVG_NODE_TYPE_CLIP_PATH) as [n|].
    - destruct (units_is_obb (rsvg_node_clip_path_get_units n));
        injection E3 as <- <-; reflexivity.
    - injection E3 as <- <-; reflexivity. }
  clear E3.
  bind_inv H filtered w4 E4. apply filter_block_frame in E4.
  bind_inv H c1 w5 E5. prim_inv E5.
  bind_inv H u6 w6 E6.
  destruct (cr_stack (ctx (store w4))) as [|top rest] eqn:Hcr; [discriminate|].
  prim_inv E6.
  frame_step H w7 E7. frame_step H w8 E8. frame_step H w9 E9. frame_step H w10 E10.
  assert (F10 : frame (ctx (store w10))
                = frame (set_cr_stack rest (ctx (store w4)))).
  { unfold same_frame in E7, E8, E9, E10. rewrite E10, E9, E8, E7. reflexivity. }
  clear E7 E8 E9 E10.
  assert (F4 : defs (ctx (store w4)) = defs (ctx (store w))
               /\ acquired_nodes (ctx (store w4)) = acquired_nodes (ctx (store w3))
               /\ cr_stack (ctx (store w)) = top :: rest
               /\ bb_stack (ctx (store w4)) = bb_stack (ctx (store w))
               /\ ink_bb_stack (ctx (store w4)) = ink_bb_stack (ctx (store w))
               /\ (if is_set (st_filter (current_state w))
                   then exists s, surfaces_stack (ctx (store w))
                                  = s :: surfaces_stack (ctx (store w4))
                   else surfaces_stack (ctx (store w4)) = surfaces_stack (ctx (store w)))).
  { assert (G3 : forall (P : RsvgDrawingCtx -> Prop),
               P (set_acquired_nodes (acquired_nodes (ctx (store w3))) (ctx (store w))) ->
               P (ctx (store w3))).
    { intros P HP. rewrite H3 in *. destruct lateclip; [exact HP|].
      destruct w as [[c sts px] lg nh]. destruct c. exact HP. }
    destruct (is_set (st_filter (current_state w))).
    - destruct E4 as (s & srest & Hs & Hf). unfold frame in Hf.
      cbn [set_surfaces_stack defs acquired_nodes cr_stack surfaces_stack bb_stack
           ink_bb_stack] in Hf.
      injection Hf as H1 H2 H4 H5 H6 H7.
      revert H1 H2 H4 H5 H6 H7 Hs. apply G3.
      cbn [set_acquired_nodes defs acquired_nodes cr_stack surfaces_stack bb_stack
           ink_bb_stack].
      intros H1 H2 H4 H5 H6 H7 Hs. rewrite <- H4, Hcr. rewrite H5.
      repeat split; try assumption. exists s. exact Hs.
    - subst w4. revert Hcr. apply G3.
      cbn [set_acquired_nodes defs acquired_nodes cr_stack surfaces_stack bb_stack
           ink_bb_stack].
      intros Hcr. repeat split; assumption. }
  clear E4. destruct F4 as (D4 & A4 & C4 & B4 & I4 & S4).
  unfold frame in F10.
  cbn [set_cr_stack defs acquired_nodes cr_stack surfaces_stack bb_stack ink_bb_stack]
    in F10.
  injection F10 as D10 A10 C10 S10 B10 I10.
  bind_inv H u11 w11 E11.
  assert (F11 : frame (ctx (store w11))
                = frame (ctx (store (with_acquired (acquired_nodes (ctx (store w))) w10)))).
  { destruct lateclip as [n|].
    - bind_inv E11 c w12 E12. prim_inv E12.
      bind_inv E11 u13 w13 E13.
      refine (frame_then_release _ n w w10 _ _ _ _
                (keeps_frame_clip n (Some (bbox (ctx (store w10))))) _ E13 E11).
      rewrite A10, A4, H3. reflexivity.
    - prim_inv E11. rewrite <- (with_acquired_id w10) at 1.
      rewrite A10, A4, H3. reflexivity. }
  clear E11.
  frame_step H w12 E12. frame_step H w13 E13.
  bind_inv H u14 w14 E14. apply keeps_frame_composite in E14.
  frame_step H w15 E15.
  assert (F15 : frame (ctx (store w15))
                = frame (ctx (store (with_acquired (acquired_nodes (ctx (store w))) w10)))).
  { unfold same_frame in E12, E13, E14, E15. rewrite E15, E14, E13, E12. exact F11. }
  clear E12 E13 E14 E15 F11.
  unfold frame in F15.
  cbn [with_acquired set_store set_ctx set_acquired_nodes store ctx defs acquired_nodes
       cr_stack surfaces_stack bb_stack ink_bb_stack] in F15.
  injection F15 as D15 A15 C15 S15 B15 I15.
  bind_inv H u16 w16 E16. unfold pop_bounding_box in E16.
  bind_inv E16 c16 w17 E17. prim_inv E17.
  destruct (bb_stack (ctx (store w15))) as [|b bs] eqn:Hb; [discriminate|].
  destruct (ink_bb_stack (ctx (store w15))) as [|ib ibs] eqn:Hib; [discriminate|].
  prim_inv E16.
  assert (Hend : ctx (store w')
                 = set_bb_stacks bs ibs
                     (set_bboxes (rsvg_bbox_insert b (bbox (ctx (store w15))))
                        (rsvg_bbox_insert ib (ink_bbox (ctx (store w15))))
                        (ctx (store w15)))).
  { destruct (snd filtered); prim_inv H; reflexivity. }
  rewrite Hend.
  cbn [set_bb_stacks set_bboxes defs acquired_nodes cr_stack surfaces_stack bb_stack
       ink_bb_stack].
  exists top, b, ib.
  rewrite C15, C10, D15, D10, D4, A15, S15, S10.
  rewrite <- B4, <- B10, <- B15, <- I4, <- I10, <- I15.
  repeat split; assumption.
Qed.

(** An entry off the fast path puts one entry on the target stack and on
    each bounding-box stack, and one on the surface stack when a filter is
    set; on the fast path the frame stays. *)
Lemma push_render_stack_frame (w w' : World) :
  rsvg_cairo_push_render_stack w = Returned (tt, w') ->
  if fast_path_condition w then frame (ctx (store w')) = frame (ctx (store w))
  else
    exists top b ib,
      cr_stack (ctx (store w')) = top :: cr_stack (ctx (store w))
      /\ bb_stack (ctx (store w')) = b :: bb_stack (ctx (store w))
      /\ ink_bb_stack (ctx (store w')) = ib :: ink_bb_stack (ctx (store w))
      /\ (if is_set (st_filter (current_state w))
          then exists s, surfaces_stack (ctx (store w'))
                         = s :: surfaces_stack (ctx (store w))
          else surfaces_stack (ctx (store w')) = surfaces_stack (ctx (store w)))
      /\ defs (ctx (store w')) = defs (ctx (store w))
      /\ acquired_nodes (ctx (store w')) = acquired_nodes (ctx (store w)).
Proof.
  intros H. unfold rsvg_cairo_push_render_stack in H.
  bind_inv H p w0 E0. prim_inv E0.
  bind_inv H st w1 E1. prim_inv E1.
  cbv zeta in H.
  bind_inv H late w2 E2.
  change (states (store w) (state (ctx (store w)))) with (current_state w) in *.
  apply push_render_stack_clip_path_returned in E2.
  destruct E2 as (Hlate & _ & _ & Hf). specialize (Hf Hbal).
  assert (Hcond :
    (st_opacity (current_state w) =? 0xFF)
    && negb (is_set (st_filter (current_state w)))
    && negb (is_set (st_mask (current_state w)))
    && negb late
    && (st_comp_op (current_state w) =? CAIRO_OPERATOR_OVER)
    && eb_is_accumulate (st_enable_background (current_state w))
    = fast_path_condition w).
  { rewrite Hlate. reflexivity. }
  rewrite Hcond in H. clear Hcond Hlate.
  destruct (fast_path_condition w).
  - prim_inv H. exact Hf.
  - unfold frame in Hf. injection Hf as D2 A2 C2 S2 B2 I2.
    bind_inv H c w3 E3. prim_inv E3.
    bind_inv H surface w4 E4.
    destruct (is_set (st_filter (current_state w))); cbn [negb] in E4.
    + bind_inv E4 s w5 E5. apply cairo_image_surface_create_returned in E5.
      destruct E5 as (Hs & Hc5 & _ & _). subst s.
      bind_inv E4 u6 w6 E6. prim_inv E6. prim_inv E4. prim_inv H.
      cbn [store ctx set_store set_ctx set_cr set_cr_stack set_surfaces_stack
           set_bb_stacks set_bboxes cr cr_stack bb_stack ink_bb_stack surfaces_stack
           defs acquired_nodes g_slist_prepend].
      rewrite Hc5, C2, S2, B2, I2, D2, A2.
      eexists _, _, _. repeat split. eexists. reflexivity.
    + prim_inv E4. prim_inv H.
      cbn [store ctx set_store set_ctx set_cr set_cr_stack set_surfaces_stack
           set_bb_stacks set_bboxes cr cr_stack bb_stack ink_bb_stack surfaces_stack
           defs acquired_nodes g_slist_prepend].
      rewrite C2, S2, B2, I2, D2, A2.
      eexists _, _, _. repeat split.
Qed.

Lemma pop_render_stack_fast (w : World) :
  fast_path_condition w = true ->
  rsvg_cairo_pop_render_stack w = Returned (tt, w).
Proof.
  intros Hfast. unfold rsvg_cairo_pop_render_stack.
  cbv beta iota zeta delta [bind get_ctx rsvg_drawing_ctx_get_current_state read_state
                            get_store ret].
  rewrite pop_render_stack_clip_path_eq.
  change (states (store w) (state (ctx (store w)))) with (current_state w).
  unfold fast_path_condition, late_clip in Hfast.
  destruct (acquirable (ctx (store w)) (st_clip_path (current_state w))
                       RSVG_NODE_TYPE_CLIP_PATH) as [n|].
  - destruct (units_is_obb (rsvg_node_clip_path_get_units n)).
    + rewrite !andb_false_r in Hfast. discriminate.
    + cbn [is_set]. cbv zeta in Hfast. rewrite Hfast. reflexivity.
  - cbn [is_set]. cbv zeta in Hfast. rewrite Hfast. reflexivity.
Qed.

(** X20: entering and leaving a layer are balanced.  When the code called
    from here is balanced, and what is drawn between the entry and the exit
    leaves the frame as the entry made it and the style state as the entry
    found it, an exit that returns leaves the target stack, the surface
    stack, the two bounding-box stacks, the definitions and the nodes under
    resolution as they were before the entry; and off the fast path the
    exit finds each stack it pops non-empty. *)
Theorem render_stack_balanced (w w1 w2 w3 : World) :
  rsvg_cairo_push_render_stack w = Returned (tt, w1) ->
  frame (ctx (store w2)) = frame (ctx (store w1)) ->
  current_state w2 = current_state w ->
  (rsvg_cairo_pop_render_stack w2 = Returned (tt, w3) ->
   frame (ctx (store w3)) = frame (ctx (store w)))
  /\ (fast_path_condition w = false ->
      cr_stack (ctx (store w2)) <> [] /\ bb_stack (ctx (store w2)) <> []
      /\ ink_bb_stack (ctx (store w2)) <> []
      /\ (is_set (st_filter (current_state w)) = true ->
          surfaces_stack (ctx (store w2)) <> [])).
Proof.
  intros Hpush Hdrawn Hstyle.
  apply push_render_stack_frame in Hpush.
  unfold frame in Hdrawn. injection Hdrawn as D2 A2 C2 S2 B2 I2.
  assert (Hsame : fast_path_condition w2 = fast_path_condition w).
  { unfold fast_path_condition, late_clip. cbv zeta. rewrite Hstyle.
    assert (Hres : defs (ctx (store w2)) = defs (ctx (store w))
                   /\ acquired_nodes (ctx (store w2)) = acquired_nodes (ctx (store w))).
    { destruct (fast_path_condition w).
      - unfold frame in Hpush. injection Hpush as D1 A1 _ _ _ _.
        split; congruence.
      - destruct Hpush as (top & b & ib & _ & _ & _ & _ & D1 & A1). split; congruence. }
    destruct Hres as [Hd Ha].
    rewrite (acquirable_resolution _ _ _ _ Hd Ha). reflexivity. }
  destruct (fast_path_condition w) eqn:Hfast.
  - split; [|discriminate].
    intros Hpop. rewrite (pop_render_stack_fast w2 Hsame) in Hpop.
    injection Hpop as <-.
    unfold frame in *. injection Hpush as D1 A1 C1 S1 B1 I1.
    rewrite D2, A2, C2, S2, B2, I2, D1, A1, C1, S1, B1, I1. reflexivity.
  - destruct Hpush as (top & b & ib & C1 & B1 & I1 & S1 & D1 & A1).
    split.
    + intros Hpop. apply pop_render_stack_frame in Hpop; [|exact Hsame].
      destruct Hpop as (top' & b' & ib' & C3 & B3 & I3 & S3 & D3 & A3).
      rewrite Hstyle in S3.
      unfold frame. rewrite D3, A3, D2, A2, D1, A1.
      rewrite C2, C1 in C3. rewrite B2, B1 in B3. rewrite I2, I1 in I3.
      injection C3 as _ C3. injection B3 as _ B3. injection I3 as _ I3.
      rewrite <- C3, <- B3, <- I3.
      destruct (is_set (st_filter (current_state w))).
      * destruct S1 as (s & S1). destruct S3 as (s' & S3).
        rewrite S2, S1 in S3. injection S3 as _ S3. rewrite <- S3. reflexivity.
      * rewrite S3, S2, S1. reflexivity.
    + intros _. rewrite C2, C1, B2, B1, I2, I1, S2.
      repeat split; try discriminate.
      intros Hfilter. rewrite Hfilter in S1. destruct S1 as (s & ->). discriminate.
Qed.

End LayerFrame.

Lemma render_stack_balanced_witness :
  rsvg_cairo_pop_render_stack (E := Sample.externals) LayerSample.filtered_entered
  = Returned (tt, LayerSample.filtered_left)
  /\ surfaces_stack (ctx (store LayerSample.filtered_entered)) = [1%nat]
  /\ frame (ctx (store LayerSample.filtered_left))
     = frame (ctx (store (Sample.world LayerSample.filtered []))).
Proof.
  assert (Hpush : rsvg_cairo_push_render_stack (E := Sample.externals)
                    (Sample.world LayerSample.filtered [])
                  = Returned (tt, LayerSample.filtered_entered))
    by (vm_compute; reflexivity).
  assert (Hpop : rsvg_cairo_pop_render_stack (E := Sample.externals)
                   LayerSample.filtered_entered
                 = Returned (tt, LayerSample.filtered_left))
    by (vm_compute; reflexivity).
  split; [exact Hpop|]. split; [reflexivity|].
  exact (proj1 (render_stack_balanced (E := Sample.externals)
                  (sample_externals_balanced (fun _ => CAIRO_STATUS_SUCCESS))
                  (Sample.world LayerSample.filtered []) LayerSample.filtered_entered
                  LayerSample.filtered_entered LayerSample.filtered_left
                  Hpush eq_refl eq_refl)
           Hpop).
Defined.

Lemma rsvg_cairo_generate_mask_pixels_witness :
  exists w',
    rsvg_cairo_generate_mask (E := MaskSample.externals) Sample.root_cr 2%positive
      (Sample.world Sample.translucent []) = Returned (tt, w')
    /\ pixel_at (pixels (store w') 1%nat) 0 1 = Some (luminance_pixel 0x00020202 128)
    /\ pixel_at (pixels (store w') 1%nat) 1 1 = Some 0
    /\ pixel_at (pixels (store w') 1%nat) 0 4 = None
    /\ length (pixels (store w') 1%nat) = 3%nat.
Proof.
  pose (w0 := Sample.world Sample.translucent []).
  pose (w' := Sample.world_after
                (rsvg_cairo_generate_mask (E := MaskSample.externals) Sample.root_cr
                   2%positive w0) w0).
  assert (H : rsvg_cairo_generate_mask (E := MaskSample.externals) Sample.root_cr
                2%positive w0 = Returned (tt, w'))
    by (vm_compute; reflexivity).
  exists w'. split; [exact H|].
  destruct (rsvg_cairo_generate_mask_pixels (E := MaskSample.externals) Sample.root_cr
              2%positive w0 w' H eq_refl)
    as (canvas & drawn & Hcanvas & (s1 & s2 & H1 & H2 & H3) & _ & _ & Hlen & Hpixel).
  vm_compute in Hcanvas. injection Hcanvas as <-.
  vm_compute in H1. injection H1 as <-.
  vm_compute in H2. injection H2 as <-.
  vm_compute in H3. injection H3 as <-.
  split; [|split; [|split]].
  - etransitivity; [exact (Hpixel 0%nat 1%nat) | vm_compute; reflexivity].
  - etransitivity; [exact (Hpixel 1%nat 1%nat) | vm_compute; reflexivity].
  - etransitivity; [exact (Hpixel 0%nat 4%nat) | vm_compute; reflexivity].
  - etransitivity; [exact Hlen | vm_compute; reflexivity].
Defined.

(** ** Paint servers *)

Section PaintServerProperties.
Context {P : PaintExternals}.

Lemma parse_current_color_or_argb_returned (str : string) (given : bool)
    (alt : RsvgSolidColor) :
  parse_current_color_or_argb str = Returned (given, alt) ->
  (given = false -> alt = {| currentcolor := false; argb := 0 |})
  /\ (currentcolor alt = true -> given = true /\ argb alt = 0).
Proof.
  unfold parse_current_color_or_argb.
  destruct (String.eqb str "none").
  - intros H. injection H as <- <-. split; [reflexivity | discriminate].
  - destruct (spec_kind _); try discriminate;
      intros H; injection H as <- <-; split; try reflexivity; try discriminate;
      intros _; split; reflexivity.
Qed.

(** X6: whatever the parsers give, a paint server that
    [rsvg_paint_server_parse] returns has a reference count of 1; [inherit]
    is written exactly when the pointer is given, and FALSE is written only
    together with the solid colour 0; a solid server for the current colour
    holds the colour 0; the alternate of a reference that has none is the
    colour 0, and the current colour as an alternate always counts as
    one. *)
Theorem rsvg_paint_server_parse_result (inherit_given : bool) (str : option string)
    (stored : option bool) (ps : option RsvgPaintServer) :
  rsvg_paint_server_parse inherit_given str = Returned (stored, ps) ->
  (is_set stored = inherit_given)
  /\ (stored = Some false -> ps = Some (rsvg_paint_server_solid 0))
  /\ (forall server, ps = Some server ->
        refcnt server = 1
        /\ (forall color, core server = RSVG_PAINT_SERVER_SOLID color ->
              currentcolor color = true -> argb color = 0)
        /\ (forall iri, core server = RSVG_PAINT_SERVER_IRI iri ->
              (has_alternate iri = false ->
               alternate iri = {| currentcolor := false; argb := 0 |})
              /\ (currentcolor (alternate iri) = true ->
                  has_alternate iri = true /\ argb (alternate iri) = 0))).
Proof.
  unfold rsvg_paint_server_parse.
  assert (Hst : forall b : bool, is_set (if inherit_given then Some b else None) = inherit_given)
    by (intros b; destruct inherit_given; reflexivity).
  assert (Hnone : forall (b : bool) (X : Prop),
             (if inherit_given then Some true else None) = Some false -> X)
    by (intros b X; destruct inherit_given; discriminate).
  destruct str as [s|].
  2:{ intros H. injection H as <- <-. split; [apply Hst|].
      split; [apply (Hnone true)|]. intros server Hs. discriminate. }
  destruct (String.eqb s "none").
  { intros H. injection H as <- <-. split; [apply Hst|].
    split; [apply (Hnone true)|]. intros server Hs. discriminate. }
  destruct (rsvg_get_url_string s) as [[name rest]|].
  - destruct (parse_current_color_or_argb (skip_spaces rest)) as [[given alt]| |] eqn:Halt;
      try discriminate.
    apply parse_current_color_or_argb_returned in Halt. destruct Halt as [H1 H2].
    intros H. injection H as <- <-. split; [apply Hst|].
    split; [apply (Hnone true)|].
    intros server Hs. injection Hs as <-. cbn [rsvg_paint_server_iri refcnt core].
    split; [reflexivity|]. split; [intros color Hc; discriminate|].
    intros iri Hi. injection Hi as <-. cbn [has_alternate alternate]. split; assumption.
  - destruct (spec_kind _); try discriminate;
      intros H; injection H as <- <-; (split; [apply Hst|]);
      (split; [first [intros _; reflexivity | apply (Hnone true)]|]);
      intros server Hs; try discriminate; injection Hs as <-;
      cbn [rsvg_paint_server_solid rsvg_paint_server_solid_current_color refcnt core];
      (split; [reflexivity|]); (split; [|intros iri Hi; discriminate]);
      intros color Hc; injection Hc as <-; cbn [currentcolor argb];
      first [reflexivity | discriminate].
Qed.

Lemma skip_spaces_app (ws rest : string) :
  (forall c, In c (list_ascii_of_string ws) -> g_ascii_isspace c = true) ->
  skip_spaces (ws ++ rest) = skip_spaces rest.
Proof.
  induction ws as [|c ws IH]; intros H; [reflexivity|].
  simpl. rewrite (H c) by (left; reflexivity).
  apply IH. intros c' Hc'. apply H. right. exact Hc'.
Qed.

Lemma skip_spaces_stops (rest : string) :
  match rest with
  | String c _ => g_ascii_isspace c = false
  | EmptyString => True
  end ->
  skip_spaces rest = rest.
Proof. destruct rest as [|c rest]; [reflexivity|]. cbn. intros ->. reflexivity. Qed.

(** X7: [rsvg_paint_server_parse] returns NULL for no string, for the string
    none whatever the parsers make of it, and for a string that is neither a
    reference nor a colour; a reference never gives NULL.  It aborts exactly
    when the colour after a reference is reported as inherit or as a kind the
    code does not name, or a string without reference as such a kind; it
    never dereferences a null pointer. *)
Theorem rsvg_paint_server_parse_failures (inherit_given : bool) (s : string) :
  let stored (b : bool) := if inherit_given then Some b else None in
  rsvg_paint_server_parse inherit_given None = Returned (stored true, None)
  /\ rsvg_paint_server_parse inherit_given (Some "none"%string)
     = Returned (stored true, None)
  /\ rsvg_paint_server_parse inherit_given (Some s) <> Undefined
  /\ (rsvg_paint_server_parse inherit_given (Some s) = Returned (stored true, None)
      <-> s = "none"%string
          \/ (rsvg_get_url_string s = None
              /\ spec_kind (rsvg_css_parse_color s ALLOW_INHERIT_YES ALLOW_CURRENT_COLOR_YES)
                 = RSVG_CSS_COLOR_PARSE_ERROR))
  /\ (rsvg_paint_server_parse inherit_given (Some s) = Aborted
      <-> s <> "none"%string
          /\ match rsvg_get_url_string s with
             | Some (_, rest) =>
                 skip_spaces rest <> "none"%string
                 /\ match spec_kind (rsvg_css_parse_color (skip_spaces rest)
                                       ALLOW_INHERIT_NO ALLOW_CURRENT_COLOR_YES) with
                    | RSVG_CSS_COLOR_SPEC_INHERIT | RSVG_CSS_COLOR_SPEC_other _ => True
                    | _ => False
                    end
             | None =>
                 exists v,
                   spec_kind (rsvg_css_parse_color s ALLOW_INHERIT_YES
                                ALLOW_CURRENT_COLOR_YES)
                   = RSVG_CSS_COLOR_SPEC_other v
             end).
Proof.
  cbv zeta. split; [reflexivity|]. split; [reflexivity|].
  unfold rsvg_paint_server_parse, parse_current_color_or_argb.
  destruct (String.eqb_spec s "none") as [Hs|Hs].
  { split; [discriminate|]. split.
    - split; [intros _; left; exact Hs | reflexivity].
    - split; [discriminate | intros [H _]; contradiction]. }
  destruct (rsvg_get_url_string s) as [[name rest]|].
  - destruct (String.eqb_spec (skip_spaces rest) "none") as [Hr|Hr].
    + split; [discriminate|]. split.
      * split; [discriminate | intros [H|[H _]]; [contradiction | discriminate]].
      * split; [discriminate | intros [_ [H _]]; contradiction].
    + destruct (spec_kind (rsvg_css_parse_color (skip_spaces rest) _ _)).
      all: split; [discriminate|]; split.
      all: try (split; [discriminate | intros [H|[H _]]; [contradiction | discriminate]]).
      all: try (split; [discriminate | intros [_ [_ H]]; contradiction]).
      all: split; [intros _; split; [exact Hs | split; [exact Hr | exact I]]
                  | reflexivity].
  - destruct (spec_kind (rsvg_css_parse_color s _ _)) eqn:Hk.
    all: split; [discriminate|]; split.
    all: try (split; [destruct inherit_given; discriminate
                     | intros [H|[_ H]]; [contradiction | discriminate]]).
    all: try (split; [discriminate | intros [_ [v H]]; discriminate]).
    + split; [intros _; right; split; reflexivity | reflexivity].
    + split; [intros _; split; [exact Hs | eexists; reflexivity] | reflexivity].
Qed.

(** X8: the colour that follows a reference may be set off by any run of
    ASCII white space: the run is skipped, and the alternate is parsed from
    the first character that is not white space. *)
Theorem rsvg_paint_server_parse_skips_spaces (inherit_given : bool)
    (s name ws rest : string) :
  s <> "none"%string ->
  rsvg_get_url_string s = Some (name, (ws ++ rest)%string) ->
  (forall c, In c (list_ascii_of_string ws) -> g_ascii_isspace c = true) ->
  match rest with
  | String c _ => g_ascii_isspace c = false
  | EmptyString => True
  end ->
  rsvg_paint_server_parse inherit_given (Some s)
  = match parse_current_color_or_argb rest with
    | Returned (alt_given, alt) =>
        Returned (if inherit_given then Some true else None,
                  Some (rsvg_paint_server_iri name alt_given alt))
    | Aborted => Aborted
    | Undefined => Undefined
    end.
Proof.
  intros Hs Hurl Hws Hrest. unfold rsvg_paint_server_parse.
  destruct (String.eqb_spec s "none") as [H|_]; [contradiction|].
  rewrite Hurl, (skip_spaces_app ws rest Hws), (skip_spaces_stops rest Hrest).
  reflexivity.
Qed.

End PaintServerProperties.

Lemma rsvg_paint_server_parse_result_witness :
  rsvg_paint_server_parse (P := PaintSample.parsers) true (Some "inherit"%string)
  = Returned (Some false, Some (rsvg_paint_server_solid 0))
  /\ is_set (Some false) = true.
Proof.
  split; [reflexivity|].
  exact (proj1 (rsvg_paint_server_parse_result (P := PaintSample.parsers) true
                  (Some "inherit"%string) (Some false)
                  (Some (rsvg_paint_server_solid 0)) eq_refl)).
Defined.

Lemma rsvg_paint_server_parse_skips_spaces_witness :
  rsvg_paint_server_parse (P := PaintSample.parsers) false (Some "url(#g)  red"%string)
  = Returned (None,
              Some (rsvg_paint_server_iri "#g" true
                      {| currentcolor := false; argb := 0xFFFF0000 |})).
Proof.
  apply (rsvg_paint_server_parse_skips_spaces (P := PaintSample.parsers) false
           "url(#g)  red" "#g" "  " "red").
  - discriminate.
  - reflexivity.
  - intros c [<-|[<-|[]]]; reflexivity.
  - reflexivity.
Defined.

(** *** Reference counts *)

Section PaintServerHeapProperties.
Variable refcnt_min refcnt_max : Z.

(** X9: on a live paint server whose count is positive and below the
    largest value, [rsvg_paint_server_ref] followed by
    [rsvg_paint_server_unref] leaves the memory as it was: the server is
    not freed and its count is back; on NULL both do nothing. *)
Theorem rsvg_paint_server_ref_unref (p : positive) (server : RsvgPaintServer)
    (h : PaintServerHeap) :
  rsvg_paint_server_ref refcnt_max None h = Returned h
  /\ rsvg_paint_server_unref refcnt_min None h = Returned h
  /\ (h p = Some server ->
      0 < refcnt server -> refcnt_min <= refcnt server < refcnt_max ->
      exists h1 h2,
        rsvg_paint_server_ref refcnt_max (Some p) h = Returned h1
        /\ (exists server1, h1 p = Some server1
                            /\ refcnt server1 = refcnt server + 1
                            /\ core server1 = core server)
        /\ rsvg_paint_server_unref refcnt_min (Some p) h1 = Returned h2
        /\ forall q, h2 q = h q).
Proof.
  split; [reflexivity|]. split; [reflexivity|].
  intros Hp Hpos Hrange.
  unfold rsvg_paint_server_ref. rewrite Hp.
  destruct (Z.ltb_spec (refcnt server) refcnt_max) as [_|H]; [|lia].
  eexists _, _. split; [reflexivity|]. split.
  { eexists. unfold heap_store. rewrite Pos.eqb_refl.
    split; [reflexivity|]. split; reflexivity. }
  unfold rsvg_paint_server_unref, heap_store at 1. rewrite Pos.eqb_refl.
  cbn [set_refcnt refcnt core].
  destruct (Z.leb_spec (refcnt server + 1) refcnt_min) as [H|_]; [lia|].
  destruct (Z.eqb_spec (refcnt server + 1 - 1) 0) as [H|_]; [lia|].
  split; [reflexivity|].
  intros q. unfold heap_store. destruct (Pos.eqb_spec q p) as [->|_]; [|reflexivity].
  rewrite Hp. replace (refcnt server + 1 - 1) with (refcnt server) by lia.
  destruct server; reflexivity.
Qed.

(** X10: a paint server as [rsvg_paint_server_parse] returns it is freed by
    its first [rsvg_paint_server_unref], every other server staying where it
    is; a second one then works on freed memory. *)
Theorem rsvg_paint_server_parse_unref {P : PaintExternals} (inherit_given : bool)
    (str : option string) (stored : option bool) (server : RsvgPaintServer)
    (p : positive) (h : PaintServerHeap) :
  rsvg_paint_server_parse inherit_given str = Returned (stored, Some server) ->
  h p = Some server -> refcnt_min < 1 ->
  exists h',
    rsvg_paint_server_unref refcnt_min (Some p) h = Returned h'
    /\ h' p = None
    /\ (forall q, q <> p -> h' q = h q)
    /\ rsvg_paint_server_unref refcnt_min (Some p) h' = Undefined
    /\ rsvg_paint_server_ref refcnt_max (Some p) h' = Undefined.
Proof.
  intros Hparse Hp Hmin.
  assert (Hone : refcnt server = 1).
  { unfold rsvg_paint_server_parse in Hparse.
    destruct str as [s|]; [|discriminate].
    destruct (String.eqb s "none"); [discriminate|].
    destruct (rsvg_get_url_string s) as [[name rest]|].
    - destruct (parse_current_color_or_argb (skip_spaces rest)) as [[g a]| |];
        try discriminate.
      injection Hparse as _ <-. reflexivity.
    - destruct (spec_kind _); try discriminate; injection Hparse as _ <-; reflexivity. }
  exists (heap_store p None h).
  unfold rsvg_paint_server_unref at 1. rewrite Hp, Hone.
  destruct (Z.leb_spec 1 refcnt_min) as [H|_]; [lia|].
  change (1 - 1 =? 0) with true. cbv iota.
  split; [reflexivity|].
  assert (Hfree : heap_store p None h p = None)
    by (unfold heap_store; rewrite Pos.eqb_refl; reflexivity).
  split; [exact Hfree|]. split.
  - intros q Hq. unfold heap_store. destruct (Pos.eqb_spec q p); [contradiction|reflexivity].
  - unfold rsvg_paint_server_unref, rsvg_paint_server_ref. rewrite Hfree.
    split; reflexivity.
Qed.

End PaintServerHeapProperties.

Lemma rsvg_paint_server_ref_unref_witness :
  exists h1 h2,
    rsvg_paint_server_ref 2147483647 (Some 1%positive)
      (PaintSample.heap (rsvg_paint_server_solid 0xFF000000)) = Returned h1
    /\ rsvg_paint_server_unref (-2147483648) (Some 1%positive) h1 = Returned h2
    /\ h2 1%positive = Some (rsvg_paint_server_solid 0xFF000000).
Proof.
  destruct (proj2 (proj2 (rsvg_paint_server_ref_unref (-2147483648) 2147483647 1%positive
                            (rsvg_paint_server_solid 0xFF000000)
                            (PaintSample.heap (rsvg_paint_server_solid 0xFF000000)))))
    as (h1 & h2 & H1 & _ & H2 & H3).
  - reflexivity.
  - simpl. lia.
  - simpl. lia.
  - exists h1, h2. split; [exact H1|]. split; [exact H2|]. rewrite H3. reflexivity.
Defined.

Lemma rsvg_paint_server_parse_unref_witness :
  exists h',
    rsvg_paint_server_unref 0 (Some 1%positive)
      (PaintSample.heap (rsvg_paint_server_solid 0xFFFF0000)) = Returned h'
    /\ h' 1%positive = None.
Proof.
  destruct (rsvg_paint_server_parse_unref 0 4294967295 (P := PaintSample.parsers)
              false (Some "red"%string) None (rsvg_paint_server_solid 0xFFFF0000)
              1%positive (PaintSample.heap (rsvg_paint_server_solid 0xFFFF0000)))
    as (h' & H1 & H2 & _).
  - reflexivity.
  - reflexivity.
  - lia.
  - exists h'. split; [exact H1 | exact H2].
Defined.

(** ** Gradients *)

Section GradientProperties.
Context {D : DoubleOps} {E : Externals} {G : GradientExternals}.

(** X11: [rsvg_linear_gradient_set_atts] never clears a flag; on the
    structure that [rsvg_new_linear_gradient] makes, the flags of the four
    lengths, of the spread method and of the units say which attributes the
    bag holds, whatever their values; a bag that holds none of the
    attributes changes nothing but the fallback, which is dropped; and the
    fallback after the call is the [xlink:href] of the bag. *)
Theorem rsvg_linear_gradient_set_atts_flags (grad : RsvgLinearGradient)
    (atts : RsvgPropertyBag) :
  let grad' := fst (rsvg_linear_gradient_set_atts grad atts) in
  let fresh := fst (rsvg_linear_gradient_set_atts rsvg_new_linear_gradient atts) in
  Forall2 (fun before after => before = true -> after = true)
          (lg_flags grad) (lg_flags grad')
  /\ lg_fallback grad' = rsvg_property_bag_lookup atts "xlink:href"
  /\ lg_flags fresh
     = [given atts "x1"; given atts "y1"; given atts "x2"; given atts "y2";
        given atts "gradientUnits"; given atts "spreadMethod"; lg_hastransform fresh]
  /\ (lg_hastransform fresh = true -> given atts "gradientTransform" = true)
  /\ ((forall key, rsvg_property_bag_lookup atts key = None) ->
      rsvg_linear_gradient_set_atts grad atts = (lg_with_fallback None grad, [])).
Proof.
  cbv zeta.
  unfold rsvg_linear_gradient_set_atts, lg_flags, given, set_length, set_spread,
    set_transform, set_units.
  cbn [fst snd lg_hasx1 lg_hasy1 lg_hasx2 lg_hasy2 lg_hasbbox lg_hasspread
       lg_hastransform lg_fallback rsvg_new_linear_gradient lg_affine].
  split; [|split; [reflexivity|split; [|split]]].
  - repeat constructor;
      match goal with
      | |- context [rsvg_property_bag_lookup atts ?k] =>
          destruct (rsvg_property_bag_lookup atts k)
      end; cbn [fst snd]; try (intros; reflexivity); try (intros H; exact H).
    destruct (fst (rsvg_parse_transform _ _)); cbn [fst snd]; auto.
  - destruct (rsvg_property_bag_lookup atts "x1"),
      (rsvg_property_bag_lookup atts "y1"),
      (rsvg_property_bag_lookup atts "x2"),
      (rsvg_property_bag_lookup atts "y2"),
      (rsvg_property_bag_lookup atts "gradientUnits"),
      (rsvg_property_bag_lookup atts "spreadMethod"); reflexivity.
  - destruct (rsvg_property_bag_lookup atts "gradientTransform"); cbn [is_set fst snd].
    + intros _. reflexivity.
    + intros H. exact H.
  - intros Hnone. rewrite !Hnone. cbn [fst snd]. reflexivity.
Qed.

(** X12: in [rsvg_radial_gradient_set_atts] the focus follows the centre
    until a focus has been given: with [cx] in the bag and no [fx], in it or
    before, the [fx] of the gradient is its new [cx] and still counts as not
    given; an [fx] in the bag wins over [cx]; and once a focus has been
    given a new [cx] leaves it alone.  The same holds for [cy] and [fy]. *)
Theorem rsvg_radial_gradient_set_atts_focus (grad : RsvgRadialGradient)
    (atts : RsvgPropertyBag) :
  let grad' := fst (rsvg_radial_gradient_set_atts grad atts) in
  (given atts "fx" = false ->
   rg_hasfx grad' = rg_hasfx grad
   /\ (given atts "cx" = true -> rg_hasfx grad = false -> rg_fx grad' = rg_cx grad')
   /\ (rg_hasfx grad = true -> rg_fx grad' = rg_fx grad)
   /\ (given atts "cx" = false -> rg_fx grad' = rg_fx grad))
  /\ (forall value, rsvg_property_bag_lookup atts "fx" = Some value ->
        rg_fx grad' = rsvg_length_parse value LENGTH_DIR_HORIZONTAL
        /\ rg_hasfx grad' = true)
  /\ (given atts "fy" = false ->
      rg_hasfy grad' = rg_hasfy grad
      /\ (given atts "cy" = true -> rg_hasfy grad = false -> rg_fy grad' = rg_cy grad')
      /\ (rg_hasfy grad = true -> rg_fy grad' = rg_fy grad)
      /\ (given atts "cy" = false -> rg_fy grad' = rg_fy grad))
  /\ (forall value, rsvg_property_bag_lookup atts "fy" = Some value ->
        rg_fy grad' = rsvg_length_parse value LENGTH_DIR_VERTICAL
        /\ rg_hasfy grad' = true).
Proof.
  cbv zeta.
  unfold rsvg_radial_gradient_set_atts, given, set_length, set_centre.
  cbn [fst snd rg_fx rg_fy rg_cx rg_cy rg_hasfx rg_hasfy].
  split; [|split; [|split]].
  - destruct (rsvg_property_bag_lookup atts "fx"); [discriminate|]. intros _.
    destruct (rsvg_property_bag_lookup atts "cx"); cbn [fst snd is_set];
      (split; [reflexivity|]); (split; [|split]); try discriminate; try reflexivity;
      try (intros _ ->; reflexivity); try (intros ->; reflexivity);
      intros _; reflexivity.
  - intros value ->. split; reflexivity.
  - destruct (rsvg_property_bag_lookup atts "fy"); [discriminate|]. intros _.
    destruct (rsvg_property_bag_lookup atts "cy"); cbn [fst snd is_set];
      (split; [reflexivity|]); (split; [|split]); try discriminate; try reflexivity;
      try (intros _ ->; reflexivity); try (intros ->; reflexivity);
      intros _; reflexivity.
  - intros value ->. split; reflexivity.
Qed.

(** X13: a [gradientTransform] that does not parse is the one thing that
    [rsvg_linear_gradient_set_atts] reports on the node, once; the flag of
    the transform stays as it was, and every other attribute is taken as
    from a bag without the transform.  A [spreadMethod] or [gradientUnits]
    that is none of the words known raises its flag, keeps the value and is
    not reported. *)
Theorem rsvg_linear_gradient_set_atts_errors (grad : RsvgLinearGradient)
    (atts : RsvgPropertyBag) :
  (forall atts' value,
     rsvg_property_bag_lookup atts "gradientTransform" = Some value ->
     fst (rsvg_parse_transform (lg_affine grad) value) = false ->
     rsvg_property_bag_lookup atts' "gradientTransform" = None ->
     (forall key, key <> "gradientTransform"%string ->
                  rsvg_property_bag_lookup atts' key = rsvg_property_bag_lookup atts key) ->
     rsvg_linear_gradient_set_atts grad atts
     = (lg_with_affine (snd (rsvg_parse_transform (lg_affine grad) value))
          (fst (rsvg_linear_gradient_set_atts grad atts')),
        [("gradientTransform", "Invalid transformation")%string])
     /\ snd (rsvg_linear_gradient_set_atts grad atts') = [])
  /\ (snd (rsvg_linear_gradient_set_atts grad atts) <> [] ->
      exists value,
        rsvg_property_bag_lookup atts "gradientTransform" = Some value
        /\ fst (rsvg_parse_transform (lg_affine grad) value) = false)
  /\ (forall value,
        rsvg_property_bag_lookup atts "spreadMethod" = Some value ->
        value <> "pad"%string -> value <> "reflect"%string -> value <> "repeat"%string ->
        lg_spread (fst (rsvg_linear_gradient_set_atts grad atts)) = lg_spread grad
        /\ lg_hasspread (fst (rsvg_linear_gradient_set_atts grad atts)) = true)
  /\ (forall value,
        rsvg_property_bag_lookup atts "gradientUnits" = Some value ->
        value <> "userSpaceOnUse"%string -> value <> "objectBoundingBox"%string ->
        lg_obj_bbox (fst (rsvg_linear_gradient_set_atts grad atts)) = lg_obj_bbox grad
        /\ lg_hasbbox (fst (rsvg_linear_gradient_set_atts grad atts)) = true).
Proof.
  unfold rsvg_linear_gradient_set_atts, set_length, set_spread, set_transform, set_units.
  cbn [fst snd lg_spread lg_hasspread lg_obj_bbox lg_hasbbox].
  split; [|split; [|split]].
  - intros atts' value Hv Hfail Hnone Hsame.
    rewrite Hnone, Hv.
    rewrite (Hsame "x1"%string), (Hsame "y1"%string), (Hsame "x2"%string),
      (Hsame "y2"%string), (Hsame "spreadMethod"%string), (Hsame "xlink:href"%string),
      (Hsame "gradientUnits"%string) by discriminate.
    cbv zeta. rewrite Hfail.
    cbn [fst snd]. split; reflexivity.
  - destruct (rsvg_property_bag_lookup atts "gradientTransform") as [value|];
      cbv zeta; [|intros H; contradiction H; reflexivity].
    destruct (fst (rsvg_parse_transform (lg_affine grad) value)) eqn:Hp; cbn [snd];
      [intros H; contradiction H; reflexivity|].
    intros _. exists value. split; [reflexivity | exact Hp].
  - intros value -> H1 H2 H3. cbn [fst snd].
    destruct (String.eqb_spec value "pad"); [contradiction|].
    destruct (String.eqb_spec value "reflect"); [contradiction|].
    destruct (String.eqb_spec value "repeat"); [contradiction|].
    split; reflexivity.
  - intros value -> H1 H2. cbn [fst snd].
    destruct (String.eqb_spec value "userSpaceOnUse"); [contradiction|].
    destruct (String.eqb_spec value "objectBoundingBox"); [contradiction|].
    split; reflexivity.
Qed.

End GradientProperties.

Lemma rsvg_radial_gradient_set_atts_focus_witness :
  let grad' := fst (rsvg_radial_gradient_set_atts (G := GradientSample.parsers)
                      GradientSample.fresh_radial [("cx", "0.3")]%string) in
  rg_fx grad' = "0.3"%string /\ rg_cx grad' = "0.3"%string /\ rg_hasfx grad' = false.
Proof.
  cbv zeta.
  destruct (proj1 (rsvg_radial_gradient_set_atts_focus (G := GradientSample.parsers)
                     GradientSample.fresh_radial [("cx", "0.3")]%string) eq_refl)
    as (Hflag & Hfollow & _).
  split; [rewrite (Hfollow eq_refl eq_refl); reflexivity|].
  split; [reflexivity | exact Hflag].
Defined.

Lemma rsvg_linear_gradient_set_atts_errors_witness :
  rsvg_linear_gradient_set_atts (G := GradientSample.parsers) GradientSample.fresh_linear
    [("x1", "5"); ("gradientTransform", "rotate("); ("gradientUnits", "userSpaceOnUse")]%string
  = (lg_with_affine Sample.identity_matrix
       (fst (rsvg_linear_gradient_set_atts (G := GradientSample.parsers)
               GradientSample.fresh_linear
               [("x1", "5"); ("gradientUnits", "userSpaceOnUse")]%string)),
     [("gradientTransform", "Invalid transformation")%string]).
Proof.
  refine (proj1 (proj1 (rsvg_linear_gradient_set_atts_errors (G := GradientSample.parsers)
                          GradientSample.fresh_linear
                          [("x1", "5"); ("gradientTransform", "rotate(");
                           ("gradientUnits", "userSpaceOnUse")]%string)
                   [("x1", "5"); ("gradientUnits", "userSpaceOnUse")]%string
                   "rotate("%string eq_refl eq_refl eq_refl _)).
  intros key Hkey. cbn [rsvg_property_bag_lookup GradientSample.parsers].
  unfold GradientSample.bag_lookup. cbn [List.find fst snd].
  destruct (String.eqb_spec "x1" key); [reflexivity|].
  destruct (String.eqb_spec "gradientTransform" key) as [Heq|_];
    [contradiction Hkey; symmetry; exact Heq|].
  reflexivity.
Defined.
